(** * ConfigReader: the configuration / credential resolver

    Shallow embedding of [POM-Framework/utilities/ConfigReader.ts] and of the
    environment table of [POM-Tests/test.config.ts].

    Modelling conventions.
    - A JavaScript string is a [string]: a sequence of 8-bit code units, read
      as 7-bit ASCII (every key and value of the shipped table is ASCII).
      [toUpperCase] and [toLowerCase] are given on ASCII; what is stated of a
      string that goes through them is stated of the strings of
      [JS.ascii_only].
    - A plain JavaScript object used as a record of string keys
      ([Record<string, T>], [DomainPaths]) is the association list of its own
      properties, in property order, so that [Object.keys] is the list of
      first components.  Its prototype is [Object.prototype]: [o[k]] and
      [k in o] also find the members listed in [Proto], which [Obj.index]
      and [Obj.in_] account for.
    - The types of TypeScript are erased when the code runs.  A method can
      hand out a value that is not of its declared type (an inherited
      member, [undefined], a pair with a missing field); a call therefore
      has three outcomes: [Ok] with a value of the declared type, [Throw],
      and [Untyped] with such a value.
    - Errors the code raises itself carry their message; a [TypeError] of
      the runtime carries the message V8 gives it.
    - [process.env] is a finite map from slot names to strings.
    - The three static fields of the class form the [State]; every static
      method is a computation in a state-and-exception monad.  A [throw]
      keeps the state reached so far.
    - Calls to the logger are not modelled: they neither read nor write the
      resolver state and their output is not part of any result. *)

From Stdlib Require Import Ascii NArith Bool.
From stdpp Require Import base option list gmap strings.

Set Default Proof Using "Type".

(** ** JavaScript string and truthiness primitives *)

Module JS.

(** The character U+0022 and a string wrapped in a pair of them, as the
    template literals of the error messages do. *)
Definition dquote : string :=
  String (Ascii.Ascii false true false false false true false false) EmptyString.

Definition quoted (s : string) : string := dquote +:+ s +:+ dquote.

(** [!!s] for a string: only the empty string is falsy. *)
Definition truthy (s : string) : bool :=
  match s with
  | EmptyString => false
  | String _ _ => true
  end.

(** [v || d] where [v] is a string or [undefined] / [null]. *)
Definition or_else (v : option string) (d : string) : string :=
  match v with
  | Some (String c s) => String c s
  | _ => d
  end.

(** The truthy content of a possibly missing string: [Some] exactly when an
    [if (v)] test succeeds. *)
Definition effective (v : option string) : option string :=
  match v with
  | Some (String c s) => Some (String c s)
  | _ => None
  end.

Fixpoint map_chars (f : ascii → ascii) (s : string) : string :=
  match s with
  | EmptyString => EmptyString
  | String c r => String (f c) (map_chars f r)
  end.

Definition in_range (lo hi c : ascii) : bool :=
  ((N_of_ascii lo <=? N_of_ascii c)%N && (N_of_ascii c <=? N_of_ascii hi)%N).

Definition upper_char (c : ascii) : ascii :=
  if in_range "a" "z" c then ascii_of_N (N_of_ascii c - 32) else c.

(** [s.toUpperCase()] on ASCII. *)
Definition toUpperCase (s : string) : string := map_chars upper_char s.

(** The strings all of whose code units are ASCII characters. *)
Definition ascii_char (c : ascii) : bool := (N_of_ascii c <? 128)%N.

Definition ascii_only (s : string) : bool :=
  forallb ascii_char (String.list_ascii_of_string s).

(** The character class [[A-Z0-9]]. *)
Definition upper_or_digit (c : ascii) : bool :=
  in_range "A" "Z" c || in_range "0" "9" c.

(** [s.replace(/[^A-Z0-9]/g, '_')]. *)
Definition replace_non_upper_digit (s : string) : string :=
  map_chars (fun c => if upper_or_digit c then c else "_"%char) s.

(** [s.replace(/\/$/, '')]: without the [m] flag [$] only matches at the end
    of the input, so at most the last code unit is removed. *)
Fixpoint stripTrailingSlash (s : string) : string :=
  match s with
  | EmptyString => EmptyString
  | String c r =>
      match r with
      | EmptyString => if Ascii.eqb c "/" then EmptyString else s
      | String _ _ => String c (stripTrailingSlash r)
      end
  end.

(** [s.startsWith('/')]. *)
Definition startsWithSlash (s : string) : bool :=
  match s with
  | String c _ => Ascii.eqb c "/"
  | EmptyString => false
  end.

(** [path.startsWith('/') ? path : `/${path}`]. *)
Definition ensureLeadingSlash (p : string) : string :=
  if startsWithSlash p then p else "/" +:+ p.

(** [xs.join(sep)]. *)
Fixpoint join (sep : string) (xs : list string) : string :=
  match xs with
  | [] => ""
  | [x] => x
  | x :: r => x +:+ sep +:+ join sep r
  end.

(** [msg] contains [k] as a contiguous piece. *)
Definition mentions (msg k : string) : Prop :=
  ∃ a b, msg = a +:+ k +:+ b.

End JS.

(** ** What every plain object inherits *)

Module Proto.

(** [Object.getOwnPropertyNames(Object.prototype)]. *)
Definition names : list string :=
  [ "constructor"; "__defineGetter__"; "__defineSetter__"; "hasOwnProperty";
    "__lookupGetter__"; "__lookupSetter__"; "isPrototypeOf";
    "propertyIsEnumerable"; "toString"; "valueOf"; "__proto__";
    "toLocaleString" ].

Definition inherited (k : string) : bool := bool_decide (k ∈ names).

(** [`${m.name}`] for the member [m] found under [k]: [constructor] is the
    function [Object]; [__proto__] is the prototype object itself, which has
    no [name]; every other member is a function named like its key. *)
Definition nameText (k : string) : string :=
  if String.eqb k "constructor" then "Object"
  else if String.eqb k "__proto__" then "undefined"
  else k.

End Proto.

(** The messages of the [TypeError]s the resolver can run into. *)
Module TypeError.

(** [undefined[key]]. *)
Definition read_undefined (key : string) : string :=
  "Cannot read properties of undefined (reading '" +:+ key +:+ "')".

(** [callee(...)] where [callee] evaluates to [undefined]. *)
Definition not_a_function (callee : string) : string :=
  callee +:+ " is not a function".

(** [key in undefined]. *)
Definition in_undefined (key : string) : string :=
  "Cannot use 'in' operator to search for '" +:+ key +:+ "' in undefined".

(** [Object.keys(undefined)]. *)
Definition keys_undefined : string :=
  "Cannot convert undefined or null to object".

End TypeError.

(** ** Plain objects keyed by strings *)

Module Obj.

Definition t (V : Type) : Type := list (string * V).

(** The own property [k], if there is one. *)
Fixpoint get {V} (o : t V) (k : string) : option V :=
  match o with
  | [] => None
  | (k', v) :: r => if String.eqb k' k then Some v else get r k
  end.

(** [Object.keys(o)]. *)
Definition keys {V} (o : t V) : list string := o.*1.

(** [k] is an own property of [o]: [Object.keys(o).includes(k)]. *)
Definition has {V} (k : string) (o : t V) : bool :=
  bool_decide (k ∈ keys o).

(** What an index expression finds: an own property or, failing that, the
    member of [Object.prototype] of that name. *)
Inductive Found (V : Type) : Type :=
| Own (v : V)
| Inherited (k : string).
Arguments Own {V} v.
Arguments Inherited {V} k.

(** [o[k]]; [None] is [undefined]. *)
Definition index {V} (o : t V) (k : string) : option (Found V) :=
  match get o k with
  | Some v => Some (Own v)
  | None => if Proto.inherited k then Some (Inherited k) else None
  end.

(** [k in o]. *)
Definition in_ {V} (k : string) (o : t V) : bool :=
  has k o || Proto.inherited k.

End Obj.

(** ** The data model of [test.config.ts] *)

Record Credentials := mkCredentials {
  username : string;
  password : string
}.

Record UrlConfig := mkUrlConfig {
  protocol : string;
  envPrefix : string;
  subdomain : string;
  domain : string
}.

(** [DomainPaths] is read with arbitrary string keys and through
    [Object.keys], so it is kept as an object of strings. *)
Definition DomainPaths : Type := Obj.t string.

Record TestEnvironmentConfig := mkEnv {
  name : string;
  baseUrl : string;
  urlConfig : option UrlConfig;
  domainPaths : DomainPaths;
  credentials : Obj.t Credentials
}.

Record TestConfig := mkTestConfig {
  environments : Obj.t TestEnvironmentConfig
}.

(** The table exported by [test.config.ts]. *)
Module Shipped.

Definition repohighway (prefix dom : string) : UrlConfig :=
  {| protocol := "https"; envPrefix := prefix;
     subdomain := "repohighway"; domain := dom |}.

Definition paths (site login : string) : DomainPaths :=
  [ ("site", site); ("highway", "repohighway"); ("login", login);
    ("home", "/home"); ("logout", "/logout"); ("settings", "/settings") ].

Definition dev : TestEnvironmentConfig :=
  {| name := "Development"; baseUrl := "";
     urlConfig := Some (repohighway "dev" "devservices.dh.com");
     domainPaths := paths "DEV" "/go.aspx";
     credentials :=
       [ ("admin", mkCredentials "admin@example.com" "Admin123!");
         ("testUser1", mkCredentials "testuser1@example.com" "TestUser123!");
         ("testUser2", mkCredentials "testuser2@example.com" "TestUser456!");
         ("readOnlyUser", mkCredentials "readonly@example.com" "ReadOnly123!") ] |}.

Definition QA : TestEnvironmentConfig :=
  {| name := "QA"; baseUrl := "";
     urlConfig := Some (repohighway "qa2" "devservices.dh.com");
     domainPaths := paths "QA" "/go.aspx";
     credentials :=
       [ ("RBCClient", mkCredentials "MIJIRBC" "Assetuse@1");
         ("TDFClient", mkCredentials "MIJITDF" "Assetuse@2");
         ("testUser2", mkCredentials "staginguser2@example.com" "StagingUser456!");
         ("readOnlyUser", mkCredentials "readonly@example.com" "ReadOnly123!") ] |}.

Definition prod : TestEnvironmentConfig :=
  {| name := "Production"; baseUrl := "";
     urlConfig := Some (repohighway "prod" "dh.com");
     domainPaths := paths "PROD" "/go.aspx";
     credentials :=
       [ ("admin", mkCredentials "prod.admin@example.com" "ProdAdmin123!");
         ("testUser1", mkCredentials "produser1@example.com" "ProdUser123!");
         ("testUser2", mkCredentials "produser2@example.com" "ProdUser456!");
         ("readOnlyUser", mkCredentials "prod.readonly@example.com" "ProdReadOnly123!") ] |}.

Definition local : TestEnvironmentConfig :=
  {| name := "Local"; baseUrl := "http://localhost:3000";
     urlConfig := None;
     domainPaths := paths "LOCAL" "/login";
     credentials :=
       [ ("admin", mkCredentials "admin@localhost" "local123");
         ("testUser1", mkCredentials "test@localhost" "test123");
         ("testUser2", mkCredentials "user@localhost" "user123");
         ("readOnlyUser", mkCredentials "readonly@localhost" "readonly123") ] |}.

Definition testConfig : TestConfig :=
  {| environments := [ ("dev", dev); ("QA", QA); ("prod", prod); ("local", local) ] |}.

End Shipped.

(** ** Resolver state and the monad of its methods *)

(** A value that is not of the type its holder declares. *)
Inductive JSValue : Type :=
| Member (k : string)
| Undefined
| PartialCredentials (user pass : option string).

(** [`${v.name}`] for a value that has properties: a member of
    [Object.prototype] or an object.  The resolver reads it only of what the
    resolution has handed out, which is always a member. *)
Definition nameText (v : JSValue) : string :=
  match v with
  | Member k => Proto.nameText k
  | Undefined | PartialCredentials _ _ => "undefined"
  end.

(** The cache is a [Map<string, any>]: it holds whatever indexing the table
    has found. *)
Record State := mkState {
  cache : gmap string (Obj.Found TestEnvironmentConfig);
  cacheEnabled : bool;
  currentEnvironment : option string
}.

(** The static initialisers of the class. *)
Definition initial : State :=
  {| cache := ∅; cacheEnabled := true; currentEnvironment := None |}.

Inductive Result (A : Type) : Type :=
| Ok (a : A)
| Throw (message : string)
| Untyped (v : JSValue).
Arguments Ok {A} a.
Arguments Throw {A} message.
Arguments Untyped {A} v.

Definition M (A : Type) : Type := State → Result A * State.

Definition ret {A} (a : A) : M A := fun st => (Ok a, st).

Definition throw {A} (message : string) : M A := fun st => (Throw message, st).

(** [return v] for a [v] that is not of the declared type. *)
Definition untyped {A} (v : JSValue) : M A := fun st => (Untyped v, st).

(** [return f] for what an index expression has found. *)
Definition typed {A} (f : Obj.Found A) : Result A :=
  match f with
  | Obj.Own a => Ok a
  | Obj.Inherited k => Untyped (Member k)
  end.

Definition found {A} (f : Obj.Found A) : M A := fun st => (typed f, st).

(** Sequencing when the first step yields a value of its declared type
    whenever it returns: a read or a write of the state,
    [getEnvironmentName], [getBaseUrl].  The third branch is never taken
    for these. *)
Definition bind {A B} (m : M A) (k : A → M B) : M B :=
  fun st =>
    match m st with
    | (Ok a, st') => k a st'
    | (Throw e, st') => (Throw e, st')
    | (Untyped v, st') => (Untyped v, st')
    end.

(** Sequencing when the first step may hand over an untyped value, with what
    the rest of the method does on it. *)
Definition bind_any {A B} (m : M A) (k : A → M B) (u : JSValue → M B) : M B :=
  fun st =>
    match m st with
    | (Ok a, st') => k a st'
    | (Throw e, st') => (Throw e, st')
    | (Untyped v, st') => u v st'
    end.

Definition gets {A} (f : State → A) : M A := fun st => (Ok (f st), st).

Definition modify (f : State → State) : M unit := fun st => (Ok tt, f st).

Declare Scope cfg_scope.
Delimit Scope cfg_scope with cfg.
Notation "'let*' x ':=' m 'in' k" := (bind m (fun x => k))
  (at level 10, x name, m at level 100, k at level 200,
   format "'let*'  x  ':='  m  'in' '//' k") : cfg_scope.
Notation "'exec' m 'in' k" := (bind m (fun _ => k))
  (at level 10, m at level 100, k at level 200,
   format "'exec'  m  'in' '//' k") : cfg_scope.
Notation "'let*' x ':=' m 'on_untyped' v '=>' u 'in' k" :=
  (bind_any m (fun x => k) (fun v => u))
  (at level 10, x name, v name, m at level 100, u at level 100, k at level 200,
   format "'let*'  x  ':='  m  '//'   'on_untyped'  v  '=>'  u  'in' '//' k") : cfg_scope.
Open Scope cfg_scope.

Definition result {A} (r : Result A * State) : Result A := r.1.
Definition final {A} (r : Result A * State) : State := r.2.

(** ** The methods of [ConfigReader] *)

Section ConfigReader.

(** The imported table and the process environment at the time of a call. *)
Variable testConfig : TestConfig.
Variable penv : gmap string string.

(** *** Error messages, as the template literals build them *)

Definition getAvailableEnvironments : list string :=
  Obj.keys (environments testConfig).

Definition hasEnvironment (envName : string) : bool :=
  Obj.in_ envName (environments testConfig).

Definition msg_setEnvironment_unknown (envName : string) : string :=
  "Environment " +:+ JS.quoted envName +:+ " not found. Available environments: "
    +:+ JS.join ", " getAvailableEnvironments.

Definition msg_unknown_environment (env : string) : string :=
  "Environment " +:+ JS.quoted env +:+ " not found in test.config.ts. Available: "
    +:+ JS.join ", " getAvailableEnvironments.

Definition msg_missing_base_url (config : TestEnvironmentConfig) : string :=
  "No baseUrl or urlConfig found for environment: " +:+ name config.

(** The same template on a value that is not an entry of the table. *)
Definition msg_missing_base_url_untyped (v : JSValue) : string :=
  "No baseUrl or urlConfig found for environment: " +:+ nameText v.

Definition msg_unknown_path (pathKey : string) (config : TestEnvironmentConfig) : string :=
  "Domain path " +:+ JS.quoted pathKey +:+ " not found for environment "
    +:+ JS.quoted (name config) +:+ ". Available paths: "
    +:+ JS.join ", " (Obj.keys (domainPaths config)).

Definition msg_unknown_credentials (credentialKey : string)
    (config : TestEnvironmentConfig) : string :=
  "Credentials " +:+ JS.quoted credentialKey +:+ " not found for environment "
    +:+ JS.quoted (name config) +:+ ". Available: "
    +:+ JS.join ", " (Obj.keys (credentials config)).

(** *** Cache controls and the active environment *)

Definition clearCache : M unit :=
  modify (fun st =>
    {| cache := ∅; cacheEnabled := cacheEnabled st; currentEnvironment := None |}).

Definition setCaching (enabled : bool) : M unit :=
  exec modify (fun st =>
    {| cache := cache st; cacheEnabled := enabled;
       currentEnvironment := currentEnvironment st |}) in
  if negb enabled then clearCache else ret tt.

Definition getEnvironmentName : M string :=
  let* cur := gets currentEnvironment in
  match JS.effective cur with
  | Some explicit => ret explicit
  | None => ret (JS.or_else (penv !! "TEST_ENV") "QA")
  end.

Definition setEnvironment (envName : string) : M unit :=
  if negb (hasEnvironment envName) then
    throw (msg_setEnvironment_unknown envName)
  else
    exec modify (fun st =>
      {| cache := cache st; cacheEnabled := cacheEnabled st;
         currentEnvironment := Some envName |}) in
    clearCache.

(** *** Resolution *)

Definition cacheKey (env : string) : string := "env_" +:+ env.

Definition getEnvironmentConfig (envName : option string) : M TestEnvironmentConfig :=
  let* env :=
    match JS.effective envName with
    | Some given => ret given
    | None => getEnvironmentName
    end in
  let* enabled := gets cacheEnabled in
  let* hit := gets (fun st => cache st !! cacheKey env) in
  match (if enabled then hit else None) with
  | Some cached => found cached
  | None =>
      match Obj.index (environments testConfig) env with
      | None => throw (msg_unknown_environment env)
      | Some config =>
          exec (if enabled then
                  modify (fun st =>
                    {| cache := <[cacheKey env := config]> (cache st);
                       cacheEnabled := cacheEnabled st;
                       currentEnvironment := currentEnvironment st |})
                else ret tt) in
          found config
      end
  end.

Definition buildBaseUrl (urlConfig : UrlConfig) (envPrefixOverride : option string) : string :=
  let prefix :=
    JS.or_else envPrefixOverride
      (JS.or_else (penv !! "ENV_PREFIX") (envPrefix urlConfig)) in
  let subdomain := JS.or_else (penv !! "SUBDOMAIN") (subdomain urlConfig) in
  let domain := domain urlConfig in
  protocol urlConfig +:+ "://" +:+ prefix +:+ subdomain +:+ "." +:+ domain.

Definition getBaseUrl (envName : option string) : M string :=
  match JS.effective (penv !! "BASE_URL") with
  | Some override => ret override
  | None =>
      (* A value that is no entry has neither [urlConfig] nor [baseUrl]. *)
      let* config := getEnvironmentConfig envName
        on_untyped v => throw (msg_missing_base_url_untyped v) in
      match urlConfig config with
      | Some parts => ret (buildBaseUrl parts None)
      | None =>
          if JS.truthy (baseUrl config) then ret (baseUrl config)
          else throw (msg_missing_base_url config)
      end
  end.

Definition getDomainPath (pathKey : string) (envName : option string) : M string :=
  (* [config.domainPaths] of a value that is no entry is [undefined]. *)
  let* config := getEnvironmentConfig envName
    on_untyped v => throw (TypeError.read_undefined pathKey) in
  match Obj.index (domainPaths config) pathKey with
  | Some (Obj.Own path) =>
      if JS.truthy path then ret path else throw (msg_unknown_path pathKey config)
  | Some (Obj.Inherited k) => untyped (Member k)
  | None => throw (msg_unknown_path pathKey config)
  end.

Definition getUrl (pathKey : string) (envName : option string) : M string :=
  let* baseUrl := getBaseUrl envName in
  (* A [path] that is no string has no [startsWith]. *)
  let* path := getDomainPath pathKey envName
    on_untyped v => throw (TypeError.not_a_function "path.startsWith") in
  let cleanBaseUrl := JS.stripTrailingSlash baseUrl in
  let cleanPath := JS.ensureLeadingSlash path in
  ret (cleanBaseUrl +:+ cleanPath).

Definition getAllDomainPaths (envName : option string) : M DomainPaths :=
  let* config := getEnvironmentConfig envName
    on_untyped v => untyped Undefined in
  ret (domainPaths config).

Definition envKeyPrefix (credentialKey : string) : string :=
  JS.replace_non_upper_digit (JS.toUpperCase credentialKey).

(** [{ username: u, password: p }] where a field may be [undefined]. *)
Definition pairOf (u p : option string) : Result Credentials :=
  match u, p with
  | Some u, Some p => Ok {| username := u; password := p |}
  | _, _ => Untyped (PartialCredentials u p)
  end.

Definition getCredentials (credentialKey : string) (envName : option string)
    : M Credentials :=
  (* [config.credentials] of a value that is no entry is [undefined]. *)
  let* config := getEnvironmentConfig envName
    on_untyped v => throw (TypeError.read_undefined credentialKey) in
  match Obj.index (credentials config) credentialKey with
  | None => throw (msg_unknown_credentials credentialKey config)
  | Some creds =>
      let usernameOverride := penv !! (envKeyPrefix credentialKey +:+ "_USERNAME") in
      let passwordOverride := penv !! (envKeyPrefix credentialKey +:+ "_PASSWORD") in
      match creds with
      | Obj.Own creds =>
          ret {| username := JS.or_else usernameOverride (username creds);
                 password := JS.or_else passwordOverride (password creds) |}
      | Obj.Inherited _ =>
          (* An inherited member has no [username] and no [password]. *)
          fun st => (pairOf (JS.effective usernameOverride) (JS.effective passwordOverride), st)
      end
  end.

Definition getAllCredentials (envName : option string) : M (Obj.t Credentials) :=
  let* config := getEnvironmentConfig envName
    on_untyped v => untyped Undefined in
  ret (credentials config).

Definition hasCredentials (credentialKey : string) (envName : option string) : M bool :=
  let* config := getEnvironmentConfig envName
    on_untyped v => throw (TypeError.in_undefined credentialKey) in
  ret (Obj.in_ credentialKey (credentials config)).

Definition getAvailableCredentialKeys (envName : option string) : M (list string) :=
  let* config := getEnvironmentConfig envName
    on_untyped v => throw TypeError.keys_undefined in
  ret (Obj.keys (credentials config)).

(** *** Validation *)

(** [for (const x of xs) { body(x) }] where the body may throw. *)
Fixpoint for_of {A} (xs : list A) (body : A → Result unit) : Result unit :=
  match xs with
  | [] => Ok tt
  | x :: r =>
      match body x with
      | Ok _ => for_of r body
      | Throw e => Throw e
      | Untyped v => Untyped v
      end
  end.

Definition guard (failed : bool) (message : string) (k : Result unit) : Result unit :=
  if failed then Throw message else k.

Definition msg_missing_field (envName field : string) : string :=
  "Environment " +:+ JS.quoted envName +:+ " missing required field: " +:+ field.

Definition msg_urlConfig_missing (envName field : string) : string :=
  "Environment " +:+ JS.quoted envName +:+ " urlConfig missing required field: " +:+ field.

Definition msg_no_domain_paths (envName : string) : string :=
  "Environment " +:+ JS.quoted envName +:+ " has no domain paths defined".

Definition msg_no_credentials (envName : string) : string :=
  "Environment " +:+ JS.quoted envName +:+ " has no credentials defined".

Definition msg_incomplete_credentials (credKey envName : string) : string :=
  "Credentials " +:+ JS.quoted credKey +:+ " in environment " +:+ JS.quoted envName
    +:+ " missing username or password".

(** Reading a property of [undefined]; never reached, since the loops run
    over [Object.keys] of the object they index, and an own property comes
    before an inherited member. *)
Definition msg_type_error : string :=
  "TypeError: Cannot read properties of undefined".

Definition validateUrlConfig (envName : string) (parts : option UrlConfig)
    (k : Result unit) : Result unit :=
  match parts with
  | None => k
  | Some u =>
      guard (negb (JS.truthy (protocol u))) (msg_urlConfig_missing envName "protocol")
      (guard (negb (JS.truthy (envPrefix u))) (msg_urlConfig_missing envName "envPrefix")
      (guard (negb (JS.truthy (subdomain u))) (msg_urlConfig_missing envName "subdomain")
      (guard (negb (JS.truthy (domain u))) (msg_urlConfig_missing envName "domain") k)))
  end.

Definition validateCredential (envName : string) (config : TestEnvironmentConfig)
    (credKey : string) : Result unit :=
  match Obj.get (credentials config) credKey with
  | None => Throw msg_type_error
  | Some cred =>
      guard (negb (JS.truthy (username cred)) || negb (JS.truthy (password cred)))
        (msg_incomplete_credentials credKey envName) (Ok tt)
  end.

(** The body of the loop over the environments.  The tests
    [!config.domainPaths] and [!config.credentials] are on objects, which
    the record type always provides, so they never fire. *)
Definition validateEnvironment (envName : string) : Result unit :=
  match Obj.get (environments testConfig) envName with
  | None => Throw msg_type_error
  | Some config =>
      guard (negb (JS.truthy (name config))) (msg_missing_field envName "name")
      (guard (negb (JS.truthy (baseUrl config))) (msg_missing_field envName "baseUrl")
      (validateUrlConfig envName (urlConfig config)
      (let pathKeys := Obj.keys (domainPaths config) in
       guard (length pathKeys =? 0) (msg_no_domain_paths envName)
      (let credentialKeys := Obj.keys (credentials config) in
       guard (length credentialKeys =? 0) (msg_no_credentials envName)
      (for_of credentialKeys (validateCredential envName config))))))
  end.

(** [logConfigSummary] resolves the active environment and logs it; for a
    value that is no entry, [Object.keys(config.domainPaths)] throws. *)
Definition logConfigSummary : M unit :=
  let* env := getEnvironmentName in
  let* config := getEnvironmentConfig (Some env)
    on_untyped v => throw TypeError.keys_undefined in
  ret tt.

(** [validateConfig] reads only the table; it leaves the state alone. *)
Definition validateConfig : Result bool :=
  let environments := getAvailableEnvironments in
  if length environments =? 0 then Throw "No environments defined in test.config.ts"
  else
    match for_of environments validateEnvironment with
    | Ok _ => Ok true
    | Throw e => Throw e
    | Untyped v => Untyped v
    end.

End ConfigReader.

(** ** The data-model invariant, in the words of the specification

    Every environment has at least one path and at least one credential set;
    every credential pair has a non-empty username and password; when the URL
    parts are present all four are non-empty; when they are absent the legacy
    base URL is non-empty. *)

Module Section3.

Definition complete_pair (c : Credentials) : bool :=
  JS.truthy (username c) && JS.truthy (password c).

Definition complete_parts (u : UrlConfig) : bool :=
  JS.truthy (protocol u) && JS.truthy (envPrefix u)
  && JS.truthy (subdomain u) && JS.truthy (domain u).

Definition environment_ok (config : TestEnvironmentConfig) : bool :=
  negb (length (domainPaths config) =? 0)
  && negb (length (credentials config) =? 0)
  && forallb (fun kv => complete_pair kv.2) (credentials config)
  && match urlConfig config with
     | Some u => complete_parts u
     | None => JS.truthy (baseUrl config)
     end.

Definition table_ok (table : TestConfig) : bool :=
  forallb (fun kv => environment_ok kv.2) (environments table).

End Section3.

(** ** Vocabulary for stating what the resolver does *)

Section Semantics.

Variable testConfig : TestConfig.
Variable penv : gmap string string.

(** The environment key a call resolves: the argument when it is given and
    non-empty, else the explicitly selected environment, else the
    [TEST_ENV] slot, else ["QA"]. *)
Definition activeName (st : State) : string :=
  match JS.effective (currentEnvironment st) with
  | Some explicit => explicit
  | None => JS.or_else (penv !! "TEST_ENV") "QA"
  end.

Definition resolvedName (envName : option string) (st : State) : string :=
  match JS.effective envName with
  | Some given => given
  | None => activeName st
  end.

(** What indexing the table with a name yields. *)
Definition tableEntry (env : string) : Result TestEnvironmentConfig :=
  match Obj.index (environments testConfig) env with
  | Some config => typed config
  | None => Throw (msg_unknown_environment testConfig env)
  end.

(** The cache only ever holds, under the key of a name, what indexing the
    table with that name finds. *)
Definition cache_ok (st : State) : Prop :=
  ∀ env config,
    cache st !! cacheKey env = Some config → Obj.index (environments testConfig) env = Some config.

(** A call that may fill the cache but leaves the selection alone. *)
Definition settled (st st' : State) : Prop :=
  cache_ok st'
  ∧ currentEnvironment st' = currentEnvironment st
  ∧ cacheEnabled st' = cacheEnabled st.

(** Closed forms of the lookups on a resolved entry. *)

Definition baseUrlOf (config : TestEnvironmentConfig) : Result string :=
match urlConfig config with
| Some parts => Ok (buildBaseUrl penv parts None)
| None =>
    if JS.truthy (baseUrl config) then Ok (baseUrl config)
    else Throw (msg_missing_base_url config)
end.

Definition pathOf (pathKey : string) (config : TestEnvironmentConfig) : Result string :=
match Obj.index (domainPaths config) pathKey with
| Some (Obj.Own path) =>
    if JS.truthy path then Ok path else Throw (msg_unknown_path pathKey config)
| Some (Obj.Inherited k) => Untyped (Member k)
| None => Throw (msg_unknown_path pathKey config)
end.

Definition credentialsOf (credentialKey : string) (config : TestEnvironmentConfig)
  : Result Credentials :=
match Obj.index (credentials config) credentialKey with
| None => Throw (msg_unknown_credentials credentialKey config)
| Some (Obj.Own creds) =>
    Ok {| username :=
            JS.or_else (penv !! (envKeyPrefix credentialKey +:+ "_USERNAME")) (username creds);
          password :=
            JS.or_else (penv !! (envKeyPrefix credentialKey +:+ "_PASSWORD")) (password creds) |}
| Some (Obj.Inherited _) =>
    pairOf (JS.effective (penv !! (envKeyPrefix credentialKey +:+ "_USERNAME")))
           (JS.effective (penv !! (envKeyPrefix credentialKey +:+ "_PASSWORD")))
end.

(** A lookup on what the resolution has yielded: [k] on an entry, [u] on a
    value that is no entry. *)
Definition and_then {A B} (r : Result A) (k : A → Result B) (u : JSValue → Result B)
  : Result B :=
match r with
| Ok a => k a
| Throw e => Throw e
| Untyped v => u v
end.

(** The lookups on what the resolution has yielded. *)
Definition baseUrlAt (r : Result TestEnvironmentConfig) : Result string :=
and_then r baseUrlOf (fun v => Throw (msg_missing_base_url_untyped v)).

Definition pathAt (pathKey : string) (r : Result TestEnvironmentConfig) : Result string :=
and_then r (pathOf pathKey) (fun _ => Throw (TypeError.read_undefined pathKey)).

Definition credentialsAt (credentialKey : string) (r : Result TestEnvironmentConfig)
  : Result Credentials :=
and_then r (credentialsOf credentialKey)
  (fun _ => Throw (TypeError.read_undefined credentialKey)).

(** The part of [getEnvironmentConfig] that follows the choice of the key. *)
Definition lookupEnvironment (env : string) : M TestEnvironmentConfig :=
let* enabled := gets cacheEnabled in
let* hit := gets (fun st => cache st !! cacheKey env) in
match (if enabled then hit else None) with
| Some cached => found cached
| None =>
    match Obj.index (environments testConfig) env with
    | None => throw (msg_unknown_environment testConfig env)
    | Some config =>
        exec (if enabled then
                modify (fun st =>
                  {| cache := <[cacheKey env := config]> (cache st);
                     cacheEnabled := cacheEnabled st;
                     currentEnvironment := currentEnvironment st |})
              else ret tt) in
        found config
    end
end.

(** What the code demands of one environment: the invariant of the data
    model and, beyond it, a non-empty display name and a non-empty legacy
    base URL even when the URL parts are present. *)
Definition accepted (config : TestEnvironmentConfig) : bool :=
JS.truthy (name config) && JS.truthy (baseUrl config) && Section3.environment_ok config.

End Semantics.

(** A table whose only environment stores the empty string under ["login"]. *)
Module EmptyPath.

Definition env : TestEnvironmentConfig :=
{| name := "Stub"; baseUrl := "http://stub";
   urlConfig := None;
   domainPaths := [("login", ""); ("home", "/home")];
   credentials := [("admin", mkCredentials "root" "secret")] |}.

Definition testConfig : TestConfig := {| environments := [("stub", env)] |}.

End EmptyPath.


(** ** Reachable resolver states *)

Inductive Call : Type :=
| SetCaching (enabled : bool)
| ClearCache
| GetEnvironmentName
| SetEnvironment (envName : string)
| GetEnvironmentConfig (envName : option string)
| GetBaseUrl (envName : option string)
| GetDomainPath (pathKey : string) (envName : option string)
| GetUrl (pathKey : string) (envName : option string)
| GetAllDomainPaths (envName : option string)
| GetCredentials (credentialKey : string) (envName : option string)
| GetAllCredentials (envName : option string)
| HasCredentials (credentialKey : string) (envName : option string)
| GetAvailableCredentialKeys (envName : option string)
| LogConfigSummary.

(** The state a public method leaves behind, whether it returns or throws.
    [hasEnvironment], [getAvailableEnvironments] and [validateConfig] have no
    access to the state and need no entry. *)
Definition after (testConfig : TestConfig) (penv : gmap string string)
  (call : Call) (st : State) : State :=
match call with
| SetCaching enabled => final (setCaching enabled st)
| ClearCache => final (clearCache st)
| GetEnvironmentName => final (getEnvironmentName penv st)
| SetEnvironment envName => final (setEnvironment testConfig envName st)
| GetEnvironmentConfig envName => final (getEnvironmentConfig testConfig penv envName st)
| GetBaseUrl envName => final (getBaseUrl testConfig penv envName st)
| GetDomainPath pathKey envName => final (getDomainPath testConfig penv pathKey envName st)
| GetUrl pathKey envName => final (getUrl testConfig penv pathKey envName st)
| GetAllDomainPaths envName => final (getAllDomainPaths testConfig penv envName st)
| GetCredentials credentialKey envName =>
    final (getCredentials testConfig penv credentialKey envName st)
| GetAllCredentials envName => final (getAllCredentials testConfig penv envName st)
| HasCredentials credentialKey envName =>
    final (hasCredentials testConfig penv credentialKey envName st)
| GetAvailableCredentialKeys envName =>
    final (getAvailableCredentialKeys testConfig penv envName st)
| LogConfigSummary => final (logConfigSummary testConfig penv st)
end.

(** States reached from the static initialisers by any sequence of public
    calls; the process environment may differ from call to call. *)
Inductive reachable (testConfig : TestConfig) : State → Prop :=
| reachable_initial : reachable testConfig initial
| reachable_call penv call st :
    reachable testConfig st → reachable testConfig (after testConfig penv call st).


(** ** Further vocabulary *)

(** Every cache entry sits under ["env_"] followed by a name and holds what
    indexing the table with that name finds. *)
Definition cache_from_table (testConfig : TestConfig) (st : State) : Prop :=
∀ key config,
  cache st !! key = Some config →
  ∃ env, key = "env_" +:+ env ∧ Obj.index (environments testConfig) env = Some config.

(** The later cache holds nothing beyond the earlier cache and what indexing
    the table finds. *)
Definition grows_from_table (testConfig : TestConfig) (st st' : State) : Prop :=
∀ key config,
  cache st' !! key = Some config →
  cache st !! key = Some config
  ∨ ∃ env, key = "env_" +:+ env ∧ Obj.index (environments testConfig) env = Some config.

(** How [getUrl] puts the outcomes of its two lookups together. *)
Definition joinOutcomes (base path : Result string) : Result string :=
match base with
| Throw e => Throw e
| Untyped v => Untyped v
| Ok b =>
    match path with
    | Throw e => Throw e
    | Untyped v => Throw (TypeError.not_a_function "path.startsWith")
    | Ok p => Ok (JS.stripTrailingSlash b +:+ JS.ensureLeadingSlash p)
    end
end.

(** The state with the same selection but nothing cached. *)
Definition uncached (enabled : bool) (st : State) : State :=
{| cache := ∅; cacheEnabled := enabled; currentEnvironment := currentEnvironment st |}.

(** What [validateConfig] checks of one environment, read off its guards. *)
Definition passes_validation (config : TestEnvironmentConfig) : Prop :=
name config ≠ ""
∧ baseUrl config ≠ ""
∧ (∀ parts, urlConfig config = Some parts →
     protocol parts ≠ "" ∧ envPrefix parts ≠ "" ∧ subdomain parts ≠ "" ∧ domain parts ≠ "")
∧ domainPaths config ≠ []
∧ credentials config ≠ []
∧ (∀ credKey cred, Obj.get (credentials config) credKey = Some cred →
     username cred ≠ "" ∧ password cred ≠ "").

(** One character of the derived override prefix: upper-cased, then
    replaced by an underscore unless it is an upper-case letter or a digit. *)
Definition prefix_char (c : ascii) : ascii :=
if JS.upper_or_digit (JS.upper_char c) then JS.upper_char c else "_"%char.

(** The same character read off the alphabet, as the documentation of the
    override slots words it: a lower-case letter gives the upper-case letter
    at its place in the alphabet, an upper-case letter or a digit gives
    itself, anything else gives an underscore. *)
Module Alphabet.

Definition lower : string := "abcdefghijklmnopqrstuvwxyz".
Definition upper : string := "ABCDEFGHIJKLMNOPQRSTUVWXYZ".
Definition digits : string := "0123456789".

Fixpoint position (c : ascii) (s : string) : option nat :=
match s with
| EmptyString => None
| String d r => if Ascii.eqb d c then Some 0 else S <$> position c r
end.

Definition slot_char (c : ascii) : ascii :=
match position c lower with
| Some i => default "_"%char (String.get i upper)
| None =>
    match position c (upper +:+ digits) with
    | Some _ => c
    | None => "_"%char
    end
end.

(** The characters an override slot name is made of. *)
Definition slot_chars : list ascii :=
String.list_ascii_of_string (upper +:+ digits +:+ "_").

End Alphabet.

(** A table with a credential key that has characters to replace. *)
Module Dotted.

Definition env : TestEnvironmentConfig :=
{| name := "Stage"; baseUrl := "http://stage/";
   urlConfig := None;
   domainPaths := [("login", "login"); ("home", "/home")];
   credentials := [("svc.user-1", mkCredentials "svc" "s3cret")] |}.

Definition testConfig : TestConfig := {| environments := [("stage", env)] |}.

End Dotted.

(** ** Callers of the resolver *)

Module Callers.

(** [v.username] and [v.password] of what [getCredentials] has returned. *)
Definition usernameOf (v : JSValue) : option string :=
match v with
| PartialCredentials u _ => u
| Member _ | Undefined => None
end.

Definition passwordOf (v : JSValue) : option string :=
match v with
| PartialCredentials _ p => p
| Member _ | Undefined => None
end.

(** [process.env.X = v]: the value is converted to a string. *)
Definition slotText (v : option string) : string := default "undefined" v.

(** [fetchAndStoreCredentials] of the global setup: it reads [TEST_ENV] and
    [AUTH_CREDENTIAL_KEY], fetches the pair and writes three slots of
    [process.env]; the environment it leaves is its result here.  The
    [catch] block logs and rethrows. *)
Definition fetchAndStoreCredentials (testConfig : TestConfig)
  (penv : gmap string string) (st : State) : Result (gmap string string) * State :=
let env := JS.or_else (penv !! "TEST_ENV") "QA" in
let credentialKey := JS.or_else (penv !! "AUTH_CREDENTIAL_KEY") "RBCClient" in
let store (u p : string) :=
  let penv1 := <["LOGIN_USERNAME" := u]> penv in
  let penv2 := <["LOGIN_PASSWORD" := p]> penv1 in
  <["CREDENTIAL_KEY" := credentialKey]> penv2 in
match getCredentials testConfig penv credentialKey (Some env) st with
| (Ok credentials, st') => (Ok (store (username credentials) (password credentials)), st')
| (Throw e, st') => (Throw e, st')
| (Untyped v, st') => (Ok (store (slotText (usernameOf v)) (slotText (passwordOf v))), st')
end.

(** The [credentials] fixture of the test fixtures. *)
Definition credentialsFixture (testConfig : TestConfig) (penv : gmap string string)
  (credentialKey : string) : M Credentials :=
let env := JS.or_else (penv !! "TEST_ENV") "QA" in
getCredentials testConfig penv credentialKey (Some env).

(** The first statement of [performSuccessfulLoginWithConfigCreds]: the
    parameter defaults to ["RBCClientUser"] and the environment is left to
    the resolver. *)
Definition configCredentials (testConfig : TestConfig) (penv : gmap string string)
  (credentialKey : option string) : M Credentials :=
getCredentials testConfig penv (default "RBCClientUser" credentialKey) None.

(** [baseURL] of [playwright.config.ts]. *)
Definition baseURL (testConfig : TestConfig) (penv : gmap string string) : M string :=
getBaseUrl testConfig penv None.

End Callers.

(** ** The data provider

    [POM-Framework/utilities/data-readers/dataProvider.ts].  The two file
    readers, [path.extname] and the printing of a number belong to libraries
    and to the runtime; they are parameters.  A row is an object of values;
    of a value only the test [v === undefined || v === null || v === ''] is
    used, which is the parameter [blank]; rows hold the primitive values the
    readers produce, which [JSON.stringify] in a log line always prints.
    Row indices are integers.  Each method awaits its steps in order, so a
    call is a state transformer. *)

Module DataProvider.

(** The readers and the methods of the provider hand out rows or throw. *)
Inductive Result (A : Type) : Type :=
| Ok (a : A)
| Throw (message : string).
Arguments Ok {A} a.
Arguments Throw {A} message.

(** [s.toLowerCase()] on ASCII. *)
Definition lower_char (c : ascii) : ascii :=
if JS.in_range "A" "Z" c then ascii_of_N (N_of_ascii c + 32) else c.

Definition toLowerCase (s : string) : string := JS.map_chars lower_char s.

Section Readers.

Variable Value : Type.
Variable blank : Value → bool.

Definition TestData : Type := Obj.t Value.

Variable extname : string → string.
Variable readCsv : string → Result (list TestData).
Variable readExcel : string → option string → Result (list TestData).
Variable showNumber : Z → string.

Record State := mkState {
  cache : gmap string (list TestData);
  cacheEnabled : bool
}.

Definition initial : State := {| cache := ∅; cacheEnabled := true |}.

Definition clearCache (st : State) : State :=
{| cache := ∅; cacheEnabled := cacheEnabled st |}.

Definition setCaching (enabled : bool) (st : State) : State :=
let st1 := {| cache := cache st; cacheEnabled := enabled |} in
if negb enabled then clearCache st1 else st1.

(** [sheetName ? `${filePath}:${sheetName}` : filePath]. *)
Definition cacheKey (filePath : string) (sheetName : option string) : string :=
match JS.effective sheetName with
| Some sheet => filePath +:+ ":" +:+ sheet
| None => filePath
end.

Definition msg_unsupported (ext : string) : string :=
"Unsupported file type: " +:+ ext +:+ ". Supported types: .csv, .xlsx, .xls".

(** The branch on the lower-cased extension. *)
Definition readByExtension (filePath : string) (sheetName : option string)
  : Result (list TestData) :=
let ext := toLowerCase (extname filePath) in
if String.eqb ext ".csv" then readCsv filePath
else if String.eqb ext ".xlsx" || String.eqb ext ".xls" then readExcel filePath sheetName
else Throw (msg_unsupported ext).

Definition getData (filePath : string) (sheetName : option string) (st : State)
  : Result (list TestData) * State :=
let key := cacheKey filePath sheetName in
match (if cacheEnabled st then cache st !! key else None) with
| Some cached => (Ok cached, st)
| None =>
    match readByExtension filePath sheetName with
    | Throw e => (Throw e, st)
    | Ok data =>
        (Ok data,
         if cacheEnabled st
         then {| cache := <[key := data]> (cache st); cacheEnabled := cacheEnabled st |}
         else st)
    end
end.

Definition getTestData (filePath : string) (sheetName : option string) (st : State)
  : Result (list TestData) * State :=
getData filePath sheetName st.

Definition msg_out_of_bounds (rowIndex : Z) (total : nat) : string :=
"Row index " +:+ showNumber rowIndex +:+ " out of bounds. Total rows: "
  +:+ showNumber (Z.of_nat total).

(** [data[rowIndex]] is [None] for [undefined]. *)
Definition getRow (filePath : string) (rowIndex : Z) (sheetName : option string)
  (st : State) : Result (option TestData) * State :=
match getData filePath sheetName st with
| (Throw e, st') => (Throw e, st')
| (Ok data, st') =>
    if (rowIndex <? 0)%Z || (Z.of_nat (length data) <=? rowIndex)%Z
    then (Throw (msg_out_of_bounds rowIndex (length data)), st')
    else (Ok (data !! Z.to_nat rowIndex), st')
end.

Definition getFilteredData (filePath : string) (filterFn : TestData → bool)
  (sheetName : option string) (st : State) : Result (list TestData) * State :=
match getData filePath sheetName st with
| (Throw e, st') => (Throw e, st')
| (Ok data, st') => (Ok (List.filter filterFn data), st')
end.

Definition getRowCount (filePath : string) (sheetName : option string) (st : State)
  : Result nat * State :=
match getData filePath sheetName st with
| (Throw e, st') => (Throw e, st')
| (Ok data, st') => (Ok (length data), st')
end.

(** [row[field] === undefined || row[field] === null || row[field] === ''];
    an inherited member is none of the three. *)
Definition fieldMissing (row : TestData) (field : string) : bool :=
match Obj.index row field with
| None => true
| Some (Obj.Own v) => blank v
| Some (Obj.Inherited _) => false
end.

Fixpoint rowHasFields (row : TestData) (requiredFields : list string) : bool :=
match requiredFields with
| [] => true
| field :: rest => if fieldMissing row field then false else rowHasFields row rest
end.

Fixpoint validateRequiredFields (data : list TestData) (requiredFields : list string)
  : bool :=
match data with
| [] => true
| row :: rest =>
    if rowHasFields row requiredFields then validateRequiredFields rest requiredFields
    else false
end.

(** The loop of [mergeData] from index [i] on; [sheetNames?.[i]] is [None]
    when the list is missing or too short. *)
Fixpoint mergeFrom (i : nat) (filePaths : list string) (sheetNames : option (list string))
  (allData : list TestData) (st : State) : Result (list TestData) * State :=
match filePaths with
| [] => (Ok allData, st)
| filePath :: rest =>
    let sheetName :=
      match sheetNames with
      | Some names => names !! i
      | None => None
      end in
    match getData filePath sheetName st with
    | (Throw e, st') => (Throw e, st')
    | (Ok data, st') => mergeFrom (S i) rest sheetNames (allData ++ data) st'
    end
end.

Definition mergeData (filePaths : list string) (sheetNames : option (list string))
  (st : State) : Result (list TestData) * State :=
mergeFrom 0 filePaths sheetNames [] st.

End Readers.

Section Requests.

Variable Value : Type.
Variable extname : string → string.

(** A later request for data: the path and sheet asked for, and the readers
    as they behave at that time. *)
Record Request := mkRequest {
  csvThen : string → Result (list (TestData Value));
  excelThen : string → option string → Result (list (TestData Value));
  pathAsked : string;
  sheetAsked : option string
}.

Definition serve (request : Request) (st : State Value)
  : Result (list (TestData Value)) * State Value :=
getData Value extname (csvThen request) (excelThen request)
  (pathAsked request) (sheetAsked request) st.

(** What may happen between two reads without emptying the cache: a request
    for data, or [setCaching(true)]. *)
Inductive Step : Type :=
| Ask (request : Request)
| KeepCaching.

Definition step (s : Step) (st : State Value) : State Value :=
match s with
| Ask request => (serve request st).2
| KeepCaching => setCaching Value true st
end.

(** The state a sequence of steps leaves, whatever each request returns. *)
Fixpoint replay (steps : list Step) (st : State Value) : State Value :=
match steps with
| [] => st
| s :: rest => replay rest (step s st)
end.

End Requests.

End DataProvider.

(** ** Facts about the string primitives *)

Module JSFacts.
Import JS.

(** stdpp keeps [+:+] from unfolding under [simpl]; these are its equations. *)
Lemma append_nil_l (b : string) : "" +:+ b = b.
Proof. reflexivity. Qed.

Lemma append_cons (x : ascii) (r b : string) :
  String x r +:+ b = String x (r +:+ b).
Proof. reflexivity. Qed.

Lemma append_assoc (a b c : string) : (a +:+ b) +:+ c = a +:+ b +:+ c.
Proof.
  induction a as [|x r IH]; [done|]. by rewrite !append_cons, IH.
Qed.

Lemma append_empty_r (a : string) : a +:+ "" = a.
Proof.
  induction a as [|x r IH]; [done|]. by rewrite append_cons, IH.
Qed.

Lemma or_else_effective (v : option string) (d : string) :
  or_else v d = default d (effective v).
Proof. by destruct v as [[|c s]|]. Qed.

Lemma effective_Some (v : option string) (s : string) :
  effective v = Some s ↔ v = Some s ∧ s ≠ "".
Proof.
  destruct v as [[|c r]|]; simpl; split; try (intros [? ?]); try intros ?;
    simplify_eq; try done.
Qed.

Lemma effective_None (v : option string) :
  effective v = None ↔ v = None ∨ v = Some "".
Proof.
  destruct v as [[|c r]|]; simpl; split; try (intros [?|?]); try intros ?;
    simplify_eq; auto.
Qed.

Lemma truthy_true (s : string) : truthy s = true ↔ s ≠ "".
Proof. destruct s; simpl; split; try done. Qed.

Lemma truthy_false (s : string) : truthy s = false ↔ s = "".
Proof. destruct s; simpl; split; try done. Qed.

(** An override slot holding the empty string reads like an absent one. *)
Lemma effective_empty_slot (m : gmap string string) (k k' : string) :
  effective (<[k := ""]> m !! k') = effective (delete k m !! k').
Proof.
  destruct (decide (k = k')) as [->|Hne].
  - by rewrite lookup_insert_eq, lookup_delete_eq.
  - by rewrite lookup_insert_ne, lookup_delete_ne.
Qed.

Lemma or_else_empty_slot (m : gmap string string) (k k' d : string) :
  or_else (<[k := ""]> m !! k') d = or_else (delete k m !! k') d.
Proof. by rewrite !or_else_effective, effective_empty_slot. Qed.

(** *** Mentioning a key in a message *)

Lemma mentions_refl (k : string) : mentions k k.
Proof. exists "", "". by rewrite append_nil_l, append_empty_r. Qed.

Lemma mentions_app_r (p m k : string) : mentions m k → mentions (p +:+ m) k.
Proof.
  intros (a & b & ->). exists (p +:+ a), b. by rewrite append_assoc.
Qed.

Lemma mentions_app_l (m s k : string) : mentions m k → mentions (m +:+ s) k.
Proof.
  intros (a & b & ->). exists a, (b +:+ s). by rewrite !append_assoc.
Qed.

Lemma join_cons (sep x y : string) (r : list string) :
  join sep (x :: y :: r) = x +:+ sep +:+ join sep (y :: r).
Proof. done. Qed.

Lemma mentions_join (sep k : string) (xs : list string) :
  k ∈ xs → mentions (join sep xs) k.
Proof.
  induction xs as [|x [|y r] IH]; intros Hin.
  - by apply elem_of_nil in Hin.
  - apply list_elem_of_singleton in Hin as ->. apply mentions_refl.
  - rewrite join_cons. apply elem_of_cons in Hin as [->|Hin].
    + apply mentions_app_l, mentions_refl.
    + by apply mentions_app_r, mentions_app_r, IH.
Qed.

(** *** Slashes *)

Lemma stripTrailingSlash_snoc (s : string) :
  stripTrailingSlash (s +:+ "/") = s.
Proof.
  induction s as [|c [|d r] IH]; [done | done |].
  rewrite append_cons. rewrite append_cons in IH.
  cbn [stripTrailingSlash]. rewrite <- append_cons. by f_equal.
Qed.

Lemma stripTrailingSlash_other (s : string) (c : ascii) :
  c ≠ "/"%char → stripTrailingSlash (s +:+ String c "") = s +:+ String c "".
Proof.
  intros Hc. apply Ascii.eqb_neq in Hc.
  induction s as [|x [|d r] IH].
  - rewrite append_nil_l. simpl. by rewrite Hc.
  - rewrite append_cons, append_nil_l. simpl. by rewrite Hc.
  - rewrite append_cons. rewrite append_cons in IH.
    cbn [stripTrailingSlash]. by f_equal.
Qed.

Lemma stripTrailingSlash_empty : stripTrailingSlash "" = "".
Proof. done. Qed.

Lemma ensureLeadingSlash_slash (p : string) :
  ensureLeadingSlash ("/" +:+ p) = "/" +:+ p.
Proof. done. Qed.

Lemma ensureLeadingSlash_starts (p : string) :
  startsWithSlash (ensureLeadingSlash p) = true.
Proof.
  unfold ensureLeadingSlash. destruct (startsWithSlash p) eqn:E; [done|].
  done.
Qed.

Lemma ensureLeadingSlash_no_slash (p : string) :
  startsWithSlash p = false → ensureLeadingSlash p = "/" +:+ p.
Proof. unfold ensureLeadingSlash. by intros ->. Qed.

End JSFacts.

(** ** Facts about objects *)

Module ObjFacts.
Import Obj.

Lemma get_Some_key {V} (o : t V) (k : string) (v : V) :
  get o k = Some v → k ∈ keys o.
Proof.
  induction o as [|[k' v'] r IH]; simpl; [done|].
  destruct (String.eqb k' k) eqn:E.
  - apply String.eqb_eq in E as ->. intros _. apply elem_of_cons. by left.
  - intros H. apply elem_of_cons. right. by apply IH.
Qed.

Lemma get_None_key {V} (o : t V) (k : string) :
  get o k = None ↔ k ∉ keys o.
Proof.
  induction o as [|[k' v'] r IH]; simpl.
  - split; [intros _; apply not_elem_of_nil | done].
  - destruct (String.eqb k' k) eqn:E.
    + apply String.eqb_eq in E as ->. split; [done|].
      intros H. destruct H. apply elem_of_cons. by left.
    + apply String.eqb_neq in E. rewrite IH. unfold keys. simpl.
      rewrite not_elem_of_cons.
      split; [intros ?; split; [by intros -> | done] | by intros [_ ?]].
Qed.

Lemma has_true {V} (k : string) (o : t V) :
  has k o = true ↔ is_Some (get o k).
Proof.
  unfold has. rewrite bool_decide_eq_true. split.
  - intros Hin. destruct (get o k) eqn:E; [by eexists|].
    by apply get_None_key in E.
  - intros [v Hv]. by eapply get_Some_key.
Qed.

Lemma has_false {V} (k : string) (o : t V) :
  has k o = false ↔ get o k = None.
Proof.
  unfold has. rewrite bool_decide_eq_false. symmetry. apply get_None_key.
Qed.

(** Every key listed by [Object.keys] indexes a value. *)
Lemma key_get {V} (o : t V) (k : string) :
  k ∈ keys o → is_Some (get o k).
Proof. intros H. apply has_true. unfold has. by apply bool_decide_eq_true. Qed.

(** An own property comes before an inherited member. *)
Lemma index_own {V} (o : t V) (k : string) (v : V) :
  get o k = Some v → index o k = Some (Own v).
Proof. unfold index. by intros ->. Qed.

Lemma index_Some_own {V} (o : t V) (k : string) (v : V) :
  index o k = Some (Own v) ↔ get o k = Some v.
Proof.
  unfold index. destruct (get o k) as [w|]; [|by destruct (Proto.inherited k)].
  split; by intros [= ->].
Qed.

Lemma index_Some_inherited {V} (o : t V) (k k' : string) :
  index o k = Some (Inherited k')
  ↔ get o k = None ∧ Proto.inherited k = true ∧ k' = k.
Proof.
  unfold index. destruct (get o k) as [w|].
  - split; [done | by intros [? _]].
  - destruct (Proto.inherited k); split; try done.
    + by intros [= <-].
    + by intros (_ & _ & ->).
    + by intros (_ & ? & _).
Qed.

Lemma index_None {V} (o : t V) (k : string) :
  index o k = None ↔ get o k = None ∧ Proto.inherited k = false.
Proof.
  unfold index. destruct (get o k) as [w|].
  - split; [done | by intros [? _]].
  - destruct (Proto.inherited k); split; try done. by intros [_ ?].
Qed.

Lemma index_not_inherited {V} (o : t V) (k : string) :
  Proto.inherited k = false → index o k = Own <$> get o k.
Proof. unfold index. intros ->. by destruct (get o k). Qed.

Lemma in_true {V} (k : string) (o : t V) :
  in_ k o = true ↔ is_Some (index o k).
Proof.
  unfold in_, index. destruct (get o k) as [w|] eqn:E.
  - assert (has k o = true) as -> by (apply has_true; by eexists).
    split; [by eexists | done].
  - apply has_false in E as ->. simpl.
    destruct (Proto.inherited k); split; try done; by eexists.
Qed.

Lemma in_false {V} (k : string) (o : t V) :
  in_ k o = false ↔ index o k = None.
Proof.
  rewrite <- not_true_iff_false, in_true, <- eq_None_not_Some. done.
Qed.

End ObjFacts.

(** ** Facts about the derived override prefix *)

Section PrefixFacts.

Lemma map_chars_compose (f g : ascii → ascii) (s : string) :
JS.map_chars g (JS.map_chars f s) = JS.map_chars (fun c => g (f c)) s.
Proof. induction s as [|c r IH]; simpl; [done | by rewrite IH]. Qed.

Lemma map_chars_ext (f g : ascii → ascii) (s : string) :
(∀ c, f c = g c) → JS.map_chars f s = JS.map_chars g s.
Proof. intros H. induction s as [|c r IH]; simpl; [done | by rewrite H, IH]. Qed.

Lemma map_chars_length (f : ascii → ascii) (s : string) :
String.length (JS.map_chars f s) = String.length s.
Proof. induction s as [|c r IH]; simpl; [done | by rewrite IH]. Qed.

Lemma envKeyPrefix_chars (credentialKey : string) :
envKeyPrefix credentialKey = JS.map_chars prefix_char credentialKey.
Proof. unfold envKeyPrefix, JS.replace_non_upper_digit, JS.toUpperCase.
  by rewrite map_chars_compose. Qed.

Lemma prefix_char_idempotent (c : ascii) : prefix_char (prefix_char c) = prefix_char c.
Proof. by destruct c as [[] [] [] [] [] [] [] []]. Qed.

Lemma prefix_char_upper (c : ascii) : prefix_char (JS.upper_char c) = prefix_char c.
Proof. by destruct c as [[] [] [] [] [] [] [] []]. Qed.

(** Character by character, the code computes what the alphabet says. *)
Lemma prefix_char_alphabet (c : ascii) : prefix_char c = Alphabet.slot_char c.
Proof. by destruct c as [[] [] [] [] [] [] [] []]. Qed.

Lemma envKeyPrefix_alphabet (credentialKey : string) :
envKeyPrefix credentialKey = JS.map_chars Alphabet.slot_char credentialKey.
Proof. rewrite envKeyPrefix_chars. apply map_chars_ext, prefix_char_alphabet. Qed.

Lemma slot_char_class (c : ascii) : Alphabet.slot_char c ∈ Alphabet.slot_chars.
Proof.
destruct c as [[] [] [] [] [] [] [] []];
  vm_compute; repeat (first [apply list_elem_of_here | apply list_elem_of_further]).
Qed.

End PrefixFacts.

(** ** Running the resolver *)

Section Resolution.

Variable testConfig : TestConfig.
Variable penv : gmap string string.

Lemma cacheKey_inj (a b : string) : cacheKey a = cacheKey b → a = b.
Proof. unfold cacheKey. apply String.app_inj. Qed.

Lemma cache_ok_initial : cache_ok testConfig initial.
Proof. intros env config H. simpl in H. by rewrite lookup_empty in H. Qed.

Lemma cache_ok_empty (enabled : bool) (cur : option string) :
  cache_ok testConfig {| cache := ∅; cacheEnabled := enabled; currentEnvironment := cur |}.
Proof. intros env config H. simpl in H. by rewrite lookup_empty in H. Qed.

Lemma settled_refl (st : State) : cache_ok testConfig st → settled testConfig st st.
Proof. by intros H. Qed.

Lemma settled_trans (st1 st2 st3 : State) :
  settled testConfig st1 st2 → settled testConfig st2 st3 → settled testConfig st1 st3.
Proof.
  intros (_ & Hc1 & He1) (Hok & Hc2 & He2).
  split; [done|]. split; congruence.
Qed.

Lemma settled_resolvedName (envName : option string) (st st' : State) :
  settled testConfig st st' → resolvedName penv envName st' = resolvedName penv envName st.
Proof.
  intros (_ & Hc & _). unfold resolvedName, activeName. by rewrite Hc.
Qed.

Lemma getEnvironmentName_run (st : State) :
  getEnvironmentName penv st = (Ok (activeName penv st), st).
Proof.
  unfold getEnvironmentName, activeName, bind, gets. simpl.
  by destruct (JS.effective (currentEnvironment st)).
Qed.

(** [getEnvironmentConfig] returns the table entry of the resolved name,
    whatever the cache holds, and leaves a consistent cache behind. *)
Lemma getEnvironmentConfig_run (envName : option string) (st : State) :
  cache_ok testConfig st →
  ∃ st', getEnvironmentConfig testConfig penv envName st
           = (tableEntry testConfig (resolvedName penv envName st), st')
         ∧ settled testConfig st st'.
Proof.
  intros Hok.
  assert (Hname :
    (match JS.effective envName with
     | Some given => ret given
     | None => getEnvironmentName penv
     end) st = (Ok (resolvedName penv envName st), st)).
  { unfold resolvedName. destruct (JS.effective envName); [done|].
    apply getEnvironmentName_run. }
  unfold getEnvironmentConfig, bind at 1. rewrite Hname.
  set (env := resolvedName penv envName st).
  unfold bind, gets, tableEntry; simpl.
  destruct (cacheEnabled st) eqn:Hen.
  - destruct (cache st !! cacheKey env) as [cached|] eqn:Hhit.
    + exists st. rewrite (Hok _ _ Hhit). by split; [|apply settled_refl].
    + destruct (Obj.index (environments testConfig) env) as [config|] eqn:Hget.
      * eexists. split; [reflexivity|].
        split; [|by split]. intros e c; simpl.
        destruct (decide (cacheKey env = cacheKey e)) as [Heq|Hne].
        -- rewrite Heq, lookup_insert_eq. intros [= <-].
           by apply cacheKey_inj in Heq as <-.
        -- rewrite lookup_insert_ne by done. apply Hok.
      * exists st. by split; [|apply settled_refl].
  - destruct (Obj.index (environments testConfig) env) as [config|] eqn:Hget.
    + exists st. by split; [|apply settled_refl].
    + exists st. by split; [|apply settled_refl].
Qed.

Lemma getBaseUrl_override (envName : option string) (st : State) (override : string) :
JS.effective (penv !! "BASE_URL") = Some override →
getBaseUrl testConfig penv envName st = (Ok override, st).
Proof. unfold getBaseUrl. by intros ->. Qed.

Lemma getBaseUrl_run (envName : option string) (st : State) :
cache_ok testConfig st →
JS.effective (penv !! "BASE_URL") = None →
∃ st', getBaseUrl testConfig penv envName st
         = (baseUrlAt penv (tableEntry testConfig (resolvedName penv envName st)), st')
       ∧ settled testConfig st st'.
Proof.
intros Hok Hno.
destruct (getEnvironmentConfig_run envName st Hok) as (st' & Hrun & Hst).
exists st'. split; [|done].
unfold getBaseUrl. rewrite Hno. unfold bind_any. rewrite Hrun.
destruct (tableEntry testConfig (resolvedName penv envName st)) as [config|e|v]; simpl;
  [|done|done].
unfold baseUrlOf. destruct (urlConfig config); [done|].
by destruct (JS.truthy (baseUrl config)).
Qed.

(** With or without the override, [getBaseUrl] keeps the state settled. *)
Lemma getBaseUrl_settled (envName : option string) (st : State) :
cache_ok testConfig st → settled testConfig st (final (getBaseUrl testConfig penv envName st)).
Proof.
intros Hok. destruct (JS.effective (penv !! "BASE_URL")) as [o|] eqn:E.
- rewrite (getBaseUrl_override _ _ _ E). by apply settled_refl.
- destruct (getBaseUrl_run envName st Hok E) as (st' & -> & Hst). done.
Qed.

Lemma getDomainPath_run (pathKey : string) (envName : option string) (st : State) :
cache_ok testConfig st →
∃ st', getDomainPath testConfig penv pathKey envName st
         = (pathAt pathKey (tableEntry testConfig (resolvedName penv envName st)), st')
       ∧ settled testConfig st st'.
Proof.
intros Hok.
destruct (getEnvironmentConfig_run envName st Hok) as (st' & Hrun & Hst).
exists st'. split; [|done].
unfold getDomainPath, bind_any. rewrite Hrun.
destruct (tableEntry testConfig (resolvedName penv envName st)) as [config|e|v]; simpl;
  [|done|done].
unfold pathOf.
destruct (Obj.index (domainPaths config) pathKey) as [[path|k]|]; [|done|done].
by destruct (JS.truthy path).
Qed.

Lemma getCredentials_run (credentialKey : string) (envName : option string) (st : State) :
cache_ok testConfig st →
∃ st', getCredentials testConfig penv credentialKey envName st
         = (credentialsAt penv credentialKey
              (tableEntry testConfig (resolvedName penv envName st)), st')
       ∧ settled testConfig st st'.
Proof.
intros Hok.
destruct (getEnvironmentConfig_run envName st Hok) as (st' & Hrun & Hst).
exists st'. split; [|done].
unfold getCredentials, bind_any. rewrite Hrun.
destruct (tableEntry testConfig (resolvedName penv envName st)) as [config|e|v]; simpl;
  [|done|done].
unfold credentialsOf.
by destruct (Obj.index (credentials config) credentialKey) as [[creds|k]|].
Qed.

(** The value of a lookup does not depend on what earlier lookups cached. *)
Lemma getDomainPath_settled_result (pathKey : string) (envName : option string)
  (st st' : State) :
cache_ok testConfig st → settled testConfig st st' →
result (getDomainPath testConfig penv pathKey envName st')
  = result (getDomainPath testConfig penv pathKey envName st).
Proof.
intros Hok Hst.
destruct (getDomainPath_run pathKey envName st Hok) as (s1 & -> & _).
destruct (getDomainPath_run pathKey envName st' (proj1 Hst)) as (s2 & -> & _).
unfold result; simpl. by rewrite (settled_resolvedName envName st st' Hst).
Qed.

Lemma getUrl_unfold (pathKey : string) (envName : option string) (st : State) :
getUrl testConfig penv pathKey envName st =
  match getBaseUrl testConfig penv envName st with
  | (Ok base, st1) =>
      match getDomainPath testConfig penv pathKey envName st1 with
      | (Ok path, st2) =>
          (Ok (JS.stripTrailingSlash base +:+ JS.ensureLeadingSlash path), st2)
      | (Throw e, st2) => (Throw e, st2)
      | (Untyped v, st2) => (Throw (TypeError.not_a_function "path.startsWith"), st2)
      end
  | (Throw e, st1) => (Throw e, st1)
  | (Untyped v, st1) => (Untyped v, st1)
  end.
Proof.
unfold getUrl, bind, bind_any, ret.
destruct (getBaseUrl testConfig penv envName st) as [[base|e|v] st1]; [|done|done].
by destruct (getDomainPath testConfig penv pathKey envName st1) as [[path|e|v] st2].
Qed.

(** [getBaseUrl] returns a string whenever it returns. *)
Lemma getBaseUrl_typed (envName : option string) (st : State) (v : JSValue) :
result (getBaseUrl testConfig penv envName st) ≠ Untyped v.
Proof.
unfold getBaseUrl. destruct (JS.effective (penv !! "BASE_URL")); [done|].
unfold bind_any.
destruct (getEnvironmentConfig testConfig penv envName st) as [[config|e|w] st1];
  [|done|done].
destruct (urlConfig config); [done|]. by destruct (JS.truthy (baseUrl config)).
Qed.

(** *** Cache controls *)

Lemma clearCache_run (st : State) :
clearCache st
  = (Ok tt, {| cache := ∅; cacheEnabled := cacheEnabled st; currentEnvironment := None |}).
Proof. done. Qed.

Lemma setCaching_false_run (st : State) :
setCaching false st
  = (Ok tt, {| cache := ∅; cacheEnabled := false; currentEnvironment := None |}).
Proof. done. Qed.

Lemma setCaching_true_run (st : State) :
setCaching true st
  = (Ok tt, {| cache := cache st; cacheEnabled := true;
               currentEnvironment := currentEnvironment st |}).
Proof. done. Qed.

Lemma setEnvironment_known (envName : string) (st : State) :
hasEnvironment testConfig envName = true →
setEnvironment testConfig envName st
  = (Ok tt, {| cache := ∅; cacheEnabled := cacheEnabled st; currentEnvironment := None |}).
Proof. unfold setEnvironment. by intros ->. Qed.

Lemma setEnvironment_unknown (envName : string) (st : State) :
hasEnvironment testConfig envName = false →
setEnvironment testConfig envName st
  = (Throw (msg_setEnvironment_unknown testConfig envName), st).
Proof. unfold setEnvironment. by intros ->. Qed.

(** The values that are handed out in place of a typed one: the resolution
    hands out nothing but inherited members, and so does the path lookup;
    [getCredentials] hands out nothing but pairs with a missing field; the
    two listings hand out nothing but [undefined]; the remaining methods
    hand out values of their declared types only. *)
Lemma untyped_values (pathKey credentialKey : string) (envName : option string)
  (st : State) (v : JSValue) :
(result (getEnvironmentConfig testConfig penv envName st) = Untyped v →
   ∃ k, v = Member k)
∧ (result (getDomainPath testConfig penv pathKey envName st) = Untyped v →
     v = Member pathKey)
∧ (result (getCredentials testConfig penv credentialKey envName st) = Untyped v →
     ∃ u p, v = PartialCredentials u p ∧ (u = None ∨ p = None))
∧ (result (getAllDomainPaths testConfig penv envName st) = Untyped v → v = Undefined)
∧ (result (getAllCredentials testConfig penv envName st) = Untyped v → v = Undefined)
∧ result (getEnvironmentName penv st) ≠ Untyped v
∧ result (getBaseUrl testConfig penv envName st) ≠ Untyped v
∧ result (getUrl testConfig penv pathKey envName st) ≠ Untyped v
∧ result (hasCredentials testConfig penv credentialKey envName st) ≠ Untyped v
∧ result (getAvailableCredentialKeys testConfig penv envName st) ≠ Untyped v.
Proof.
assert (Hconfig : result (getEnvironmentConfig testConfig penv envName st) = Untyped v →
                  ∃ k, v = Member k).
{ unfold getEnvironmentConfig, bind at 1.
  destruct (match JS.effective envName with
            | Some given => ret given
            | None => getEnvironmentName penv
            end st) as [[env|e|w] st0] eqn:Hname.
  - unfold bind, gets, found, result; simpl.
    destruct (if cacheEnabled st0 then cache st0 !! cacheKey env else None) as [[c|k]|];
      simpl; [done | intros [= <-]; by eexists |].
    destruct (Obj.index (environments testConfig) env) as [[c|k]|]; simpl; [|  |done].
    + by destruct (cacheEnabled st0).
    + destruct (cacheEnabled st0); simpl; intros [= <-]; by eexists.
  - done.
  - destruct (JS.effective envName); [done|].
    by rewrite getEnvironmentName_run in Hname. }
split; [done|].
repeat split.
- unfold getDomainPath, bind_any, result.
  destruct (getEnvironmentConfig testConfig penv envName st) as [[config|e|w] st1];
    simpl; [|done|done].
  pose proof (ObjFacts.index_Some_inherited (domainPaths config) pathKey) as Hin.
  destruct (Obj.index (domainPaths config) pathKey) as [[path|k]|]; simpl; [|  |done].
  + by destruct (JS.truthy path).
  + intros [= <-]. by destruct (proj1 (Hin k) eq_refl) as (_ & _ & ->).
- unfold getCredentials, bind_any, result.
  destruct (getEnvironmentConfig testConfig penv envName st) as [[config|e|w] st1];
    simpl; [|done|done].
  destruct (Obj.index (credentials config) credentialKey) as [[creds|k]|]; simpl;
    [done| |done].
  unfold pairOf.
  destruct (JS.effective (penv !! (envKeyPrefix credentialKey +:+ "_USERNAME"))) as [u|],
           (JS.effective (penv !! (envKeyPrefix credentialKey +:+ "_PASSWORD"))) as [p|];
    [done | | |]; intros [= <-]; do 2 eexists; (split; [done|]); auto.
- unfold getAllDomainPaths, bind_any, result.
  destruct (getEnvironmentConfig testConfig penv envName st) as [[config|e|w] st1];
    simpl; [done | done | by intros [= <-]].
- unfold getAllCredentials, bind_any, result.
  destruct (getEnvironmentConfig testConfig penv envName st) as [[config|e|w] st1];
    simpl; [done | done | by intros [= <-]].
- by rewrite getEnvironmentName_run.
- apply getBaseUrl_typed.
- rewrite getUrl_unfold.
  pose proof (getBaseUrl_typed envName st) as Htyped.
  destruct (getBaseUrl testConfig penv envName st) as [[base|e|w] st1];
    [|done|by destruct (Htyped w)].
  by destruct (getDomainPath testConfig penv pathKey envName st1) as [[path|e|w] st2].
- unfold hasCredentials, bind_any, result.
  by destruct (getEnvironmentConfig testConfig penv envName st) as [[config|e|w] st1].
- unfold getAvailableCredentialKeys, bind_any, result.
  by destruct (getEnvironmentConfig testConfig penv envName st) as [[config|e|w] st1].
Qed.

(** [envName in testConfig.environments], spelled out. *)
Lemma hasEnvironment_false (envName : string) :
hasEnvironment testConfig envName = false
↔ (envName ∉ Obj.keys (environments testConfig)) ∧ (envName ∉ Proto.names).
Proof.
unfold hasEnvironment, Obj.in_, Obj.has, Proto.inherited.
rewrite orb_false_iff, !bool_decide_eq_false. done.
Qed.

Lemma hasEnvironment_inherited (envName : string) :
envName ∈ Proto.names → hasEnvironment testConfig envName = true.
Proof.
intros Hin. unfold hasEnvironment, Obj.in_, Proto.inherited.
apply orb_true_iff. right. by apply bool_decide_eq_true.
Qed.

End Resolution.

Section Invariants.

Variable testConfig : TestConfig.

(** A method that resolves the environment and then only computes. *)
Lemma resolve_then_settled {A} (penv : gmap string string)
  (k : TestEnvironmentConfig → Result A) (u : JSValue → Result A)
  (envName : option string) (st : State) :
cache_ok testConfig st →
settled testConfig st
  (final ((let* config := getEnvironmentConfig testConfig penv envName
             on_untyped v => fun s => (u v, s) in
           fun s => (k config, s)) st)).
Proof.
intros Hok.
destruct (getEnvironmentConfig_run testConfig penv envName st Hok) as (st' & Hrun & Hst).
unfold bind_any. rewrite Hrun.
by destruct (tableEntry testConfig (resolvedName penv envName st)).
Qed.

Lemma getUrl_settled (penv : gmap string string) (pathKey : string)
  (envName : option string) (st : State) :
cache_ok testConfig st →
settled testConfig st (final (getUrl testConfig penv pathKey envName st)).
Proof.
intros Hok. rewrite getUrl_unfold.
pose proof (getBaseUrl_settled testConfig penv envName st Hok) as Hb.
destruct (getBaseUrl testConfig penv envName st) as [[base|e|v] st1]; [|done|done].
unfold final in Hb; simpl in Hb.
destruct (getDomainPath_run testConfig penv pathKey envName st1 (proj1 Hb))
  as (st2 & Hrun & Hp).
rewrite Hrun.
assert (settled testConfig st st2) by (by eapply settled_trans).
by destruct (pathAt _ _).
Qed.

(** Every public call keeps the cache consistent with the table, and none
    leaves an explicit selection behind when there was none before. *)
Lemma after_invariant (penv : gmap string string) (call : Call) (st : State) :
cache_ok testConfig st → currentEnvironment st = None →
cache_ok testConfig (after testConfig penv call st)
∧ currentEnvironment (after testConfig penv call st) = None.
Proof.
intros Hok Hnone.
assert (Hsettled : ∀ st', settled testConfig st st' →
  cache_ok testConfig st' ∧ currentEnvironment st' = None).
{ intros st' (H1 & H2 & _). split; [done | congruence]. }
destruct call as [[|]| | |envName|envName|envName|pathKey envName|pathKey envName
                  |envName|credentialKey envName|envName|credentialKey envName|envName| ];
  cbn [after].
- by rewrite setCaching_true_run.
- rewrite setCaching_false_run. split; [apply cache_ok_empty | done].
- split; [apply cache_ok_empty | done].
- by rewrite getEnvironmentName_run.
- destruct (hasEnvironment testConfig envName) eqn:E.
  + rewrite (setEnvironment_known _ _ _ E). split; [apply cache_ok_empty | done].
  + by rewrite (setEnvironment_unknown _ _ _ E).
- destruct (getEnvironmentConfig_run testConfig penv envName st Hok) as (st' & -> & Hst).
  by apply Hsettled.
- by apply Hsettled, getBaseUrl_settled.
- destruct (getDomainPath_run testConfig penv pathKey envName st Hok) as (st' & -> & Hst).
  by apply Hsettled.
- by apply Hsettled, getUrl_settled.
- apply Hsettled.
  apply (resolve_then_settled penv (fun c => Ok (domainPaths c))
           (fun _ => Untyped Undefined) envName st Hok).
- destruct (getCredentials_run testConfig penv credentialKey envName st Hok)
    as (st' & -> & Hst).
  by apply Hsettled.
- apply Hsettled.
  apply (resolve_then_settled penv (fun c => Ok (credentials c))
           (fun _ => Untyped Undefined) envName st Hok).
- apply Hsettled.
  apply (resolve_then_settled penv
           (fun c => Ok (Obj.in_ credentialKey (credentials c)))
           (fun _ => Throw (TypeError.in_undefined credentialKey)) envName st Hok).
- apply Hsettled.
  apply (resolve_then_settled penv (fun c => Ok (Obj.keys (credentials c)))
           (fun _ => Throw TypeError.keys_undefined) envName st Hok).
- apply Hsettled. unfold logConfigSummary, bind at 1.
  rewrite getEnvironmentName_run.
  apply (resolve_then_settled penv (fun _ => Ok tt)
           (fun _ => Throw TypeError.keys_undefined) (Some (activeName penv st)) st Hok).
Qed.

Lemma reachable_invariant (st : State) :
reachable testConfig st → cache_ok testConfig st ∧ currentEnvironment st = None.
Proof.
induction 1 as [|penv call st Hreach [Hok Hnone]].
- split; [apply cache_ok_initial | done].
- by apply after_invariant.
Qed.

Lemma reachable_cache_ok (st : State) :
reachable testConfig st → cache_ok testConfig st.
Proof. intros H. by apply reachable_invariant. Qed.

End Invariants.

(** ** Repeating a resolution *)

Section Repeat.

Variable testConfig : TestConfig.
Variable penv : gmap string string.

Lemma getEnvironmentConfig_resolved (envName : option string) (st : State) :
getEnvironmentConfig testConfig penv envName st
  = lookupEnvironment testConfig (resolvedName penv envName st) st.
Proof.
unfold getEnvironmentConfig, lookupEnvironment, resolvedName.
unfold bind at 1.
destruct (JS.effective envName) as [given|]; [done|].
by rewrite getEnvironmentName_run.
Qed.

Lemma lookupEnvironment_selection (env : string) (st : State) :
currentEnvironment (final (lookupEnvironment testConfig env st)) = currentEnvironment st.
Proof.
unfold lookupEnvironment, bind, gets, final; simpl.
destruct (cacheEnabled st); [destruct (cache st !! cacheKey env)|];
  destruct (Obj.index (environments testConfig) env); done.
Qed.

(** A second resolution of the same key, right after the first, returns what
    the first returned and changes nothing more. *)
Lemma lookupEnvironment_again (env : string) (st : State) :
lookupEnvironment testConfig env (final (lookupEnvironment testConfig env st))
  = (result (lookupEnvironment testConfig env st), final (lookupEnvironment testConfig env st)).
Proof.
unfold lookupEnvironment, bind, gets, final, result; simpl.
destruct (cacheEnabled st) eqn:Hen.
- destruct (cache st !! cacheKey env) as [cached|] eqn:Hhit; simpl.
  + by rewrite Hen, Hhit.
  + destruct (Obj.index (environments testConfig) env) as [config|] eqn:Hget; simpl.
    * by rewrite Hen, lookup_insert_eq.
    * by rewrite Hen, Hhit.
- destruct (Obj.index (environments testConfig) env) as [config|] eqn:Hget; simpl;
    by rewrite Hen.
Qed.

Lemma getEnvironmentConfig_again (envName : option string) (st : State) :
getEnvironmentConfig testConfig penv envName
    (final (getEnvironmentConfig testConfig penv envName st))
  = (result (getEnvironmentConfig testConfig penv envName st),
     final (getEnvironmentConfig testConfig penv envName st)).
Proof.
rewrite !getEnvironmentConfig_resolved.
set (env := resolvedName penv envName st).
assert (resolvedName penv envName (final (lookupEnvironment testConfig env st)) = env) as ->.
{ unfold env, resolvedName, activeName.
  by rewrite lookupEnvironment_selection. }
apply lookupEnvironment_again.
Qed.

(** [getDomainPath] after [getBaseUrl] sees what it would have seen before. *)
Lemma getDomainPath_after_getBaseUrl (pathKey : string) (envName : option string)
  (st : State) :
result (getDomainPath testConfig penv pathKey envName
          (final (getBaseUrl testConfig penv envName st)))
  = result (getDomainPath testConfig penv pathKey envName st).
Proof.
unfold getBaseUrl.
destruct (JS.effective (penv !! "BASE_URL")) as [override|]; [done|].
pose proof (getEnvironmentConfig_again envName st) as Hagain.
unfold getDomainPath, bind_any.
destruct (getEnvironmentConfig testConfig penv envName st) as [[config|e|v] st1] eqn:Hrun;
  unfold final, result in Hagain; simpl in Hagain.
- assert (final (match urlConfig config with
                 | Some parts => ret (buildBaseUrl penv parts None)
                 | None => if JS.truthy (baseUrl config) then ret (baseUrl config)
                           else throw (msg_missing_base_url config)
                 end st1) = st1) as ->.
  { destruct (urlConfig config); [done|]. by destruct (JS.truthy (baseUrl config)). }
  by rewrite Hagain.
- unfold final; simpl. by rewrite Hagain.
- unfold final; simpl. by rewrite Hagain.
Qed.

End Repeat.

(** ** Composition of a full URL *)

(** The value of [getUrl] from the values of its two lookups, both taken
    from the starting state. *)
Lemma getUrl_result (testConfig : TestConfig) (penv : gmap string string)
  (pathKey : string) (envName : option string) (st : State) (base path : string) :
result (getBaseUrl testConfig penv envName st) = Ok base →
result (getDomainPath testConfig penv pathKey envName st) = Ok path →
result (getUrl testConfig penv pathKey envName st)
  = Ok (JS.stripTrailingSlash base +:+ JS.ensureLeadingSlash path).
Proof.
intros Hbase Hpath. rewrite getUrl_unfold.
pose proof (getDomainPath_after_getBaseUrl testConfig penv pathKey envName st) as Hsame.
destruct (getBaseUrl testConfig penv envName st) as [[b|e|v] st1];
  unfold result in Hbase; simpl in Hbase; [|done|done].
injection Hbase as ->. unfold final in Hsame; simpl in Hsame.
rewrite Hpath in Hsame.
destruct (getDomainPath testConfig penv pathKey envName st1) as [[p|e|v] st2];
  unfold result in Hsame; simpl in Hsame; [|done|done].
by injection Hsame as ->.
Qed.

(** When [getBaseUrl] returns and [getDomainPath] returns a string, [getUrl]
    returns the base URL with one trailing slash removed (if it has one)
    followed by the path, which gets a leading slash unless it already
    starts with one. *)
Lemma getUrl_joins_strings (testConfig : TestConfig) (penv : gmap string string)
  (pathKey : string) (envName : option string) (st : State) (base path : string) :
result (getBaseUrl testConfig penv envName st) = Ok base →
result (getDomainPath testConfig penv pathKey envName st) = Ok path →
(∀ b, base = b +:+ "/" →
   (∀ p, path = "/" +:+ p →
      result (getUrl testConfig penv pathKey envName st) = Ok (b +:+ "/" +:+ p))
   ∧ (∀ c p, path = String c p → c ≠ "/"%char →
        result (getUrl testConfig penv pathKey envName st) = Ok (b +:+ "/" +:+ path)))
∧ (∀ b d, base = b +:+ String d "" → d ≠ "/"%char →
     (∀ p, path = "/" +:+ p →
        result (getUrl testConfig penv pathKey envName st) = Ok (base +:+ path))
     ∧ (∀ c p, path = String c p → c ≠ "/"%char →
          result (getUrl testConfig penv pathKey envName st) = Ok (base +:+ "/" +:+ path))).
Proof.
intros Hbase Hpath. rewrite (getUrl_result _ _ _ _ _ _ _ Hbase Hpath).
assert (Hlead : ∀ c p, path = String c p → c ≠ "/"%char →
          JS.ensureLeadingSlash path = "/" +:+ path).
{ intros c p -> Hc. apply JSFacts.ensureLeadingSlash_no_slash. simpl.
  by apply Ascii.eqb_neq. }
split.
- intros b ->. rewrite JSFacts.stripTrailingSlash_snoc. split.
  + by intros p ->.
  + intros c p Hp Hc. by rewrite (Hlead c p Hp Hc).
- intros b d -> Hd. rewrite (JSFacts.stripTrailingSlash_other b d Hd). split.
  + by intros p ->.
  + intros c p Hp Hc. by rewrite (Hlead c p Hp Hc).
Qed.

(** C6, evaluated at the failing input.  On the shipped table, for the
    environment ["QA"] and the path key ["constructor"], which is no path key
    of that environment, [getBaseUrl] returns the base URL and
    [getDomainPath] returns too: it hands out the member [constructor] that
    the paths object inherits, not a string.  [getUrl] then does not return
    the base URL joined with a path: it throws the [TypeError] of calling
    [startsWith] on that member.  For the path key ["login"] it returns the
    joined URL. *)
Theorem getUrl_inherited_path_key :
Obj.get (domainPaths Shipped.QA) "constructor" = None
∧ result (getBaseUrl Shipped.testConfig ∅ (Some "QA") initial)
  = Ok "https://qa2repohighway.devservices.dh.com"
∧ result (getDomainPath Shipped.testConfig ∅ "constructor" (Some "QA") initial)
  = Untyped (Member "constructor")
∧ result (getUrl Shipped.testConfig ∅ "constructor" (Some "QA") initial)
  = Throw "path.startsWith is not a function"
∧ result (getUrl Shipped.testConfig ∅ "login" (Some "QA") initial)
  = Ok "https://qa2repohighway.devservices.dh.com/go.aspx".
Proof. repeat split; by vm_compute. Qed.



(** ** Override slots holding the empty string *)

Section EmptySlot.

Variable testConfig : TestConfig.
Variable penv : gmap string string.
Variable slot : string.

Local Abbreviation set_empty := (<[slot := ""]> penv).
Local Abbreviation unset := (delete slot penv).

Lemma getEnvironmentName_empty_slot :
getEnvironmentName set_empty = getEnvironmentName unset.
Proof. unfold getEnvironmentName. by rewrite JSFacts.or_else_empty_slot. Qed.

Lemma getEnvironmentConfig_empty_slot (envName : option string) :
getEnvironmentConfig testConfig set_empty envName
  = getEnvironmentConfig testConfig unset envName.
Proof. unfold getEnvironmentConfig. by rewrite getEnvironmentName_empty_slot. Qed.

Lemma buildBaseUrl_empty_slot (parts : UrlConfig) (envPrefixOverride : option string) :
buildBaseUrl set_empty parts envPrefixOverride = buildBaseUrl unset parts envPrefixOverride.
Proof. unfold buildBaseUrl. by rewrite !JSFacts.or_else_empty_slot. Qed.

Lemma getBaseUrl_empty_slot (envName : option string) (st : State) :
getBaseUrl testConfig set_empty envName st = getBaseUrl testConfig unset envName st.
Proof.
unfold getBaseUrl.
rewrite JSFacts.effective_empty_slot, getEnvironmentConfig_empty_slot.
destruct (JS.effective (unset !! "BASE_URL")); [done|].
unfold bind_any.
destruct (getEnvironmentConfig testConfig unset envName st) as [[config|e|v] st1];
  [|done|done].
destruct (urlConfig config) as [parts|]; [|done].
by rewrite buildBaseUrl_empty_slot.
Qed.

Lemma getDomainPath_empty_slot (pathKey : string) (envName : option string) :
getDomainPath testConfig set_empty pathKey envName
  = getDomainPath testConfig unset pathKey envName.
Proof. unfold getDomainPath. by rewrite getEnvironmentConfig_empty_slot. Qed.

Lemma getCredentials_empty_slot (credentialKey : string) (envName : option string)
  (st : State) :
getCredentials testConfig set_empty credentialKey envName st
  = getCredentials testConfig unset credentialKey envName st.
Proof.
unfold getCredentials. rewrite getEnvironmentConfig_empty_slot.
unfold bind_any.
destruct (getEnvironmentConfig testConfig unset envName st) as [[config|e|v] st1];
  [|done|done].
destruct (Obj.index (credentials config) credentialKey) as [[creds|k]|]; [| |done].
- by rewrite !JSFacts.or_else_empty_slot.
- by rewrite !JSFacts.effective_empty_slot.
Qed.

Lemma getUrl_empty_slot (pathKey : string) (envName : option string) (st : State) :
getUrl testConfig set_empty pathKey envName st = getUrl testConfig unset pathKey envName st.
Proof.
rewrite !getUrl_unfold, getBaseUrl_empty_slot.
destruct (getBaseUrl testConfig unset envName st) as [[base|e|v] st1]; [|done|done].
by rewrite getDomainPath_empty_slot.
Qed.

End EmptySlot.

(** C10. For every override slot, each operation that consults the process
    environment behaves the same, in result and in final state, when the
    slot holds the empty string as when the slot is absent: [getBaseUrl]
    (slot [BASE_URL]), [buildBaseUrl] (slots [ENV_PREFIX] and [SUBDOMAIN])
    and [getCredentials] (the derived username and password slots). *)
Theorem empty_override_reads_as_absent (testConfig : TestConfig)
  (penv : gmap string string) (slot : string) :
(∀ envName st,
   getBaseUrl testConfig (<[slot := ""]> penv) envName st
     = getBaseUrl testConfig (delete slot penv) envName st)
∧ (∀ parts envPrefixOverride,
     buildBaseUrl (<[slot := ""]> penv) parts envPrefixOverride
       = buildBaseUrl (delete slot penv) parts envPrefixOverride)
∧ (∀ credentialKey envName st,
     getCredentials testConfig (<[slot := ""]> penv) credentialKey envName st
       = getCredentials testConfig (delete slot penv) credentialKey envName st).
Proof.
split; [|split].
- intros envName st. apply getBaseUrl_empty_slot.
- intros parts o. apply buildBaseUrl_empty_slot.
- intros credentialKey envName st. apply getCredentials_empty_slot.
Qed.

(** The slots named by the claim, read on the shipped table: an empty
    [BASE_URL], [ENV_PREFIX], [SUBDOMAIN] or [RBCCLIENT_USERNAME] changes
    nothing. *)
Example empty_override_on_shipped_table :
result (getBaseUrl Shipped.testConfig {["BASE_URL" := ""]} (Some "QA") initial)
  = result (getBaseUrl Shipped.testConfig ∅ (Some "QA") initial)
∧ buildBaseUrl {["ENV_PREFIX" := ""; "SUBDOMAIN" := ""]} (Shipped.repohighway "qa2" "dh.com") None
  = buildBaseUrl ∅ (Shipped.repohighway "qa2" "dh.com") None
∧ result (getCredentials Shipped.testConfig {["RBCCLIENT_USERNAME" := ""]}
            "RBCClient" (Some "QA") initial)
  = result (getCredentials Shipped.testConfig ∅ "RBCClient" (Some "QA") initial).
Proof. by vm_compute. Qed.

(** ** Credentials and their per-field overrides *)

Lemma envKeyPrefix_RBCClient : envKeyPrefix "RBCClient" = "RBCCLIENT".
Proof. reflexivity. Qed.




(** The same on the shipped key: only the username slot is set. *)
Example getCredentials_RBCClient_username_override :
result (getCredentials Shipped.testConfig {["RBCCLIENT_USERNAME" := "svc-rbc"]}
          "RBCClient" (Some "QA") initial)
  = Ok {| username := "svc-rbc"; password := "Assetuse@1" |}.
Proof. by vm_compute. Qed.

(** ** Precedence of the base URL *)

(** C2, as stated, fails when [BASE_URL] is set to the empty string: the slot
    is set, yet the URL built from the URL parts is returned instead of the
    slot's value. *)
Lemma getBaseUrl_empty_override :
({["BASE_URL" := ""]} : gmap string string) !! "BASE_URL" = Some ""
∧ result (getBaseUrl Shipped.testConfig {["BASE_URL" := ""]} (Some "QA") initial)
    = Ok "https://qa2repohighway.devservices.dh.com"
∧ result (getBaseUrl Shipped.testConfig {["BASE_URL" := ""]} (Some "QA") initial)
    ≠ Ok "".
Proof. split; [by vm_compute|]. split; by vm_compute. Qed.

(** C2 (amended). For a call that resolves to an entry of the table,
    [getBaseUrl] follows this precedence, first match winning: (1) when
    [BASE_URL] is set to a non-empty string, that string verbatim; otherwise
    ([BASE_URL] unset or empty) (2) when the entry has URL parts, the URL
    built from them; (3) else when the legacy base URL is non-empty, that
    value; (4) else a failure naming the environment. *)
Theorem getBaseUrl_precedence (testConfig : TestConfig) (penv : gmap string string)
  (envName : option string) (st : State) (config : TestEnvironmentConfig) :
reachable testConfig st →
Obj.get (environments testConfig) (resolvedName penv envName st) = Some config →
(∀ v, penv !! "BASE_URL" = Some v → v ≠ "" →
   result (getBaseUrl testConfig penv envName st) = Ok v)
∧ (penv !! "BASE_URL" = None ∨ penv !! "BASE_URL" = Some "" →
   (∀ parts, urlConfig config = Some parts →
      result (getBaseUrl testConfig penv envName st) = Ok (buildBaseUrl penv parts None))
   ∧ (urlConfig config = None → baseUrl config ≠ "" →
      result (getBaseUrl testConfig penv envName st) = Ok (baseUrl config))
   ∧ (urlConfig config = None → baseUrl config = "" →
      result (getBaseUrl testConfig penv envName st)
        = Throw ("No baseUrl or urlConfig found for environment: " +:+ name config))).
Proof.
intros Hreach Henv. apply reachable_cache_ok in Hreach as Hok. split.
- intros v Hv Hne.
  assert (JS.effective (penv !! "BASE_URL") = Some v) as Heff
    by (by apply JSFacts.effective_Some).
  by rewrite (getBaseUrl_override testConfig penv envName st v Heff).
- intros Hno. apply JSFacts.effective_None in Hno.
  destruct (getBaseUrl_run testConfig penv envName st Hok Hno) as (st' & -> & _).
  unfold tableEntry. rewrite (ObjFacts.index_own _ _ _ Henv).
  unfold result, baseUrlAt, baseUrlOf; simpl.
  split; [|split].
  + by intros parts ->.
  + intros -> Hne. by apply JSFacts.truthy_true in Hne as ->.
  + intros -> He. by apply JSFacts.truthy_false in He as ->.
Qed.

Lemma getBaseUrl_precedence_witness :
result (getBaseUrl Shipped.testConfig {["BASE_URL" := "https://override.example"]}
          (Some "QA") initial) = Ok "https://override.example".
Proof.
apply (getBaseUrl_precedence Shipped.testConfig
         {["BASE_URL" := "https://override.example"]} (Some "QA") initial Shipped.QA
         (reachable_initial _) eq_refl);
  [by vm_compute | done].
Defined.

(** The legacy branch and the failure branch on concrete entries. *)
Example getBaseUrl_local :
result (getBaseUrl Shipped.testConfig ∅ (Some "local") initial) = Ok "http://localhost:3000".
Proof. by vm_compute. Qed.

Example getBaseUrl_missing :
result (getBaseUrl
          {| environments := [("bare", {| name := "Bare"; baseUrl := ""; urlConfig := None;
                                          domainPaths := []; credentials := [] |})] |}
          ∅ (Some "bare") initial)
  = Throw "No baseUrl or urlConfig found for environment: Bare".
Proof. by vm_compute. Qed.

(** ** Unknown environments *)

Lemma msg_unknown_environment_mentions (testConfig : TestConfig) (env key : string) :
key ∈ getAvailableEnvironments testConfig →
JS.mentions (msg_unknown_environment testConfig env) key.
Proof.
intros Hin. unfold msg_unknown_environment.
do 3 apply JSFacts.mentions_app_r. by apply JSFacts.mentions_join.
Qed.

(** C7, as stated, fails on the shipped table: with [BASE_URL] set,
    [getBaseUrl] returns the override for a name that is not in the table;
    the empty name, which is not in the table either, makes
    [getEnvironmentConfig] fall back to the active environment; and for the
    name ["constructor"], no key of the table, [getEnvironmentConfig]
    returns the member of that name which the table inherits. *)
Lemma unknown_name_lookups_that_return :
Obj.has "nope" (environments Shipped.testConfig) = false
∧ result (getBaseUrl Shipped.testConfig {["BASE_URL" := "http://elsewhere"]}
            (Some "nope") initial) = Ok "http://elsewhere"
∧ Obj.has "" (environments Shipped.testConfig) = false
∧ result (getEnvironmentConfig Shipped.testConfig ∅ (Some "") initial) = Ok Shipped.QA
∧ Obj.has "constructor" (environments Shipped.testConfig) = false
∧ result (getEnvironmentConfig Shipped.testConfig ∅ (Some "constructor") initial)
  = Untyped (Member "constructor").
Proof. repeat split; by vm_compute. Qed.

(** C7 (amended). For every non-empty name that the table does not have,
    neither as a key nor as the name of a member it inherits from
    [Object.prototype] (the test [name in environments] is false),
    [getEnvironmentConfig], [getDomainPath] and [getCredentials] called with
    that name fail with the unknown-environment error, and so does
    [getBaseUrl] whenever [BASE_URL] is unset or empty; none of them returns
    a value. *)
Theorem unknown_environment_fails (testConfig : TestConfig) (penv : gmap string string)
  (envName pathKey credentialKey : string) (st : State) :
reachable testConfig st →
envName ≠ "" →
envName ∉ Obj.keys (environments testConfig) →
envName ∉ Proto.names →
let message :=
  "Environment " +:+ JS.quoted envName +:+ " not found in test.config.ts. Available: "
    +:+ JS.join ", " (Obj.keys (environments testConfig)) in
hasEnvironment testConfig envName = false
∧ result (getEnvironmentConfig testConfig penv (Some envName) st) = Throw message
∧ result (getDomainPath testConfig penv pathKey (Some envName) st) = Throw message
∧ result (getCredentials testConfig penv credentialKey (Some envName) st) = Throw message
∧ (penv !! "BASE_URL" = None ∨ penv !! "BASE_URL" = Some "" →
   result (getBaseUrl testConfig penv (Some envName) st) = Throw message).
Proof.
intros Hreach Hne Hnot Hproto message. apply reachable_cache_ok in Hreach as Hok.
assert (Hindex : Obj.index (environments testConfig) envName = None).
{ apply ObjFacts.index_None. split; [by apply ObjFacts.get_None_key|].
  unfold Proto.inherited. by apply bool_decide_eq_false. }
assert (Hname : resolvedName penv (Some envName) st = envName).
{ unfold resolvedName. by destruct envName. }
assert (Hentry : tableEntry testConfig (resolvedName penv (Some envName) st)
                 = Throw message).
{ rewrite Hname. unfold tableEntry. by rewrite Hindex. }
split; [by apply ObjFacts.in_false|].
split; [|split; [|split]].
- destruct (getEnvironmentConfig_run testConfig penv (Some envName) st Hok)
    as (st' & -> & _). by rewrite Hentry.
- destruct (getDomainPath_run testConfig penv pathKey (Some envName) st Hok)
    as (st' & -> & _). by rewrite Hentry.
- destruct (getCredentials_run testConfig penv credentialKey (Some envName) st Hok)
    as (st' & -> & _). by rewrite Hentry.
- intros Hno. apply JSFacts.effective_None in Hno.
  destruct (getBaseUrl_run testConfig penv (Some envName) st Hok Hno)
    as (st' & -> & _). by rewrite Hentry.
Qed.

Lemma unknown_environment_fails_witness :
result (getEnvironmentConfig Shipped.testConfig ∅ (Some "staging") initial)
  = Throw ("Environment " +:+ JS.quoted "staging"
           +:+ " not found in test.config.ts. Available: dev, QA, prod, local").
Proof.
destruct (unknown_environment_fails Shipped.testConfig ∅ "staging" "login" "admin" initial
            (reachable_initial _)) as (_ & Hconfig & _).
- done.
- by apply (bool_decide_unpack _); vm_compute.
- by apply (bool_decide_unpack _); vm_compute.
- exact Hconfig.
Defined.

(** ** Unknown path and credential keys *)

Lemma msg_unknown_path_mentions (pathKey key : string) (config : TestEnvironmentConfig) :
key ∈ Obj.keys (domainPaths config) →
JS.mentions (msg_unknown_path pathKey config) key.
Proof.
intros Hin. unfold msg_unknown_path.
do 5 apply JSFacts.mentions_app_r. by apply JSFacts.mentions_join.
Qed.

Lemma msg_unknown_credentials_mentions (credentialKey key : string)
  (config : TestEnvironmentConfig) :
key ∈ Obj.keys (credentials config) →
JS.mentions (msg_unknown_credentials credentialKey config) key.
Proof.
intros Hin. unfold msg_unknown_credentials.
do 5 apply JSFacts.mentions_app_r. by apply JSFacts.mentions_join.
Qed.

(** C8, as stated, fails for a path key that is present with the empty
    string as its value: [getDomainPath] fails although the key is not
    absent.  It also fails for the absent credential key ["constructor"]:
    [getCredentials] does not fail, it returns a pair without username and
    password. *)
Lemma getDomainPath_present_but_empty :
Obj.get (domainPaths EmptyPath.env) "login" = Some ""
∧ Obj.has "login" (domainPaths EmptyPath.env) = true
∧ result (getDomainPath EmptyPath.testConfig ∅ "login" (Some "stub") initial)
  = Throw ("Domain path " +:+ JS.quoted "login" +:+ " not found for environment "
           +:+ JS.quoted "Stub" +:+ ". Available paths: login, home")
∧ Obj.has "constructor" (credentials EmptyPath.env) = false
∧ result (getCredentials EmptyPath.testConfig ∅ "constructor" (Some "stub") initial)
  = Untyped (PartialCredentials None None).
Proof. repeat split; by vm_compute. Qed.

(** C8 (amended). For an environment of the table that the call resolves
    to: [getDomainPath] returns the stored path when the key is present with
    a non-empty value; it fails, always with the unknown-path error that
    lists the environment's path keys, only when the key is absent or its
    stored value is the empty string, and it does fail when the stored value
    is empty and when the key is absent and is not the name of a member
    inherited from [Object.prototype]; [getCredentials] fails, always with
    the unknown-credential error that lists the credential keys, only when
    the credential key is absent, and it does fail when the key is absent
    and is not such a name. *)
Theorem path_and_credential_lookup (testConfig : TestConfig) (penv : gmap string string)
  (pathKey credentialKey : string) (envName : option string) (st : State)
  (config : TestEnvironmentConfig) :
reachable testConfig st →
Obj.get (environments testConfig) (resolvedName penv envName st) = Some config →
let unknownPath :=
  "Domain path " +:+ JS.quoted pathKey +:+ " not found for environment "
    +:+ JS.quoted (name config) +:+ ". Available paths: "
    +:+ JS.join ", " (Obj.keys (domainPaths config)) in
let unknownCredentials :=
  "Credentials " +:+ JS.quoted credentialKey +:+ " not found for environment "
    +:+ JS.quoted (name config) +:+ ". Available: "
    +:+ JS.join ", " (Obj.keys (credentials config)) in
let path := result (getDomainPath testConfig penv pathKey envName st) in
let creds := result (getCredentials testConfig penv credentialKey envName st) in
(∀ stored, Obj.get (domainPaths config) pathKey = Some stored → stored ≠ "" →
   path = Ok stored)
∧ (∀ e, path = Throw e →
     e = unknownPath
     ∧ (pathKey ∉ Obj.keys (domainPaths config)
        ∨ Obj.get (domainPaths config) pathKey = Some ""))
∧ (Obj.get (domainPaths config) pathKey = Some "" → path = Throw unknownPath)
∧ (pathKey ∉ Obj.keys (domainPaths config) → pathKey ∉ Proto.names →
   path = Throw unknownPath)
∧ (∀ key, key ∈ Obj.keys (domainPaths config) → JS.mentions unknownPath key)
∧ (∀ e, creds = Throw e →
     e = unknownCredentials ∧ credentialKey ∉ Obj.keys (credentials config))
∧ (credentialKey ∉ Obj.keys (credentials config) → credentialKey ∉ Proto.names →
   creds = Throw unknownCredentials)
∧ (∀ key, key ∈ Obj.keys (credentials config) → JS.mentions unknownCredentials key).
Proof.
intros Hreach Henv unknownPath unknownCredentials path creds.
apply reachable_cache_ok in Hreach as Hok.
assert (Hpath : path = pathOf pathKey config).
{ unfold path.
  destruct (getDomainPath_run testConfig penv pathKey envName st Hok) as (st' & -> & _).
  unfold tableEntry. by rewrite (ObjFacts.index_own _ _ _ Henv). }
assert (Hcreds : creds = credentialsOf penv credentialKey config).
{ unfold creds.
  destruct (getCredentials_run testConfig penv credentialKey envName st Hok)
    as (st' & -> & _).
  unfold tableEntry. by rewrite (ObjFacts.index_own _ _ _ Henv). }
clearbody path creds. subst path creds.
unfold pathOf, credentialsOf, Obj.index.
fold unknownPath unknownCredentials.
change (msg_unknown_path pathKey config) with unknownPath.
change (msg_unknown_credentials credentialKey config) with unknownCredentials.
assert (Hnames : ∀ k, k ∉ Proto.names → Proto.inherited k = false).
{ intros k Hk. unfold Proto.inherited. by apply bool_decide_eq_false. }
split; [|split; [|split; [|split; [|split; [|split; [|split]]]]]].
- intros stored -> Hne. by destruct stored.
- intros e.
  destruct (Obj.get (domainPaths config) pathKey) as [[|c r]|] eqn:Hget; simpl.
  + intros [= <-]. auto.
  + done.
  + apply ObjFacts.get_None_key in Hget.
    destruct (Proto.inherited pathKey); [done|]. intros [= <-]. auto.
- by intros ->.
- intros Hget Hk. apply ObjFacts.get_None_key in Hget. by rewrite Hget, (Hnames _ Hk).
- intros key. apply msg_unknown_path_mentions.
- intros e.
  destruct (Obj.get (credentials config) credentialKey) as [pair|] eqn:Hget; [done|].
  apply ObjFacts.get_None_key in Hget.
  destruct (Proto.inherited credentialKey).
  + unfold pairOf. by destruct (JS.effective _), (JS.effective _).
  + by intros [= <-].
- intros Hget Hk. apply ObjFacts.get_None_key in Hget. by rewrite Hget, (Hnames _ Hk).
- intros key. apply msg_unknown_credentials_mentions.
Qed.

Lemma path_and_credential_lookup_witness :
result (getDomainPath Shipped.testConfig ∅ "login" (Some "QA") initial) = Ok "/go.aspx".
Proof.
destruct (path_and_credential_lookup Shipped.testConfig ∅ "login" "RBCClient" (Some "QA")
            initial Shipped.QA (reachable_initial _) eq_refl) as [Hpresent _].
apply (Hpresent "/go.aspx"); [by vm_compute | done].
Defined.

(** ** Selecting the active environment *)

(** A name for which [hasEnvironment] is false is refused with a message
    that lists every key of the table, and the state is left as it was. *)
Lemma setEnvironment_unknown_lists_keys (testConfig : TestConfig) (envName : string)
  (st : State) :
hasEnvironment testConfig envName = false →
setEnvironment testConfig envName st
  = (Throw ("Environment " +:+ JS.quoted envName +:+ " not found. Available environments: "
            +:+ JS.join ", " (Obj.keys (environments testConfig))), st)
∧ ∀ key, key ∈ Obj.keys (environments testConfig) →
         JS.mentions (msg_setEnvironment_unknown testConfig envName) key.
Proof.
intros Hnot. split; [by apply setEnvironment_unknown|].
intros key Hin. unfold msg_setEnvironment_unknown.
do 3 apply JSFacts.mentions_app_r. by apply JSFacts.mentions_join.
Qed.

(** A name that passes [hasEnvironment] empties the cache; the selection it
    has just written is reset by the [clearCache] that follows the
    assignment. *)
Lemma setEnvironment_known_state (testConfig : TestConfig) (envName : string) (st : State) :
hasEnvironment testConfig envName = true →
result (setEnvironment testConfig envName st) = Ok tt
∧ cache (final (setEnvironment testConfig envName st)) = ∅
∧ cacheEnabled (final (setEnvironment testConfig envName st)) = cacheEnabled st
∧ currentEnvironment (final (setEnvironment testConfig envName st)) = None.
Proof. intros Hknown. by rewrite (setEnvironment_known _ _ _ Hknown). Qed.

(** No sequence of public calls ever leaves an explicit selection: the
    active name is always the [TEST_ENV] slot or ["QA"]. *)
Lemma reachable_activeName (testConfig : TestConfig) (penv : gmap string string)
  (st : State) :
reachable testConfig st →
result (getEnvironmentName penv st) = Ok (JS.or_else (penv !! "TEST_ENV") "QA").
Proof.
intros Hreach. apply reachable_invariant in Hreach as [_ Hnone].
rewrite getEnvironmentName_run. unfold result, activeName; simpl. by rewrite Hnone.
Qed.

(** C3, evaluated at the failing input.  On the shipped table with no
    [TEST_ENV], [setEnvironment("dev")] succeeds for the known name ["dev"],
    yet leaves the resolver in its initial state, and the following
    [getEnvironmentName()] answers ["QA"], not ["dev"]; a lookup without a
    name then resolves the QA entry. *)
Theorem setEnvironment_dev_is_forgotten :
hasEnvironment Shipped.testConfig "dev" = true
∧ setEnvironment Shipped.testConfig "dev" initial = (Ok tt, initial)
∧ result (getEnvironmentName ∅ (final (setEnvironment Shipped.testConfig "dev" initial)))
  = Ok "QA"
∧ result (getEnvironmentConfig Shipped.testConfig ∅ None
            (final (setEnvironment Shipped.testConfig "dev" initial)))
  = Ok Shipped.QA.
Proof. repeat split; by vm_compute. Qed.

(** ** Clearing the cache *)

(** C5, evaluated at the failing input.  [clearCache] empties the cache and
    [setCaching(false)] does so too, but [clearCache] also resets the
    explicit selection: called on the state in which ["dev"] has just been
    selected (as [setEnvironment] calls it) it leaves no selection, so the
    active name becomes ["QA"]; and the sequence [setEnvironment("dev")],
    [clearCache()], [getEnvironmentName()] answers ["QA"]. *)
Theorem clearCache_resets_selection :
(∀ st, result (clearCache st) = Ok tt
       ∧ cache (final (clearCache st)) = ∅
       ∧ cacheEnabled (final (clearCache st)) = cacheEnabled st
       ∧ currentEnvironment (final (clearCache st)) = None)
∧ (∀ st, cache (final (setCaching false st)) = ∅
         ∧ cacheEnabled (final (setCaching false st)) = false)
∧ (let selected :=
     {| cache := ∅; cacheEnabled := true; currentEnvironment := Some "dev" |} in
   result (getEnvironmentName ∅ selected) = Ok "dev"
   ∧ result (getEnvironmentName ∅ (final (clearCache selected))) = Ok "QA")
∧ result ((exec setEnvironment Shipped.testConfig "dev" in
           exec clearCache in
           getEnvironmentName ∅) initial) = Ok "QA".
Proof.
split; [by intros st|]. split; [by intros st|]. split; [by split|].
by vm_compute.
Qed.

(** ** Validation of the table *)

Section Validation.

Variable testConfig : TestConfig.

Lemma for_of_ok {A} (xs : list A) (body : A → Result unit) :
(∀ x, x ∈ xs → body x = Ok tt) → for_of xs body = Ok tt.
Proof.
induction xs as [|x r IH]; intros Hall; simpl; [done|].
rewrite (Hall x) by (apply elem_of_cons; by left).
apply IH. intros y Hy. apply Hall, elem_of_cons. by right.
Qed.

Lemma for_of_app {A} (xs ys : list A) (body : A → Result unit) :
for_of (xs ++ ys) body
  = match for_of xs body with
    | Ok _ => for_of ys body
    | Throw e => Throw e
    | Untyped v => Untyped v
    end.
Proof.
induction xs as [|x r IH]; simpl; [done|]. by destruct (body x).
Qed.

Lemma get_Some_elem {V} (o : Obj.t V) (k : string) (v : V) :
Obj.get o k = Some v → (k, v) ∈ o.
Proof.
induction o as [|[k' v'] r IH]; simpl; [done|].
destruct (String.eqb k' k) eqn:E.
- apply String.eqb_eq in E as ->. intros [= ->]. apply elem_of_cons. by left.
- intros H. apply elem_of_cons. right. by apply IH.
Qed.

Lemma validateCredential_ok (envName : string) (config : TestEnvironmentConfig)
  (credKey : string) :
forallb (fun kv => Section3.complete_pair kv.2) (credentials config) = true →
credKey ∈ Obj.keys (credentials config) →
validateCredential envName config credKey = Ok tt.
Proof.
intros Hall Hin. unfold validateCredential.
destruct (ObjFacts.key_get _ _ Hin) as [cred Hget]. rewrite Hget.
apply get_Some_elem, list_elem_of_In in Hget.
rewrite forallb_forall in Hall. specialize (Hall _ Hget). simpl in Hall.
unfold Section3.complete_pair in Hall. apply andb_prop in Hall as [-> ->]. done.
Qed.

Lemma validateEnvironment_entry (envName : string) (config : TestEnvironmentConfig) :
Obj.get (environments testConfig) envName = Some config →
accepted config = true →
validateEnvironment testConfig envName = Ok tt.
Proof.
intros Hget Hall. unfold validateEnvironment. rewrite Hget.
unfold accepted, Section3.environment_ok in Hall.
apply andb_prop in Hall as [Hall Hinv]. apply andb_prop in Hall as [Hname Hbase].
apply andb_prop in Hinv as [Hinv Hurl]. apply andb_prop in Hinv as [Hinv Hpairs].
apply andb_prop in Hinv as [Hpaths Hcreds].
apply negb_true_iff in Hpaths, Hcreds.
rewrite Hname, Hbase. simpl.
assert (Hparts : ∀ k, validateUrlConfig envName (urlConfig config) k = k).
{ intros k. unfold validateUrlConfig.
  destruct (urlConfig config) as [u|]; [|done].
  unfold Section3.complete_parts in Hurl.
  apply andb_prop in Hurl as [Hurl Hd]. apply andb_prop in Hurl as [Hurl Hs].
  apply andb_prop in Hurl as [Hp He].
  by rewrite Hp, He, Hs, Hd. }
rewrite Hparts. unfold Obj.keys. rewrite !length_fmap, Hpaths, Hcreds.
simpl. apply for_of_ok. intros credKey Hk. by apply validateCredential_ok.
Qed.

Lemma validateEnvironment_ok (envName : string) :
forallb (fun kv => accepted kv.2) (environments testConfig) = true →
envName ∈ Obj.keys (environments testConfig) →
validateEnvironment testConfig envName = Ok tt.
Proof.
intros Hall Hin.
destruct (ObjFacts.key_get _ _ Hin) as [config Hget].
apply (validateEnvironment_entry envName config Hget).
apply get_Some_elem, list_elem_of_In in Hget.
rewrite forallb_forall in Hall. apply (Hall _ Hget).
Qed.

(** The tables [validateConfig] accepts: non-empty ones whose every
    environment is [accepted]. *)
Lemma validateConfig_accepts :
environments testConfig ≠ [] →
forallb (fun kv => accepted kv.2) (environments testConfig) = true →
validateConfig testConfig = Ok true.
Proof.
intros Hne Hall. unfold validateConfig, getAvailableEnvironments.
unfold Obj.keys at 1. rewrite length_fmap.
destruct (environments testConfig) as [|kv r] eqn:Htable; [done|]. simpl length.
cbn [Nat.eqb]. rewrite <- Htable in *.
by rewrite (for_of_ok _ _ (fun k Hk => validateEnvironment_ok k Hall Hk)).
Qed.

Lemma get_app_l {V} (o1 o2 : Obj.t V) (k : string) :
k ∈ Obj.keys o1 → Obj.get (o1 ++ o2) k = Obj.get o1 k.
Proof.
induction o1 as [|[k' v'] r IH]; simpl; intros Hin.
- by apply elem_of_nil in Hin.
- destruct (String.eqb k' k) eqn:E; [done|].
  apply String.eqb_neq in E. apply IH.
  apply elem_of_cons in Hin as [->|Hin]; done.
Qed.

Lemma get_app_r {V} (o1 o2 : Obj.t V) (k : string) :
k ∉ Obj.keys o1 → Obj.get (o1 ++ o2) k = Obj.get o2 k.
Proof.
induction o1 as [|[k' v'] r IH]; simpl; intros Hnot; [done|].
apply not_elem_of_cons in Hnot as [Hne Hnot].
destruct (String.eqb k' k) eqn:E.
- by apply String.eqb_eq in E.
- by apply IH.
Qed.

(** The first environment without credentials, when everything the loop
    checks before it passes, is reported by its key. *)
Lemma validateConfig_empty_credentials (earlier later : Obj.t TestEnvironmentConfig)
  (envName : string) (config : TestEnvironmentConfig) :
environments testConfig = earlier ++ (envName, config) :: later →
forallb (fun kv => accepted kv.2) earlier = true →
envName ∉ Obj.keys earlier →
name config ≠ "" → baseUrl config ≠ "" →
from_option Section3.complete_parts true (urlConfig config) = true →
domainPaths config ≠ [] →
credentials config = [] →
validateConfig testConfig
  = Throw ("Environment " +:+ JS.quoted envName +:+ " has no credentials defined").
Proof.
intros Htable Hearlier Hfresh Hname Hbase Hurl Hpaths Hcreds.
unfold validateConfig, getAvailableEnvironments. rewrite Htable.
unfold Obj.keys. rewrite fmap_app, length_app, fmap_cons, length_cons.
rewrite Nat.add_succ_r. cbn [Nat.eqb fst].
rewrite for_of_app.
rewrite for_of_ok; cycle 1.
{ intros k Hk. destruct (ObjFacts.key_get earlier k Hk) as [c Hc].
  apply (validateEnvironment_entry k c).
  - rewrite Htable, get_app_l by done. exact Hc.
  - apply get_Some_elem, list_elem_of_In in Hc.
    rewrite forallb_forall in Hearlier. apply (Hearlier _ Hc). }
cbn [for_of]. unfold validateEnvironment.
rewrite Htable, get_app_r by done. cbn [Obj.get]. rewrite String.eqb_refl.
apply JSFacts.truthy_true in Hname, Hbase. rewrite Hname, Hbase. cbn [negb guard].
assert (Hparts : ∀ k, validateUrlConfig envName (urlConfig config) k = k).
{ intros k. unfold validateUrlConfig.
  destruct (urlConfig config) as [u|]; [|done]. simpl in Hurl.
  unfold Section3.complete_parts in Hurl.
  apply andb_prop in Hurl as [Hurl Hd]. apply andb_prop in Hurl as [Hurl Hs].
  apply andb_prop in Hurl as [Hp He].
  by rewrite Hp, He, Hs, Hd. }
rewrite Hparts, Hcreds.
destruct (domainPaths config) as [|p r]; [done|]. reflexivity.
Qed.

End Validation.

(** C4, evaluated at the failing input.  The shipped table satisfies the
    invariant of the data model (every environment has paths, credentials
    with complete pairs, and either complete URL parts or a non-empty legacy
    base URL), yet [validateConfig] rejects it: the environments built from
    URL parts carry an empty legacy base URL, which the code still
    requires. *)
Theorem validateConfig_rejects_shipped_table :
Section3.table_ok Shipped.testConfig = true
∧ validateConfig Shipped.testConfig
  = Throw ("Environment " +:+ JS.quoted "dev" +:+ " missing required field: baseUrl").
Proof. split; by vm_compute. Qed.

(** A table with one environment whose credentials are empty and whose other
    fields pass is rejected with the error naming that environment. *)
Example validateConfig_no_credentials :
validateConfig
  {| environments :=
       [ ("local", Shipped.local);
         ("empty", {| name := "Empty"; baseUrl := "http://e"; urlConfig := None;
                      domainPaths := [("login", "/login")]; credentials := [] |}) ] |}
  = Throw ("Environment " +:+ JS.quoted "empty" +:+ " has no credentials defined").
Proof. by vm_compute. Qed.

Example validateConfig_accepts_local :
validateConfig {| environments := [("local", Shipped.local)] |} = Ok true.
Proof. by vm_compute. Qed.

(** * Further properties of the resolver *)

(** ** The active environment name *)

(** X1. [getEnvironmentName] never throws and never touches the state; the
    name it returns is never empty: it is the explicit selection when that
    is a non-empty string, else the [TEST_ENV] slot when that is non-empty,
    else ["QA"]. *)
Theorem getEnvironmentName_total (penv : gmap string string) (st : State) :
∃ envName,
  getEnvironmentName penv st = (Ok envName, st)
  ∧ envName ≠ ""
  ∧ (∀ explicit, currentEnvironment st = Some explicit → explicit ≠ "" →
       envName = explicit)
  ∧ (currentEnvironment st = None ∨ currentEnvironment st = Some "" →
       (∀ v, penv !! "TEST_ENV" = Some v → v ≠ "" → envName = v)
       ∧ (penv !! "TEST_ENV" = None ∨ penv !! "TEST_ENV" = Some "" → envName = "QA")).
Proof.
exists (activeName penv st). split; [apply getEnvironmentName_run|].
unfold activeName. split; [|split].
- destruct (currentEnvironment st) as [[|c r]|]; simpl; try done;
    by destruct (penv !! "TEST_ENV") as [[|d s]|].
- intros explicit -> Hne. by destruct explicit.
- intros Hcur. apply JSFacts.effective_None in Hcur. rewrite Hcur. split.
  + intros v -> Hne. by destruct v.
  + by intros [-> | ->].
Qed.

(** ** What the cache does and does not do *)

Section CacheBehaviour.

Variable testConfig : TestConfig.
Variable penv : gmap string string.

Lemma lookupEnvironment_disabled (env : string) (st : State) :
cacheEnabled st = false → final (lookupEnvironment testConfig env st) = st.
Proof.
intros Hoff. unfold lookupEnvironment, bind, gets, final; simpl. rewrite Hoff.
by destruct (Obj.index (environments testConfig) env).
Qed.

Lemma getEnvironmentConfig_disabled (envName : option string) (st : State) :
cacheEnabled st = false →
final (getEnvironmentConfig testConfig penv envName st) = st.
Proof.
intros Hoff. rewrite getEnvironmentConfig_resolved.
by apply lookupEnvironment_disabled.
Qed.

(** A method that resolves the environment and then only computes, run with
    caching off, gives the state back untouched. *)
Lemma resolve_then_disabled {A} (k : TestEnvironmentConfig → M A) (u : JSValue → M A)
  (envName : option string) (st : State) :
(∀ config s, final (k config s) = s) →
(∀ v s, final (u v s) = s) →
cacheEnabled st = false →
final ((let* config := getEnvironmentConfig testConfig penv envName
          on_untyped v => u v in
        k config) st) = st.
Proof.
intros Hk Hu Hoff. pose proof (getEnvironmentConfig_disabled envName st Hoff) as Hst.
unfold bind_any.
destruct (getEnvironmentConfig testConfig penv envName st) as [[config|e|v] st1];
  unfold final in Hst; simpl in Hst; subst st1; [apply Hk | done | apply Hu].
Qed.

Lemma getBaseUrl_disabled (envName : option string) (st : State) :
cacheEnabled st = false → final (getBaseUrl testConfig penv envName st) = st.
Proof.
intros Hoff. unfold getBaseUrl.
destruct (JS.effective (penv !! "BASE_URL")); [done|].
apply resolve_then_disabled; [|done|done].
intros config s. destruct (urlConfig config); [done|].
by destruct (JS.truthy (baseUrl config)).
Qed.

Lemma getDomainPath_disabled (pathKey : string) (envName : option string) (st : State) :
cacheEnabled st = false →
final (getDomainPath testConfig penv pathKey envName st) = st.
Proof.
intros Hoff. apply resolve_then_disabled; [|done|done].
intros config s.
destruct (Obj.index (domainPaths config) pathKey) as [[path|k]|]; [|done|done].
by destruct (JS.truthy path).
Qed.

Lemma getCredentials_disabled (credentialKey : string) (envName : option string)
  (st : State) :
cacheEnabled st = false →
final (getCredentials testConfig penv credentialKey envName st) = st.
Proof.
intros Hoff. apply resolve_then_disabled; [|done|done].
intros config s. by destruct (Obj.index (credentials config) credentialKey) as [[c|k]|].
Qed.

Lemma getUrl_disabled (pathKey : string) (envName : option string) (st : State) :
cacheEnabled st = false → final (getUrl testConfig penv pathKey envName st) = st.
Proof.
intros Hoff. rewrite getUrl_unfold.
pose proof (getBaseUrl_disabled envName st Hoff) as Hb.
destruct (getBaseUrl testConfig penv envName st) as [[base|e|v] st1];
  unfold final in Hb; simpl in Hb; subst st1; [|done|done].
pose proof (getDomainPath_disabled pathKey envName st Hoff) as Hp.
by destruct (getDomainPath testConfig penv pathKey envName st) as [[path|e|v] st2].
Qed.

End CacheBehaviour.

Section CacheTheorems.

Variable testConfig : TestConfig.
Variable penv : gmap string string.

(** What one resolution does to the state, case by case. *)
Lemma lookupEnvironment_cases (env : string) (st : State) :
(∃ cached, cacheEnabled st = true ∧ cache st !! cacheKey env = Some cached
           ∧ lookupEnvironment testConfig env st = (typed cached, st))
∨ (∃ config, cacheEnabled st = true ∧ cache st !! cacheKey env = None
             ∧ Obj.index (environments testConfig) env = Some config
             ∧ lookupEnvironment testConfig env st
               = (typed config,
                  {| cache := <[cacheKey env := config]> (cache st);
                     cacheEnabled := cacheEnabled st;
                     currentEnvironment := currentEnvironment st |}))
∨ (∃ config, cacheEnabled st = false
             ∧ Obj.index (environments testConfig) env = Some config
             ∧ lookupEnvironment testConfig env st = (typed config, st))
∨ (Obj.index (environments testConfig) env = None
   ∧ lookupEnvironment testConfig env st
     = (Throw (msg_unknown_environment testConfig env), st)).
Proof.
unfold lookupEnvironment, bind, gets, modify, ret, throw, found; simpl.
destruct (cacheEnabled st) eqn:Hen.
- destruct (cache st !! cacheKey env) as [cached|] eqn:Hhit.
  + left. exists cached. repeat split; simpl; by rewrite ?Hen.
  + destruct (Obj.index (environments testConfig) env) as [config|] eqn:Hget.
    * right; left. exists config. repeat split; simpl; by rewrite ?Hen.
    * right; right; right. repeat split; simpl; by rewrite ?Hen.
- destruct (Obj.index (environments testConfig) env) as [config|] eqn:Hget.
  + right; right; left. exists config. repeat split; simpl; by rewrite ?Hen.
  + right; right; right. repeat split; simpl; by rewrite ?Hen.
Qed.

Lemma typed_Ok {A} (f : Obj.Found A) (a : A) : typed f = Ok a ↔ f = Obj.Own a.
Proof. destruct f; simpl; split; by intros [= ->]. Qed.

(** X2. Resolving the same environment twice in a row, from any state and
    with caching on or off, gives the second time exactly the outcome of the
    first (the same configuration or the same error) and changes the state
    no further. *)
Theorem getEnvironmentConfig_repeatable (envName : option string) (st : State) :
getEnvironmentConfig testConfig penv envName
    (final (getEnvironmentConfig testConfig penv envName st))
  = (result (getEnvironmentConfig testConfig penv envName st),
     final (getEnvironmentConfig testConfig penv envName st)).
Proof.
rewrite (getEnvironmentConfig_resolved testConfig penv envName st).
set (env := resolvedName penv envName st).
assert (Hsame : ∀ st', currentEnvironment st' = currentEnvironment st →
          getEnvironmentConfig testConfig penv envName st'
            = lookupEnvironment testConfig env st').
{ intros st' Hsel. rewrite getEnvironmentConfig_resolved. f_equal.
  unfold env, resolvedName, activeName. by rewrite Hsel. }
destruct (lookupEnvironment_cases env st)
  as [(c & Hen & Hhit & Hrun) | [(c & Hen & Hhit & Hget & Hrun)
     | [(c & Hen & Hget & Hrun) | [Hget Hrun]]]];
  rewrite Hrun; unfold result, final; cbn [fst snd]; rewrite Hsame by done.
- done.
- unfold lookupEnvironment, bind, gets; simpl. by rewrite Hen, lookup_insert_eq.
- done.
- done.
Qed.

(** X3. What a resolution does to the cache: when it returns a
    configuration and caching is on, that configuration is afterwards cached
    under ["env_"] followed by the resolved name, and no other cache entry
    changes; when it throws, the state is left exactly as it was, so a
    failure is never cached; the caching flag and the selection are never
    touched.  What it returns in place of a configuration, an inherited
    member, is cached in the same way. *)
Theorem getEnvironmentConfig_cache_effect (envName : option string) (st : State) :
let run := getEnvironmentConfig testConfig penv envName st in
let key := "env_" +:+ resolvedName penv envName st in
(∀ config, result run = Ok config → cacheEnabled st = true →
   cache (final run) !! key = Some (Obj.Own config))
∧ (∀ other, other ≠ key → cache (final run) !! other = cache st !! other)
∧ (∀ e, result run = Throw e → final run = st)
∧ cacheEnabled (final run) = cacheEnabled st
∧ currentEnvironment (final run) = currentEnvironment st
∧ (∀ k, result run = Untyped (Member k) → cacheEnabled st = true →
     cache (final run) !! key = Some (Obj.Inherited k)).
Proof.
intros run key. subst run. rewrite getEnvironmentConfig_resolved.
change key with (cacheKey (resolvedName penv envName st)).
set (env := resolvedName penv envName st).
destruct (lookupEnvironment_cases env st)
  as [(c & Hen & Hhit & ->) | [(c & Hen & Hhit & Hget & ->)
     | [(c & Hen & Hget & ->) | [Hget ->]]]];
  unfold result, final; simpl.
- split; [intros config Hc _; by apply typed_Ok in Hc as ->|].
  do 4 (split; [done|]). intros k Hk _. rewrite Hhit. destruct c; by simplify_eq/=.
- split; [intros config Hc _; apply typed_Ok in Hc as ->; apply lookup_insert_eq|].
  split; [intros other Hne; by rewrite lookup_insert_ne|].
  split; [intros e He; by destruct c|]. split; [done|]. split; [done|].
  intros k Hk _. rewrite lookup_insert_eq. destruct c; by simplify_eq/=.
- split; [intros config _ Hon; congruence|]. do 4 (split; [done|]).
  intros k _ Hon. congruence.
- repeat split; done.
Qed.

(** X4. With caching off no lookup writes anything: every one of the five
    lookups gives the state back exactly as it received it. *)
Theorem lookups_leave_state_when_caching_off (pathKey credentialKey : string)
  (envName : option string) (st : State) :
cacheEnabled st = false →
final (getEnvironmentConfig testConfig penv envName st) = st
∧ final (getBaseUrl testConfig penv envName st) = st
∧ final (getDomainPath testConfig penv pathKey envName st) = st
∧ final (getCredentials testConfig penv credentialKey envName st) = st
∧ final (getUrl testConfig penv pathKey envName st) = st.
Proof.
intros Hoff. repeat split.
- by apply getEnvironmentConfig_disabled.
- by apply getBaseUrl_disabled.
- by apply getDomainPath_disabled.
- by apply getCredentials_disabled.
- by apply getUrl_disabled.
Qed.

End CacheTheorems.

Lemma lookups_leave_state_when_caching_off_witness :
let off := final (setCaching false initial) in
final (getUrl Shipped.testConfig ∅ "login" (Some "QA") off) = off.
Proof.
apply (lookups_leave_state_when_caching_off Shipped.testConfig ∅ "login" "RBCClient"
         (Some "QA") (final (setCaching false initial))).
reflexivity.
Defined.

Section CacheInvariant.

Variable testConfig : TestConfig.

Lemma grows_refl (st : State) : grows_from_table testConfig st st.
Proof. intros key config H. by left. Qed.

Lemma grows_trans (st1 st2 st3 : State) :
grows_from_table testConfig st1 st2 → grows_from_table testConfig st2 st3 →
grows_from_table testConfig st1 st3.
Proof.
intros H12 H23 key config H. destruct (H23 key config H) as [H2|H2]; [|by right].
by apply H12.
Qed.

Lemma grows_same_cache (st st' : State) :
cache st' = cache st → grows_from_table testConfig st st'.
Proof. intros Hsame key config H. left. by rewrite <- Hsame. Qed.

Lemma grows_from_empty (st st' : State) :
cache st' = ∅ → grows_from_table testConfig st st'.
Proof. intros Hempty key config H. by rewrite Hempty, lookup_empty in H. Qed.

Lemma getEnvironmentConfig_grows (penv : gmap string string) (envName : option string)
  (st : State) :
grows_from_table testConfig st (final (getEnvironmentConfig testConfig penv envName st)).
Proof.
rewrite getEnvironmentConfig_resolved.
set (env := resolvedName penv envName st).
destruct (lookupEnvironment_cases testConfig env st)
  as [(c & Hen & Hhit & ->) | [(c & Hen & Hhit & Hget & ->)
     | [(c & Hen & Hget & ->) | [Hget ->]]]];
  unfold final; simpl; try apply grows_refl.
intros key config; simpl.
destruct (decide (cacheKey env = key)) as [<-|Hne].
- rewrite lookup_insert_eq. intros [= <-]. right. by exists env.
- rewrite lookup_insert_ne by done. by left.
Qed.

Lemma resolve_then_grows {A} (penv : gmap string string) (k : TestEnvironmentConfig → M A)
  (u : JSValue → M A) (envName : option string) (st : State) :
(∀ config s, final (k config s) = s) →
(∀ v s, final (u v s) = s) →
grows_from_table testConfig st
  (final ((let* config := getEnvironmentConfig testConfig penv envName
             on_untyped v => u v in
           k config) st)).
Proof.
intros Hk Hu. pose proof (getEnvironmentConfig_grows penv envName st) as Hg.
unfold bind_any.
destruct (getEnvironmentConfig testConfig penv envName st) as [[config|e|v] st1];
  unfold final in Hg; simpl in Hg; [by rewrite Hk | done | by rewrite Hu].
Qed.

Lemma getBaseUrl_grows (penv : gmap string string) (envName : option string) (st : State) :
grows_from_table testConfig st (final (getBaseUrl testConfig penv envName st)).
Proof.
unfold getBaseUrl.
destruct (JS.effective (penv !! "BASE_URL")); [apply grows_refl|].
apply resolve_then_grows; [|done].
intros config s. destruct (urlConfig config); [done|].
by destruct (JS.truthy (baseUrl config)).
Qed.

Lemma getDomainPath_grows (penv : gmap string string) (pathKey : string)
  (envName : option string) (st : State) :
grows_from_table testConfig st (final (getDomainPath testConfig penv pathKey envName st)).
Proof.
apply resolve_then_grows; [|done].
intros config s.
destruct (Obj.index (domainPaths config) pathKey) as [[path|k]|]; [|done|done].
by destruct (JS.truthy path).
Qed.

Lemma getUrl_grows (penv : gmap string string) (pathKey : string)
  (envName : option string) (st : State) :
grows_from_table testConfig st (final (getUrl testConfig penv pathKey envName st)).
Proof.
rewrite getUrl_unfold.
pose proof (getBaseUrl_grows penv envName st) as Hb.
destruct (getBaseUrl testConfig penv envName st) as [[base|e|v] st1];
  unfold final in Hb; simpl in Hb; [|done|done].
pose proof (getDomainPath_grows penv pathKey envName st1) as Hp.
destruct (getDomainPath testConfig penv pathKey envName st1) as [[path|e|v] st2];
  unfold final in Hp; simpl in Hp; by eapply grows_trans.
Qed.

Lemma after_grows (penv : gmap string string) (call : Call) (st : State) :
grows_from_table testConfig st (after testConfig penv call st).
Proof.
destruct call as [[|]| | |envName|envName|envName|pathKey envName|pathKey envName
                  |envName|credentialKey envName|envName|credentialKey envName|envName| ];
  cbn [after].
- rewrite setCaching_true_run. by apply grows_same_cache.
- by apply grows_from_empty.
- by apply grows_from_empty.
- rewrite getEnvironmentName_run. apply grows_refl.
- destruct (hasEnvironment testConfig envName) eqn:E.
  + rewrite (setEnvironment_known _ _ _ E). by apply grows_from_empty.
  + rewrite (setEnvironment_unknown _ _ _ E). apply grows_refl.
- apply getEnvironmentConfig_grows.
- apply getBaseUrl_grows.
- apply getDomainPath_grows.
- apply getUrl_grows.
- by apply resolve_then_grows.
- apply resolve_then_grows; [|done].
  intros config s. by destruct (Obj.index (credentials config) credentialKey) as [[c|k]|].
- by apply resolve_then_grows.
- by apply resolve_then_grows.
- by apply resolve_then_grows.
- unfold logConfigSummary, bind at 1. rewrite getEnvironmentName_run.
  by apply resolve_then_grows.
Qed.

(** X5. In every state reachable by public calls, each cache entry sits
    under ["env_"] followed by a name and holds exactly what indexing the
    table with that name finds: the table's entry when the name is a key of
    the table, and otherwise the member of that name which the table
    inherits from [Object.prototype], which a lookup has taken for an
    environment. *)
Theorem reachable_cache_from_table (st : State) :
reachable testConfig st → cache_from_table testConfig st.
Proof.
induction 1 as [|penv call st Hreach IH].
- intros key config H. simpl in H. by rewrite lookup_empty in H.
- intros key config H.
  destruct (after_grows penv call st key config H) as [Hold|Hnew]; [|done].
  by apply IH.
Qed.

End CacheInvariant.

Lemma reachable_cache_from_table_witness :
cache_from_table Shipped.testConfig
  (final (getUrl Shipped.testConfig ∅ "login" (Some "QA") initial)).
Proof.
apply (reachable_cache_from_table Shipped.testConfig).
apply (reachable_call Shipped.testConfig ∅ (GetUrl "login" (Some "QA")) initial).
apply reachable_initial.
Defined.

(** ** Outcomes of [getUrl] and independence from the cache *)

Section Outcomes.

Variable testConfig : TestConfig.
Variable penv : gmap string string.

(** The outcome of [getUrl] from the outcomes its two lookups have in the
    starting state. *)
Lemma getUrl_outcome (pathKey : string) (envName : option string) (st : State) :
result (getUrl testConfig penv pathKey envName st)
  = joinOutcomes (result (getBaseUrl testConfig penv envName st))
                 (result (getDomainPath testConfig penv pathKey envName st)).
Proof.
rewrite getUrl_unfold.
pose proof (getDomainPath_after_getBaseUrl testConfig penv pathKey envName st) as Hsame.
destruct (getBaseUrl testConfig penv envName st) as [[base|e|v] st1];
  unfold final, result in *; simpl in *; [|done|done].
rewrite <- Hsame.
by destruct (getDomainPath testConfig penv pathKey envName st1) as [[path|e|v] st2].
Qed.

(** X6. [getUrl] returns a URL exactly when [getBaseUrl] returns and
    [getDomainPath] returns a string.  An error of [getBaseUrl] is reported
    as it is, whatever the path lookup would do; when the base URL is found,
    an error of [getDomainPath] is reported as it is; and when
    [getDomainPath] hands out something that is no string (the inherited
    member a path key such as ["constructor"] finds), [getUrl] throws the
    [TypeError] of calling [startsWith] on it.  [getUrl] itself always hands
    out a string when it returns. *)
Theorem getUrl_failures (pathKey : string) (envName : option string) (st : State) :
(∀ e, result (getBaseUrl testConfig penv envName st) = Throw e →
   result (getUrl testConfig penv pathKey envName st) = Throw e)
∧ (∀ base e,
     result (getBaseUrl testConfig penv envName st) = Ok base →
     result (getDomainPath testConfig penv pathKey envName st) = Throw e →
     result (getUrl testConfig penv pathKey envName st) = Throw e)
∧ (∀ base v,
     result (getBaseUrl testConfig penv envName st) = Ok base →
     result (getDomainPath testConfig penv pathKey envName st) = Untyped v →
     result (getUrl testConfig penv pathKey envName st)
       = Throw "path.startsWith is not a function")
∧ ((∃ url, result (getUrl testConfig penv pathKey envName st) = Ok url)
   ↔ (∃ base, result (getBaseUrl testConfig penv envName st) = Ok base)
     ∧ (∃ path, result (getDomainPath testConfig penv pathKey envName st) = Ok path))
∧ (∀ v, result (getUrl testConfig penv pathKey envName st) ≠ Untyped v).
Proof.
rewrite getUrl_outcome.
pose proof (getBaseUrl_typed testConfig penv envName st) as Htyped.
destruct (result (getBaseUrl testConfig penv envName st)) as [base|eb|vb];
  [|  |by destruct (Htyped vb)];
  destruct (result (getDomainPath testConfig penv pathKey envName st)) as [path|ep|vp];
  simpl; (split; [|split; [|split; [|split]]]); try done;
  try (by intros ? ? _ [= <-]); try (by intros ? [= <-]);
  (split; [intros [? ?] | intros [[? ?] [? ?]]]); try done;
  first [by eexists | split; by eexists].
Qed.

(** The outcome of each lookup is fixed by the table, the process
    environment and the selection, once the cache is consistent. *)
Lemma outcomes_by_selection (pathKey credentialKey : string) (envName : option string)
  (st1 st2 : State) :
cache_ok testConfig st1 → cache_ok testConfig st2 →
currentEnvironment st1 = currentEnvironment st2 →
result (getEnvironmentConfig testConfig penv envName st1)
  = result (getEnvironmentConfig testConfig penv envName st2)
∧ result (getBaseUrl testConfig penv envName st1)
  = result (getBaseUrl testConfig penv envName st2)
∧ result (getDomainPath testConfig penv pathKey envName st1)
  = result (getDomainPath testConfig penv pathKey envName st2)
∧ result (getCredentials testConfig penv credentialKey envName st1)
  = result (getCredentials testConfig penv credentialKey envName st2)
∧ result (getUrl testConfig penv pathKey envName st1)
  = result (getUrl testConfig penv pathKey envName st2).
Proof.
intros Hok1 Hok2 Hsel.
assert (Hname : resolvedName penv envName st1 = resolvedName penv envName st2).
{ unfold resolvedName, activeName. by rewrite Hsel. }
assert (Hconfig : result (getEnvironmentConfig testConfig penv envName st1)
                  = result (getEnvironmentConfig testConfig penv envName st2)).
{ destruct (getEnvironmentConfig_run testConfig penv envName st1 Hok1) as (s1 & -> & _).
  destruct (getEnvironmentConfig_run testConfig penv envName st2 Hok2) as (s2 & -> & _).
  unfold result; simpl. by rewrite Hname. }
assert (Hbase : result (getBaseUrl testConfig penv envName st1)
                = result (getBaseUrl testConfig penv envName st2)).
{ destruct (JS.effective (penv !! "BASE_URL")) as [v|] eqn:E.
  - by rewrite !(getBaseUrl_override testConfig penv envName _ v E).
  - destruct (getBaseUrl_run testConfig penv envName st1 Hok1 E) as (s1 & -> & _).
    destruct (getBaseUrl_run testConfig penv envName st2 Hok2 E) as (s2 & -> & _).
    unfold result; simpl. by rewrite Hname. }
assert (Hpath : result (getDomainPath testConfig penv pathKey envName st1)
                = result (getDomainPath testConfig penv pathKey envName st2)).
{ destruct (getDomainPath_run testConfig penv pathKey envName st1 Hok1) as (s1 & -> & _).
  destruct (getDomainPath_run testConfig penv pathKey envName st2 Hok2) as (s2 & -> & _).
  unfold result; simpl. by rewrite Hname. }
split; [done|]. split; [done|]. split; [done|]. split.
- destruct (getCredentials_run testConfig penv credentialKey envName st1 Hok1)
    as (s1 & -> & _).
  destruct (getCredentials_run testConfig penv credentialKey envName st2 Hok2)
    as (s2 & -> & _).
  unfold result; simpl. by rewrite Hname.
- by rewrite !getUrl_outcome, Hbase, Hpath.
Qed.

(** X7. The cache never changes what a lookup returns: in every reachable
    state each of the five lookups has the outcome it has from the state
    with the same selection, an empty cache and caching switched on or
    off. *)
Theorem cache_is_transparent (pathKey credentialKey : string) (envName : option string)
  (enabled : bool) (st : State) :
reachable testConfig st →
result (getEnvironmentConfig testConfig penv envName st)
  = result (getEnvironmentConfig testConfig penv envName (uncached enabled st))
∧ result (getBaseUrl testConfig penv envName st)
  = result (getBaseUrl testConfig penv envName (uncached enabled st))
∧ result (getDomainPath testConfig penv pathKey envName st)
  = result (getDomainPath testConfig penv pathKey envName (uncached enabled st))
∧ result (getCredentials testConfig penv credentialKey envName st)
  = result (getCredentials testConfig penv credentialKey envName (uncached enabled st))
∧ result (getUrl testConfig penv pathKey envName st)
  = result (getUrl testConfig penv pathKey envName (uncached enabled st)).
Proof.
intros Hreach. apply outcomes_by_selection.
- by apply reachable_cache_ok.
- apply cache_ok_empty.
- done.
Qed.

End Outcomes.

Lemma cache_is_transparent_witness :
let warm := final (getUrl Shipped.testConfig ∅ "login" (Some "QA") initial) in
result (getCredentials Shipped.testConfig ∅ "TDFClient" (Some "QA") warm)
  = result (getCredentials Shipped.testConfig ∅ "TDFClient" (Some "QA") (uncached false warm)).
Proof.
apply (cache_is_transparent Shipped.testConfig ∅ "login" "TDFClient" (Some "QA") false
         (final (getUrl Shipped.testConfig ∅ "login" (Some "QA") initial))).
apply (reachable_call Shipped.testConfig ∅ (GetUrl "login" (Some "QA")) initial).
apply reachable_initial.
Defined.

(** ** Selecting an environment, in general *)

(** X8. [setEnvironment] refuses every name that is neither a key of the
    table nor the name of a member the table inherits from
    [Object.prototype]: it throws, the message names the refused name's
    alternatives by listing every key of the table, and the state (cache,
    caching flag, selection) is left exactly as it was.  A name of an
    inherited member that is no key of the table is not refused: the call
    returns as it does for a key. *)
Theorem setEnvironment_rejects_unknown (testConfig : TestConfig) (envName : string)
  (st : State) :
envName ∉ Obj.keys (environments testConfig) →
(envName ∉ Proto.names →
 ∃ message,
   setEnvironment testConfig envName st = (Throw message, st)
   ∧ message = "Environment " +:+ JS.quoted envName
               +:+ " not found. Available environments: "
               +:+ JS.join ", " (Obj.keys (environments testConfig))
   ∧ ∀ key, key ∈ Obj.keys (environments testConfig) → JS.mentions message key)
∧ (envName ∈ Proto.names →
   setEnvironment testConfig envName st
     = (Ok tt, {| cache := ∅; cacheEnabled := cacheEnabled st;
                  currentEnvironment := None |})).
Proof.
intros Hkey. split.
- intros Hproto.
  assert (Hnot : hasEnvironment testConfig envName = false)
    by (by apply hasEnvironment_false).
  eexists. split; [by apply setEnvironment_unknown|]. split; [done|].
  intros key Hin. unfold msg_setEnvironment_unknown.
  do 3 apply JSFacts.mentions_app_r. by apply JSFacts.mentions_join.
- intros Hproto. by apply setEnvironment_known, hasEnvironment_inherited.
Qed.

Lemma setEnvironment_rejects_unknown_witness :
∃ message,
  setEnvironment Shipped.testConfig "staging" initial = (Throw message, initial)
  ∧ message = "Environment " +:+ JS.quoted "staging"
              +:+ " not found. Available environments: "
              +:+ JS.join ", " (Obj.keys (environments Shipped.testConfig))
  ∧ ∀ key, key ∈ Obj.keys (environments Shipped.testConfig) → JS.mentions message key.
Proof.
apply (setEnvironment_rejects_unknown Shipped.testConfig "staging" initial);
  by apply (bool_decide_unpack _); vm_compute.
Defined.

(** For every name for which [hasEnvironment] is true, [setEnvironment]
    returns normally, empties the cache and keeps the caching flag; the
    selection it assigns does not survive the call, because the [clearCache]
    it runs after the assignment resets the selection. *)
Theorem setEnvironment_accepts_known (testConfig : TestConfig) (envName : string)
  (st : State) :
hasEnvironment testConfig envName = true →
setEnvironment testConfig envName st
  = (Ok tt, {| cache := ∅; cacheEnabled := cacheEnabled st; currentEnvironment := None |}).
Proof. apply setEnvironment_known. Qed.

Lemma setEnvironment_accepts_known_witness :
setEnvironment Shipped.testConfig "prod" (final (setCaching false initial))
  = (Ok tt, {| cache := ∅; cacheEnabled := false; currentEnvironment := None |}).
Proof.
apply (setEnvironment_accepts_known Shipped.testConfig "prod"
         (final (setCaching false initial))).
by vm_compute.
Defined.

(** X9. No sequence of public calls leaves an explicit selection behind: in
    every reachable state the selection is unset, so [getEnvironmentName]
    answers the [TEST_ENV] slot when it is non-empty and ["QA"] otherwise,
    and a lookup without a name resolves that environment. *)
Theorem reachable_selection_unset (testConfig : TestConfig) (penv : gmap string string)
  (st : State) :
reachable testConfig st →
currentEnvironment st = None
∧ result (getEnvironmentName penv st) = Ok (JS.or_else (penv !! "TEST_ENV") "QA")
∧ result (getEnvironmentConfig testConfig penv None st)
  = result (getEnvironmentConfig testConfig penv
              (Some (JS.or_else (penv !! "TEST_ENV") "QA")) st).
Proof.
intros Hreach. destruct (reachable_invariant testConfig st Hreach) as [Hok Hnone].
split; [done|]. split.
- rewrite getEnvironmentName_run. unfold result, activeName; simpl. by rewrite Hnone.
- rewrite !getEnvironmentConfig_resolved. f_equal. f_equal.
  unfold resolvedName, activeName. rewrite Hnone. simpl.
  by destruct (penv !! "TEST_ENV") as [[|c r]|].
Qed.

Lemma reachable_selection_unset_witness :
result (getEnvironmentName {["TEST_ENV" := "prod"]}
          (final (setEnvironment Shipped.testConfig "dev" initial))) = Ok "prod".
Proof.
destruct (reachable_selection_unset Shipped.testConfig {["TEST_ENV" := "prod"]}
            (final (setEnvironment Shipped.testConfig "dev" initial))
            (reachable_call Shipped.testConfig ∅ (SetEnvironment "dev") initial
               (reachable_initial _)))
  as (_ & Hname & _).
exact Hname.
Defined.

(** ** The listing methods and the single lookups agree *)

Section Listings.

Variable testConfig : TestConfig.
Variable penv : gmap string string.

(** The outcome of a method that resolves the environment and then only
    computes. *)
Lemma resolve_then_run {A} (k : TestEnvironmentConfig → Result A) (u : JSValue → Result A)
  (envName : option string) (st : State) :
cache_ok testConfig st →
result ((let* config := getEnvironmentConfig testConfig penv envName
           on_untyped v => fun s => (u v, s) in
         fun s => (k config, s)) st)
  = and_then (tableEntry testConfig (resolvedName penv envName st)) k u.
Proof.
intros Hok.
destruct (getEnvironmentConfig_run testConfig penv envName st Hok) as (st' & Hrun & _).
unfold bind_any. rewrite Hrun.
by destruct (tableEntry testConfig (resolvedName penv envName st)).
Qed.

Lemma hasCredentials_run (credentialKey : string) (envName : option string) (st : State) :
cache_ok testConfig st →
result (hasCredentials testConfig penv credentialKey envName st)
  = and_then (tableEntry testConfig (resolvedName penv envName st))
             (fun config => Ok (Obj.in_ credentialKey (credentials config)))
             (fun _ => Throw (TypeError.in_undefined credentialKey)).
Proof.
apply (resolve_then_run (fun config => Ok (Obj.in_ credentialKey (credentials config)))
         (fun _ => Throw (TypeError.in_undefined credentialKey))).
Qed.

Lemma getAvailableCredentialKeys_run (envName : option string) (st : State) :
cache_ok testConfig st →
result (getAvailableCredentialKeys testConfig penv envName st)
  = and_then (tableEntry testConfig (resolvedName penv envName st))
             (fun config => Ok (Obj.keys (credentials config)))
             (fun _ => Throw TypeError.keys_undefined).
Proof.
apply (resolve_then_run (fun config => Ok (Obj.keys (credentials config)))
         (fun _ => Throw TypeError.keys_undefined)).
Qed.

Lemma getAllCredentials_run (envName : option string) (st : State) :
cache_ok testConfig st →
result (getAllCredentials testConfig penv envName st)
  = and_then (tableEntry testConfig (resolvedName penv envName st))
             (fun config => Ok (credentials config)) (fun _ => Untyped Undefined).
Proof.
apply (resolve_then_run (fun config => Ok (credentials config))
         (fun _ => Untyped Undefined)).
Qed.

Lemma getAllDomainPaths_run (envName : option string) (st : State) :
cache_ok testConfig st →
result (getAllDomainPaths testConfig penv envName st)
  = and_then (tableEntry testConfig (resolvedName penv envName st))
             (fun config => Ok (domainPaths config)) (fun _ => Untyped Undefined).
Proof.
apply (resolve_then_run (fun config => Ok (domainPaths config))
         (fun _ => Untyped Undefined)).
Qed.

Lemma getCredentials_result (credentialKey : string) (envName : option string) (st : State) :
cache_ok testConfig st →
result (getCredentials testConfig penv credentialKey envName st)
  = credentialsAt penv credentialKey (tableEntry testConfig (resolvedName penv envName st)).
Proof.
intros Hok.
by destruct (getCredentials_run testConfig penv credentialKey envName st Hok)
  as (st' & -> & _).
Qed.

Lemma getDomainPath_result (pathKey : string) (envName : option string) (st : State) :
cache_ok testConfig st →
result (getDomainPath testConfig penv pathKey envName st)
  = pathAt pathKey (tableEntry testConfig (resolvedName penv envName st)).
Proof.
intros Hok.
by destruct (getDomainPath_run testConfig penv pathKey envName st Hok) as (st' & -> & _).
Qed.

Lemma tableEntry_unknown (env : string) :
hasEnvironment testConfig env = false →
tableEntry testConfig env = Throw (msg_unknown_environment testConfig env).
Proof. intros Hnot. apply ObjFacts.in_false in Hnot. unfold tableEntry. by rewrite Hnot. Qed.

Lemma not_inherited (k : string) : k ∉ Proto.names → Proto.inherited k = false.
Proof. intros Hk. unfold Proto.inherited. by apply bool_decide_eq_false. Qed.

(** X10. [hasCredentials] and [getAvailableCredentialKeys] predict
    [getCredentials] for every credential key that is not the name of a
    member inherited from [Object.prototype]: in a reachable state,
    [getCredentials(key, name)] returns a pair exactly when
    [hasCredentials(key, name)] returns [true], and exactly when [key] is in
    the list [getAvailableCredentialKeys(name)] returns; the three fail
    together, and with the same error when the table does not have the
    environment. *)
Theorem credential_listings_agree (credentialKey : string) (envName : option string)
  (st : State) :
reachable testConfig st →
credentialKey ∉ Proto.names →
((∃ pair, result (getCredentials testConfig penv credentialKey envName st) = Ok pair)
 ↔ result (hasCredentials testConfig penv credentialKey envName st) = Ok true)
∧ ((∃ pair, result (getCredentials testConfig penv credentialKey envName st) = Ok pair)
   ↔ ∃ listed, result (getAvailableCredentialKeys testConfig penv envName st) = Ok listed
               ∧ credentialKey ∈ listed)
∧ ((∃ e, result (hasCredentials testConfig penv credentialKey envName st) = Throw e)
   ↔ ∃ e, result (getAvailableCredentialKeys testConfig penv envName st) = Throw e)
∧ ((∃ e, result (hasCredentials testConfig penv credentialKey envName st) = Throw e)
   → ∃ e, result (getCredentials testConfig penv credentialKey envName st) = Throw e)
∧ (hasEnvironment testConfig (resolvedName penv envName st) = false →
   ∃ e, result (hasCredentials testConfig penv credentialKey envName st) = Throw e
        ∧ result (getAvailableCredentialKeys testConfig penv envName st) = Throw e
        ∧ result (getCredentials testConfig penv credentialKey envName st) = Throw e).
Proof.
intros Hreach Hproto. apply reachable_cache_ok in Hreach as Hok.
apply not_inherited in Hproto.
rewrite getCredentials_result, hasCredentials_run, getAvailableCredentialKeys_run by done.
pose proof (tableEntry_unknown (resolvedName penv envName st)) as Hunknown.
destruct (tableEntry testConfig (resolvedName penv envName st)) as [config|err|v]; simpl.
- unfold credentialsOf, Obj.in_. rewrite ObjFacts.index_not_inherited, Hproto by done.
  rewrite orb_false_r.
  destruct (Obj.get (credentials config) credentialKey) as [pair|] eqn:Hget; simpl.
  + assert (Hhas : Obj.has credentialKey (credentials config) = true)
      by (apply ObjFacts.has_true; by eexists).
    rewrite Hhas. split; [|split; [|split; [|split]]].
    * split; [done | intros _; by eexists].
    * split; [|intros _; by eexists].
      intros _. eexists. split; [done|]. by eapply ObjFacts.get_Some_key.
    * split; by intros [? ?].
    * by intros [? ?].
    * intros Hnot. by specialize (Hunknown Hnot).
  + assert (Hhas : Obj.has credentialKey (credentials config) = false)
      by (by apply ObjFacts.has_false).
    rewrite Hhas. split; [|split; [|split; [|split]]].
    * split; [by intros [? ?] | done].
    * split; [by intros [? ?]|].
      intros (listed & [= <-] & Hin). by apply ObjFacts.get_None_key in Hget.
    * split; by intros [? ?].
    * by intros [? ?].
    * intros Hnot. by specialize (Hunknown Hnot).
- split; [|split; [|split; [|split]]].
  + split; [by intros [? ?] | done].
  + split; [by intros [? ?] | by intros (? & ? & _)].
  + split; intros _; by eexists.
  + intros _. by eexists.
  + intros _. by eexists.
- split; [|split; [|split; [|split]]].
  + split; [by intros [? ?] | done].
  + split; [by intros [? ?] | by intros (? & ? & _)].
  + split; intros _; by eexists.
  + intros _. by eexists.
  + intros Hnot. by specialize (Hunknown Hnot).
Qed.

(** X11. [getAllDomainPaths] predicts [getDomainPath]: in a reachable state
    [getDomainPath(key, name)] returns [path] exactly when
    [getAllDomainPaths(name)] returns an object that stores the non-empty
    string [path] under [key]. *)
Theorem domain_path_listing_agrees (pathKey : string) (envName : option string)
  (st : State) (path : string) :
reachable testConfig st →
result (getDomainPath testConfig penv pathKey envName st) = Ok path
↔ ∃ paths, result (getAllDomainPaths testConfig penv envName st) = Ok paths
           ∧ Obj.get paths pathKey = Some path ∧ path ≠ "".
Proof.
intros Hreach. apply reachable_cache_ok in Hreach as Hok.
rewrite getDomainPath_result, getAllDomainPaths_run by done.
destruct (tableEntry testConfig (resolvedName penv envName st)) as [config|err|v]; simpl.
- unfold pathOf, Obj.index. split.
  + destruct (Obj.get (domainPaths config) pathKey) as [p|] eqn:E;
      [|by destruct (Proto.inherited pathKey)].
    destruct (JS.truthy p) eqn:Hp; [|done].
    intros [= ->]. apply JSFacts.truthy_true in Hp. by exists (domainPaths config).
  + intros (paths & [= <-] & Hget & Hne).
    rewrite Hget. by apply JSFacts.truthy_true in Hne as ->.
- split; [done | by intros (? & ? & _)].
- split; [done | by intros (? & ? & _)].
Qed.

(** X12. Without overrides, [getCredentials] hands out the table's pair
    unchanged: in a reachable state, for a credential key made of ASCII
    characters, when both derived slots are unset or empty,
    [getCredentials(key, name)] returns [pair] exactly when
    [getAllCredentials(name)] returns an object that stores [pair] under
    [key]. *)
Theorem getCredentials_without_overrides (credentialKey : string)
  (envName : option string) (st : State) (pair : Credentials) :
reachable testConfig st →
JS.ascii_only credentialKey = true →
(let slot := JS.map_chars Alphabet.slot_char credentialKey +:+ "_USERNAME" in
 penv !! slot = None ∨ penv !! slot = Some "") →
(let slot := JS.map_chars Alphabet.slot_char credentialKey +:+ "_PASSWORD" in
 penv !! slot = None ∨ penv !! slot = Some "") →
result (getCredentials testConfig penv credentialKey envName st) = Ok pair
↔ ∃ all, result (getAllCredentials testConfig penv envName st) = Ok all
         ∧ Obj.get all credentialKey = Some pair.
Proof.
intros Hreach _ Huser Hpass. apply reachable_cache_ok in Hreach as Hok.
simpl in Huser, Hpass. rewrite <- envKeyPrefix_alphabet in Huser, Hpass.
apply JSFacts.effective_None in Huser, Hpass.
rewrite getCredentials_result, getAllCredentials_run by done.
destruct (tableEntry testConfig (resolvedName penv envName st)) as [config|err|v]; simpl.
- unfold credentialsOf, Obj.index.
  destruct (Obj.get (credentials config) credentialKey) as [[u p]|] eqn:Hget; simpl.
  + rewrite !JSFacts.or_else_effective, Huser, Hpass. simpl. split.
    * intros [= <-]. by exists (credentials config).
    * intros (all & [= <-] & Hall). rewrite Hget in Hall. by injection Hall as <-.
  + rewrite Huser, Hpass.
    split; [by destruct (Proto.inherited credentialKey)|].
    intros (all & [= <-] & Hall). by rewrite Hget in Hall.
- split; [done | by intros (? & ? & _)].
- split; [done | by intros (? & ? & _)].
Qed.

End Listings.

Lemma credential_listings_agree_witness :
(∃ pair, result (getCredentials Shipped.testConfig ∅ "TDFClient" (Some "QA") initial)
         = Ok pair)
↔ result (hasCredentials Shipped.testConfig ∅ "TDFClient" (Some "QA") initial) = Ok true.
Proof.
apply (credential_listings_agree Shipped.testConfig ∅ "TDFClient" (Some "QA") initial).
- apply reachable_initial.
- by apply (bool_decide_unpack _); vm_compute.
Defined.

Lemma domain_path_listing_agrees_witness :
result (getDomainPath Shipped.testConfig ∅ "home" (Some "local") initial) = Ok "/home"
↔ ∃ paths, result (getAllDomainPaths Shipped.testConfig ∅ (Some "local") initial) = Ok paths
           ∧ Obj.get paths "home" = Some "/home" ∧ "/home" ≠ "".
Proof.
apply (domain_path_listing_agrees Shipped.testConfig ∅ "home" (Some "local") initial "/home").
apply reachable_initial.
Defined.

Lemma getCredentials_without_overrides_witness :
result (getCredentials Dotted.testConfig ∅ "svc.user-1" (Some "stage") initial)
  = Ok {| username := "svc"; password := "s3cret" |}
↔ ∃ all, result (getAllCredentials Dotted.testConfig ∅ (Some "stage") initial) = Ok all
         ∧ Obj.get all "svc.user-1" = Some {| username := "svc"; password := "s3cret" |}.
Proof.
apply (getCredentials_without_overrides Dotted.testConfig ∅ "svc.user-1" (Some "stage")
         initial {| username := "svc"; password := "s3cret" |});
  [apply reachable_initial | reflexivity | by left | by left].
Defined.

(** ** Where the fields of a returned pair come from *)

(** X13. Each field of a pair [getCredentials] returns is either the table's
    field or the non-empty value of its override slot, so an override can
    replace a field but never blank it: when the table's username
    (password) is non-empty, so is the returned one, whatever the process
    environment holds.  A pair is returned for a key the environment does
    not have only when the key is the name of a member inherited from
    [Object.prototype] and both slots are set: both fields are then the
    slots' values.  The credential key is made of ASCII characters. *)
Theorem getCredentials_field_origin (testConfig : TestConfig) (penv : gmap string string)
  (credentialKey : string) (envName : option string) (st : State) (got : Credentials) :
reachable testConfig st →
JS.ascii_only credentialKey = true →
result (getCredentials testConfig penv credentialKey envName st) = Ok got →
let userSlot := penv !! (JS.map_chars Alphabet.slot_char credentialKey +:+ "_USERNAME") in
let passSlot := penv !! (JS.map_chars Alphabet.slot_char credentialKey +:+ "_PASSWORD") in
∃ all,
  result (getAllCredentials testConfig penv envName st) = Ok all
  ∧ match Obj.get all credentialKey with
    | Some stored =>
        (username got = username stored
         ∨ (userSlot = Some (username got) ∧ username got ≠ ""))
        ∧ (password got = password stored
           ∨ (passSlot = Some (password got) ∧ password got ≠ ""))
        ∧ (username stored ≠ "" → username got ≠ "")
        ∧ (password stored ≠ "" → password got ≠ "")
    | None =>
        credentialKey ∈ Proto.names
        ∧ userSlot = Some (username got) ∧ username got ≠ ""
        ∧ passSlot = Some (password got) ∧ password got ≠ ""
    end.
Proof.
intros Hreach _. apply reachable_cache_ok in Hreach as Hok.
rewrite <- envKeyPrefix_alphabet.
rewrite getCredentials_result, getAllCredentials_run by done.
destruct (tableEntry testConfig (resolvedName penv envName st)) as [config|err|v];
  simpl; [|done|done].
unfold credentialsOf, Obj.index.
destruct (Obj.get (credentials config) credentialKey) as [pair|] eqn:Hget.
- intros [= <-]. exists (credentials config). rewrite Hget. simpl.
  assert (Horigin : ∀ (slot : option string) (d : string),
            (JS.or_else slot d = d
             ∨ (slot = Some (JS.or_else slot d) ∧ JS.or_else slot d ≠ ""))
            ∧ (d ≠ "" → JS.or_else slot d ≠ "")).
  { intros [[|c r]|] d; simpl; split; auto. }
  split; [done|].
  split; [apply Horigin|]. split; [apply Horigin|].
  split; apply Horigin.
- unfold Proto.inherited.
  destruct (bool_decide (credentialKey ∈ Proto.names)) eqn:Hin; [|done].
  apply bool_decide_eq_true in Hin. unfold pairOf.
  destruct (JS.effective (penv !! (envKeyPrefix credentialKey +:+ "_USERNAME")))
    as [u|] eqn:Hu; [|done].
  destruct (JS.effective (penv !! (envKeyPrefix credentialKey +:+ "_PASSWORD")))
    as [p|] eqn:Hp; [|done].
  intros [= <-]. exists (credentials config). rewrite Hget. simpl.
  apply JSFacts.effective_Some in Hu as [Hu Hune], Hp as [Hp Hpne].
  by repeat split.
Qed.

Lemma getCredentials_field_origin_witness :
∃ all,
  result (getAllCredentials Shipped.testConfig {["RBCCLIENT_PASSWORD" := "rotated"]}
            (Some "QA") initial) = Ok all
  ∧ Obj.get all "RBCClient" = Some {| username := "MIJIRBC"; password := "Assetuse@1" |}.
Proof.
destruct (getCredentials_field_origin Shipped.testConfig
            {["RBCCLIENT_PASSWORD" := "rotated"]} "RBCClient" (Some "QA") initial
            {| username := "MIJIRBC"; password := "rotated" |}
            (reachable_initial _) eq_refl) as (all & Hall & Hpair); [by vm_compute|].
exists all. split; [exact Hall|].
assert (Hsame : Ok all = Ok (credentials Shipped.QA)).
{ rewrite <- Hall. by vm_compute. }
injection Hsame as ->. by vm_compute.
Defined.

(** ** The override of the base URL does not cover the path *)

(** X14. With a non-empty [BASE_URL] and a non-empty environment name that
    is neither a key of the table nor the name of a member the table
    inherits from [Object.prototype], [getBaseUrl] returns the override, but
    [getUrl] still fails with the unknown-environment error, because the
    path is looked up in the table. *)
Theorem base_url_override_does_not_rescue_getUrl (testConfig : TestConfig)
  (penv : gmap string string) (pathKey envName override : string) (st : State) :
reachable testConfig st →
penv !! "BASE_URL" = Some override → override ≠ "" →
envName ≠ "" →
envName ∉ Obj.keys (environments testConfig) →
envName ∉ Proto.names →
result (getBaseUrl testConfig penv (Some envName) st) = Ok override
∧ result (getUrl testConfig penv pathKey (Some envName) st)
  = Throw ("Environment " +:+ JS.quoted envName
           +:+ " not found in test.config.ts. Available: "
           +:+ JS.join ", " (Obj.keys (environments testConfig))).
Proof.
intros Hreach Hset Hne Hname Hkey Hproto. apply reachable_cache_ok in Hreach as Hok.
assert (Hnot : hasEnvironment testConfig envName = false)
  by (by apply hasEnvironment_false).
assert (Heff : JS.effective (penv !! "BASE_URL") = Some override)
  by (by apply JSFacts.effective_Some).
assert (Hbase : result (getBaseUrl testConfig penv (Some envName) st) = Ok override)
  by (by rewrite (getBaseUrl_override testConfig penv (Some envName) st override Heff)).
split; [done|].
rewrite getUrl_outcome, Hbase, getDomainPath_result by done.
assert (resolvedName penv (Some envName) st = envName) as ->
  by (unfold resolvedName; by destruct envName).
by rewrite (tableEntry_unknown testConfig envName Hnot).
Qed.

Lemma base_url_override_does_not_rescue_getUrl_witness :
result (getBaseUrl Shipped.testConfig {["BASE_URL" := "https://preview.example"]}
          (Some "preview") initial) = Ok "https://preview.example"
∧ result (getUrl Shipped.testConfig {["BASE_URL" := "https://preview.example"]}
            "login" (Some "preview") initial)
  = Throw ("Environment " +:+ JS.quoted "preview"
           +:+ " not found in test.config.ts. Available: "
           +:+ JS.join ", " (Obj.keys (environments Shipped.testConfig))).
Proof.
apply (base_url_override_does_not_rescue_getUrl Shipped.testConfig
         {["BASE_URL" := "https://preview.example"]} "login" "preview"
         "https://preview.example" initial);
  [apply reachable_initial | by vm_compute | done | done
  | by apply (bool_decide_unpack _); vm_compute
  | by apply (bool_decide_unpack _); vm_compute].
Defined.

(** ** What a passed validation guarantees *)

Section ValidationMeaning.

Variable testConfig : TestConfig.

Lemma for_of_Ok_inv {A} (xs : list A) (body : A → Result unit) (u : unit) :
for_of xs body = Ok u → ∀ x, x ∈ xs → body x = Ok tt.
Proof.
induction xs as [|x r IH]; simpl; intros Hrun y Hy.
- by apply elem_of_nil in Hy.
- destruct (body x) as [[]|e|v] eqn:Hx; [|done|done].
  apply elem_of_cons in Hy as [->|Hy]; [done | by apply IH].
Qed.

Lemma guard_Ok_inv (failed : bool) (message : string) (k : Result unit) (u : unit) :
guard failed message k = Ok u → failed = false ∧ k = Ok u.
Proof. by destruct failed. Qed.

Lemma negb_truthy_false (s : string) : negb (JS.truthy s) = false ↔ s ≠ "".
Proof. destruct s; simpl; split; done. Qed.

Lemma length_zero_false {A} (l : list A) : (length l =? 0) = false ↔ l ≠ [].
Proof. destruct l; simpl; split; done. Qed.

Lemma validateUrlConfig_Ok_inv (envName : string) (parts : option UrlConfig)
  (k : Result unit) (u : unit) :
validateUrlConfig envName parts k = Ok u →
k = Ok u
∧ ∀ p, parts = Some p →
       protocol p ≠ "" ∧ envPrefix p ≠ "" ∧ subdomain p ≠ "" ∧ domain p ≠ "".
Proof.
destruct parts as [p|]; simpl; [|by intros ->].
intros H.
apply guard_Ok_inv in H as [H1 H]. apply guard_Ok_inv in H as [H2 H].
apply guard_Ok_inv in H as [H3 H]. apply guard_Ok_inv in H as [H4 H].
apply negb_truthy_false in H1, H2, H3, H4.
split; [done|]. by intros ? [= <-].
Qed.

Lemma validateEnvironment_Ok_inv (envName : string) (config : TestEnvironmentConfig)
  (u : unit) :
Obj.get (environments testConfig) envName = Some config →
validateEnvironment testConfig envName = Ok u →
passes_validation config.
Proof.
intros Hget. unfold validateEnvironment. rewrite Hget. intros H.
apply guard_Ok_inv in H as [Hname H]. apply guard_Ok_inv in H as [Hbase H].
apply validateUrlConfig_Ok_inv in H as [H Hparts].
apply guard_Ok_inv in H as [Hpaths H]. apply guard_Ok_inv in H as [Hcreds H].
apply negb_truthy_false in Hname, Hbase.
unfold Obj.keys in Hpaths, Hcreds. rewrite length_fmap in Hpaths. rewrite length_fmap in Hcreds.
apply length_zero_false in Hpaths, Hcreds.
repeat (split; [done|]).
intros credKey cred Hcred.
pose proof (for_of_Ok_inv _ _ _ H credKey (ObjFacts.get_Some_key _ _ _ Hcred)) as Hone.
unfold validateCredential in Hone. rewrite Hcred in Hone.
apply guard_Ok_inv in Hone as [Hone _].
apply orb_false_elim in Hone as [Hu Hp].
by apply negb_truthy_false in Hu, Hp.
Qed.

Lemma validateEnvironment_passes (envName : string) (config : TestEnvironmentConfig) :
Obj.get (environments testConfig) envName = Some config →
passes_validation config →
validateEnvironment testConfig envName = Ok tt.
Proof.
intros Hget (Hname & Hbase & Hparts & Hpaths & Hcreds & Hpairs).
unfold validateEnvironment. rewrite Hget.
apply negb_truthy_false in Hname, Hbase. rewrite Hname, Hbase. cbn [guard].
assert (Hurl : ∀ k, validateUrlConfig envName (urlConfig config) k = k).
{ intros k. unfold validateUrlConfig. destruct (urlConfig config) as [p|]; [|done].
  destruct (Hparts p eq_refl) as (H1 & H2 & H3 & H4).
  apply negb_truthy_false in H1, H2, H3, H4. by rewrite H1, H2, H3, H4. }
rewrite Hurl. unfold Obj.keys. rewrite !length_fmap.
apply length_zero_false in Hpaths, Hcreds. rewrite Hpaths, Hcreds. cbn [guard].
apply for_of_ok. intros credKey Hin.
destruct (ObjFacts.key_get _ _ Hin) as [cred Hcred].
unfold validateCredential. rewrite Hcred.
destruct (Hpairs credKey cred Hcred) as [Hu Hp].
apply negb_truthy_false in Hu, Hp. by rewrite Hu, Hp.
Qed.

Lemma validateConfig_true_inv :
validateConfig testConfig = Ok true →
environments testConfig ≠ []
∧ ∀ envName config,
    Obj.get (environments testConfig) envName = Some config → passes_validation config.
Proof.
unfold validateConfig, getAvailableEnvironments. unfold Obj.keys at 1.
rewrite length_fmap.
destruct (length (environments testConfig) =? 0) eqn:Hlen; [done|].
apply length_zero_false in Hlen.
destruct (for_of (Obj.keys (environments testConfig)) (validateEnvironment testConfig))
  as [u|e|v] eqn:Hfor; [|done|done].
intros _. split; [done|]. intros envName config Hget.
apply (validateEnvironment_Ok_inv envName config tt Hget).
apply (for_of_Ok_inv _ _ _ Hfor). by eapply ObjFacts.get_Some_key.
Qed.

Lemma for_of_typed {A} (xs : list A) (body : A → Result unit) (v : JSValue) :
(∀ x, body x ≠ Untyped v) → for_of xs body ≠ Untyped v.
Proof.
intros Hbody. induction xs as [|x r IH]; simpl; [done|].
specialize (Hbody x). by destruct (body x).
Qed.

Lemma guard_typed (failed : bool) (message : string) (k : Result unit) (v : JSValue) :
k ≠ Untyped v → guard failed message k ≠ Untyped v.
Proof. by destruct failed. Qed.

(** The validation hands out nothing but [true]. *)
Lemma validateConfig_typed (v : JSValue) : validateConfig testConfig ≠ Untyped v.
Proof.
unfold validateConfig.
destruct (length (getAvailableEnvironments testConfig) =? 0); [done|].
assert (Hloop : for_of (getAvailableEnvironments testConfig)
                  (validateEnvironment testConfig) ≠ Untyped v).
{ apply for_of_typed. intros envName. unfold validateEnvironment.
  destruct (Obj.get (environments testConfig) envName) as [config|]; [|done].
  do 2 apply guard_typed. unfold validateUrlConfig.
  assert (Hrest : guard (length (Obj.keys (domainPaths config)) =? 0)
                    (msg_no_domain_paths envName)
                    (guard (length (Obj.keys (credentials config)) =? 0)
                       (msg_no_credentials envName)
                       (for_of (Obj.keys (credentials config))
                          (validateCredential envName config))) ≠ Untyped v).
  { do 2 apply guard_typed. apply for_of_typed. intros credKey.
    unfold validateCredential.
    destruct (Obj.get (credentials config) credKey); [|done]. by apply guard_typed. }
  destruct (urlConfig config); [|done]. by do 4 apply guard_typed. }
destruct (for_of (getAvailableEnvironments testConfig) (validateEnvironment testConfig))
  as [u|e|w]; [done | done |].
intros [= ->]. by destruct Hloop.
Qed.

(** X15. [validateConfig] returns [true] exactly for the non-empty tables
    in which every environment has a non-empty display name, a non-empty
    legacy base URL, four non-empty URL parts when URL parts are present, at
    least one path, at least one credential pair, and a non-empty username
    and password in every pair; it never returns [false]: every other table
    makes it throw. *)
Theorem validateConfig_true_iff :
(validateConfig testConfig = Ok true
 ↔ environments testConfig ≠ []
   ∧ ∀ envName config,
       Obj.get (environments testConfig) envName = Some config →
       passes_validation config)
∧ validateConfig testConfig ≠ Ok false
∧ ∀ v, validateConfig testConfig ≠ Untyped v.
Proof.
split; [split|split]; [| | |apply validateConfig_typed].
- apply validateConfig_true_inv.
- intros [Hne Hall]. unfold validateConfig, getAvailableEnvironments.
  unfold Obj.keys at 1. rewrite length_fmap.
  apply length_zero_false in Hne. rewrite Hne.
  rewrite for_of_ok; [done|].
  intros envName Hin. destruct (ObjFacts.key_get _ _ Hin) as [config Hget].
  apply (validateEnvironment_passes envName config Hget). by eapply Hall.
- unfold validateConfig.
  destruct (length (getAvailableEnvironments testConfig) =? 0); [done|].
  by destruct (for_of _ _).
Qed.

(** X16. On a table that [validateConfig] accepts, lookups by a known,
    non-empty environment name cannot fail for want of data: in every
    reachable state and under every process environment [getBaseUrl] returns
    a URL, and [getCredentials] returns, for every credential key of that
    environment, a pair whose username and password are both non-empty. *)
Theorem validated_table_lookups_succeed (penv : gmap string string) (envName : string)
  (config : TestEnvironmentConfig) (st : State) :
validateConfig testConfig = Ok true →
reachable testConfig st →
envName ≠ "" →
Obj.get (environments testConfig) envName = Some config →
(∃ url, result (getBaseUrl testConfig penv (Some envName) st) = Ok url)
∧ ∀ credentialKey, credentialKey ∈ Obj.keys (credentials config) →
    ∃ got, result (getCredentials testConfig penv credentialKey (Some envName) st) = Ok got
           ∧ username got ≠ "" ∧ password got ≠ "".
Proof.
intros Hvalid Hreach Hne Hget. apply reachable_cache_ok in Hreach as Hok.
destruct (validateConfig_true_inv Hvalid) as [_ Hall].
destruct (Hall envName config Hget) as (_ & Hbase & _ & _ & _ & Hpairs).
assert (Hname : resolvedName penv (Some envName) st = envName)
  by (unfold resolvedName; by destruct envName).
split.
- destruct (JS.effective (penv !! "BASE_URL")) as [v|] eqn:E.
  + exists v. by rewrite (getBaseUrl_override testConfig penv (Some envName) st v E).
  + destruct (getBaseUrl_run testConfig penv (Some envName) st Hok E) as (st' & -> & _).
    rewrite Hname. unfold tableEntry. rewrite (ObjFacts.index_own _ _ _ Hget).
    unfold result, baseUrlAt, baseUrlOf; simpl.
    destruct (urlConfig config); [by eexists|].
    apply JSFacts.truthy_true in Hbase as ->. by eexists.
- intros credentialKey Hin.
  destruct (ObjFacts.key_get _ _ Hin) as [pair Hpair].
  destruct (Hpairs credentialKey pair Hpair) as [Hu Hp].
  destruct (getCredentials_run testConfig penv credentialKey (Some envName) st Hok)
    as (st' & -> & _).
  rewrite Hname. unfold tableEntry. rewrite (ObjFacts.index_own _ _ _ Hget).
  unfold result, credentialsAt, credentialsOf; simpl.
  rewrite (ObjFacts.index_own _ _ _ Hpair). eexists. split; [done|]. simpl.
  assert (Hkeep : ∀ (slot : option string) (d : string), d ≠ "" → JS.or_else slot d ≠ "").
  { by intros [[|c r]|] d. }
  split; by apply Hkeep.
Qed.

End ValidationMeaning.

Lemma validated_table_lookups_succeed_witness :
∃ url,
  result (getBaseUrl {| environments := [("local", Shipped.local)] |} ∅ (Some "local") initial)
    = Ok url.
Proof.
apply (validated_table_lookups_succeed {| environments := [("local", Shipped.local)] |}
         ∅ "local" Shipped.local initial);
  [by vm_compute | apply reachable_initial | done | by vm_compute].
Defined.

(** X17. The first environment without credentials is reported by its key:
    when the table lists, before it, only environments that pass every
    check, and the environment itself has a non-empty name and legacy base
    URL, complete URL parts if any, and at least one path, [validateConfig]
    throws the no-credentials error naming that environment. *)
Theorem validateConfig_reports_empty_credentials (testConfig : TestConfig)
  (earlier later : Obj.t TestEnvironmentConfig)
  (envName : string) (config : TestEnvironmentConfig) :
environments testConfig = earlier ++ (envName, config) :: later →
forallb (fun kv => accepted kv.2) earlier = true →
envName ∉ Obj.keys earlier →
name config ≠ "" → baseUrl config ≠ "" →
from_option Section3.complete_parts true (urlConfig config) = true →
domainPaths config ≠ [] →
credentials config = [] →
validateConfig testConfig
  = Throw ("Environment " +:+ JS.quoted envName +:+ " has no credentials defined").
Proof.
intros Htable Hearlier Hfresh Hname Hbase Hurl Hpaths Hcreds.
assert (Hpassed : for_of (Obj.keys earlier) (validateEnvironment testConfig) = Ok tt).
{ apply for_of_ok. intros k Hk. destruct (ObjFacts.key_get earlier k Hk) as [c Hc].
  apply (validateEnvironment_entry testConfig k c).
  - rewrite Htable, get_app_l by done. exact Hc.
  - apply get_Some_elem, list_elem_of_In in Hc.
    rewrite forallb_forall in Hearlier. apply (Hearlier _ Hc). }
assert (Hhere : validateEnvironment testConfig envName
                = Throw (msg_no_credentials envName)).
{ unfold validateEnvironment.
  rewrite Htable, get_app_r by done. cbn [Obj.get]. rewrite String.eqb_refl.
  apply JSFacts.truthy_true in Hname, Hbase. rewrite Hname, Hbase. cbn [negb guard].
  assert (Hparts : ∀ k, validateUrlConfig envName (urlConfig config) k = k).
  { intros k. unfold validateUrlConfig.
    destruct (urlConfig config) as [u|]; [|done]. simpl in Hurl.
    unfold Section3.complete_parts in Hurl.
    apply andb_prop in Hurl as [Hurl Hd]. apply andb_prop in Hurl as [Hurl Hs].
    apply andb_prop in Hurl as [Hp He].
    by rewrite Hp, He, Hs, Hd. }
  rewrite Hparts, Hcreds.
  destruct (domainPaths config) as [|p r]; [done | reflexivity]. }
unfold validateConfig, getAvailableEnvironments. rewrite Htable.
unfold Obj.keys. rewrite fmap_app, length_app, fmap_cons, length_cons.
rewrite Nat.add_succ_r. cbn [Nat.eqb fst].
rewrite for_of_app. fold (Obj.keys earlier). rewrite Hpassed.
cbn [for_of]. by rewrite Hhere.
Qed.

Lemma validateConfig_reports_empty_credentials_witness :
validateConfig
  {| environments :=
       [ ("local", Shipped.local);
         ("empty", {| name := "Empty"; baseUrl := "http://e"; urlConfig := None;
                      domainPaths := [("login", "/login")]; credentials := [] |});
         ("QA", Shipped.QA) ] |}
  = Throw ("Environment " +:+ JS.quoted "empty" +:+ " has no credentials defined").
Proof.
apply (validateConfig_reports_empty_credentials _ [("local", Shipped.local)]
         [("QA", Shipped.QA)] "empty"
         {| name := "Empty"; baseUrl := "http://e"; urlConfig := None;
            domainPaths := [("login", "/login")]; credentials := [] |});
  try done; try (by vm_compute).
apply ObjFacts.get_None_key. by vm_compute.
Defined.

(** ** Slashes at the joint of a URL *)

(** X18. [getUrl] normalises one slash on each side of the joint: for a base
    [b] that does not end in a slash and a path [p] that does not start with
    one, the four combinations of base [b] or [b/] with path [p] or [/p] all
    give [b/p]; only one trailing slash is removed, so a base ending in two
    slashes keeps one of them before the path's slash. *)
Theorem getUrl_slash_normalisation (testConfig : TestConfig) (penv : gmap string string)
  (pathKey : string) (envName : option string) (st : State) (base path b p : string) :
result (getBaseUrl testConfig penv envName st) = Ok base →
result (getDomainPath testConfig penv pathKey envName st) = Ok path →
JS.stripTrailingSlash b = b →
JS.startsWithSlash p = false →
path = p ∨ path = "/" +:+ p →
(base = b ∨ base = b +:+ "/" →
   result (getUrl testConfig penv pathKey envName st) = Ok (b +:+ "/" +:+ p))
∧ (base = b +:+ "//" →
   result (getUrl testConfig penv pathKey envName st) = Ok (b +:+ "//" +:+ p)).
Proof.
intros Hbase Hpath Hb Hp Hform.
rewrite getUrl_outcome, Hbase, Hpath. simpl.
assert (Hlead : JS.ensureLeadingSlash path = "/" +:+ p).
{ destruct Hform as [-> | ->]; [by apply JSFacts.ensureLeadingSlash_no_slash | done]. }
rewrite Hlead. split.
- intros [-> | ->]; [by rewrite Hb | by rewrite JSFacts.stripTrailingSlash_snoc].
- intros ->.
  replace (JS.stripTrailingSlash (b +:+ "//")) with (b +:+ "/").
  + by rewrite JSFacts.append_assoc.
  + rewrite <- (JSFacts.stripTrailingSlash_snoc (b +:+ "/")).
    by rewrite JSFacts.append_assoc.
Qed.

Lemma getUrl_slash_normalisation_witness :
result (getUrl Shipped.testConfig {["BASE_URL" := "http://h/"]} "site" (Some "QA") initial)
  = Ok ("http://h" +:+ "/" +:+ "QA").
Proof.
apply (getUrl_slash_normalisation Shipped.testConfig {["BASE_URL" := "http://h/"]}
         "site" (Some "QA") initial "http://h/" "QA" "http://h" "QA");
  try (by vm_compute); [by left | right; by vm_compute].
Defined.

(** ** The derived override prefix *)

Section OverridePrefix.

(** X19. For a credential key made of ASCII characters the derived prefix
    has the length of the key and consists only of the characters [A] to
    [Z], [0] to [9] and the underscore, so the two slot names it yields are
    plain environment variable names: character by character, a lower-case
    letter has become its upper-case letter, an upper-case letter or a digit
    is kept, and anything else has become an underscore. *)
Theorem envKeyPrefix_shape (credentialKey : string) :
JS.ascii_only credentialKey = true →
String.length (envKeyPrefix credentialKey) = String.length credentialKey
∧ Forall (fun c => c ∈ String.list_ascii_of_string "ABCDEFGHIJKLMNOPQRSTUVWXYZ0123456789_")
         (String.list_ascii_of_string (envKeyPrefix credentialKey))
∧ envKeyPrefix credentialKey = JS.map_chars Alphabet.slot_char credentialKey.
Proof.
intros _. rewrite envKeyPrefix_alphabet.
split; [apply map_chars_length|]. split; [|done].
induction credentialKey as [|c r IH]; simpl; [constructor|].
constructor; [apply slot_char_class | done].
Qed.

(** X20. Deriving the prefix is idempotent and blind to letter case: the
    prefix of a prefix is that prefix, and a key and its upper-cased form
    have the same prefix; hence credential keys that differ only in case
    read the same pair of override slots. *)
Theorem envKeyPrefix_idempotent (credentialKey : string) :
envKeyPrefix (envKeyPrefix credentialKey) = envKeyPrefix credentialKey
∧ envKeyPrefix (JS.toUpperCase credentialKey) = envKeyPrefix credentialKey.
Proof.
rewrite !envKeyPrefix_chars. unfold JS.toUpperCase. rewrite !map_chars_compose. split.
- apply map_chars_ext, prefix_char_idempotent.
- apply map_chars_ext, prefix_char_upper.
Qed.

End OverridePrefix.

Lemma envKeyPrefix_shape_witness :
envKeyPrefix "svc.user-1" = "SVC_USER_1"
∧ String.length (envKeyPrefix "svc.user-1") = 10.
Proof.
destruct (envKeyPrefix_shape "svc.user-1" eq_refl) as (Hlen & _ & Hchars).
split; [by rewrite Hchars | by rewrite Hlen].
Defined.


(** ** The callers of the resolver *)

(** The entries of the shipped table, by key. *)
Lemma shipped_entry (env : string) (config : TestEnvironmentConfig) :
Obj.get (environments Shipped.testConfig) env = Some config →
(env = "dev" ∧ config = Shipped.dev) ∨ (env = "QA" ∧ config = Shipped.QA)
∨ (env = "prod" ∧ config = Shipped.prod) ∨ (env = "local" ∧ config = Shipped.local).
Proof.
cbn [Obj.get environments Shipped.testConfig].
destruct (String.eqb "dev" env) eqn:E1;
  [apply String.eqb_eq in E1 as <-; intros [= <-]; auto|].
destruct (String.eqb "QA" env) eqn:E2;
  [apply String.eqb_eq in E2 as <-; intros [= <-]; auto|].
destruct (String.eqb "prod" env) eqn:E3;
  [apply String.eqb_eq in E3 as <-; intros [= <-]; auto|].
destruct (String.eqb "local" env) eqn:E4;
  [apply String.eqb_eq in E4 as <-; intros [= <-]; auto 6|].
done.
Qed.

Lemma or_else_nonempty (slot : option string) (d : string) :
d ≠ "" → JS.or_else slot d ≠ "".
Proof. by destruct slot as [[|c r]|]. Qed.

Lemma resolvedName_given (penv : gmap string string) (envName : string) (st : State) :
envName ≠ "" → resolvedName penv (Some envName) st = envName.
Proof. intros Hne. unfold resolvedName. by destruct envName. Qed.

(** X21. What the global setup stores: in a reachable state
    [fetchAndStoreCredentials] succeeds exactly when the environment named
    by [TEST_ENV] (default ["QA"]) is a key of the table and the credential
    key named by [AUTH_CREDENTIAL_KEY] (default ["RBCClient"]) is a key of
    that environment's credentials or the name of a member inherited from
    [Object.prototype].  It then sets [CREDENTIAL_KEY] to that key and
    [LOGIN_USERNAME] and [LOGIN_PASSWORD] to the fields of what
    [getCredentials] returns, and leaves every other slot of the process
    environment as it was.  For a key of the environment's credentials
    [getCredentials] returns a pair and its fields are stored; for an
    inherited name a missing field is stored as the text ["undefined"]. *)
Theorem fetchAndStoreCredentials_stores (testConfig : TestConfig)
  (penv : gmap string string) (st : State) :
reachable testConfig st →
let env := JS.or_else (penv !! "TEST_ENV") "QA" in
let credentialKey := JS.or_else (penv !! "AUTH_CREDENTIAL_KEY") "RBCClient" in
let outcome := result (Callers.fetchAndStoreCredentials testConfig penv st) in
let fetched := result (getCredentials testConfig penv credentialKey (Some env) st) in
((∃ stored, outcome = Ok stored)
 ↔ ∃ config, Obj.get (environments testConfig) env = Some config
             ∧ (credentialKey ∈ Obj.keys (credentials config)
                ∨ credentialKey ∈ Proto.names))
∧ ((∃ stored, outcome = Ok stored) ∨ (∃ e, outcome = Throw e ∧ fetched = Throw e))
∧ (∀ config, Obj.get (environments testConfig) env = Some config →
     credentialKey ∈ Obj.keys (credentials config) → ∃ got, fetched = Ok got)
∧ ∀ stored, outcome = Ok stored →
    stored !! "CREDENTIAL_KEY" = Some credentialKey
    ∧ (∀ slot, slot ≠ "LOGIN_USERNAME" → slot ≠ "LOGIN_PASSWORD" →
               slot ≠ "CREDENTIAL_KEY" → stored !! slot = penv !! slot)
    ∧ ((∃ got, fetched = Ok got
               ∧ stored !! "LOGIN_USERNAME" = Some (username got)
               ∧ stored !! "LOGIN_PASSWORD" = Some (password got))
       ∨ (∃ u p, fetched = Untyped (PartialCredentials u p)
                 ∧ credentialKey ∈ Proto.names
                 ∧ stored !! "LOGIN_USERNAME" = Some (default "undefined" u)
                 ∧ stored !! "LOGIN_PASSWORD" = Some (default "undefined" p))).
Proof.
intros Hreach env credentialKey outcome fetched.
apply reachable_cache_ok in Hreach as Hok.
assert (Henv : resolvedName penv (Some env) st = env)
  by (apply resolvedName_given; by apply or_else_nonempty).
pose proof (getCredentials_result testConfig penv credentialKey (Some env) st Hok) as Hres.
rewrite Henv in Hres. fold fetched in Hres.
assert (Hstored : ∀ u p (stored : gmap string string),
          stored = <["CREDENTIAL_KEY" := credentialKey]>
                     (<["LOGIN_PASSWORD" := p]> (<["LOGIN_USERNAME" := u]> penv)) →
          stored !! "CREDENTIAL_KEY" = Some credentialKey
          ∧ (∀ slot, slot ≠ "LOGIN_USERNAME" → slot ≠ "LOGIN_PASSWORD" →
                     slot ≠ "CREDENTIAL_KEY" → stored !! slot = penv !! slot)
          ∧ stored !! "LOGIN_USERNAME" = Some u
          ∧ stored !! "LOGIN_PASSWORD" = Some p).
{ intros u p stored ->.
  split; [by rewrite lookup_insert_eq|].
  split; [intros slot H1 H2 H3; by rewrite !lookup_insert_ne|].
  split; [by rewrite lookup_insert_ne, lookup_insert_ne, lookup_insert_eq|].
  by rewrite lookup_insert_ne, lookup_insert_eq. }
assert (Hentry : ∀ config, Obj.get (environments testConfig) env = Some config →
          fetched = credentialsOf penv credentialKey config).
{ intros config Hget. rewrite Hres. unfold tableEntry.
  by rewrite (ObjFacts.index_own _ _ _ Hget). }
assert (Hshape : ∀ config, Obj.get (environments testConfig) env = Some config →
          (credentialKey ∈ Obj.keys (credentials config) ∧ (∃ got, fetched = Ok got))
          ∨ ((credentialKey ∉ Obj.keys (credentials config))
             ∧ credentialKey ∈ Proto.names
             ∧ ((∃ got, fetched = Ok got)
                ∨ (∃ u p, fetched = Untyped (PartialCredentials u p))))
          ∨ ((credentialKey ∉ Obj.keys (credentials config))
             ∧ (credentialKey ∉ Proto.names) ∧ (∃ e, fetched = Throw e))).
{ intros config Hget. rewrite (Hentry config Hget).
  unfold credentialsOf, Obj.index.
  destruct (Obj.get (credentials config) credentialKey) as [pair|] eqn:Hpair.
  - left. split; [by eapply ObjFacts.get_Some_key | by eexists].
  - apply ObjFacts.get_None_key in Hpair. right. unfold Proto.inherited.
    destruct (bool_decide (credentialKey ∈ Proto.names)) eqn:Hin.
    + apply bool_decide_eq_true in Hin. left. split; [done|]. split; [done|].
      unfold pairOf. destruct (JS.effective _) as [u|], (JS.effective _) as [p|];
        first [left; by eexists | right; by do 2 eexists].
    + apply bool_decide_eq_false in Hin. right. split; [done|]. split; [done|].
      by eexists. }
assert (Hno_entry : Obj.get (environments testConfig) env = None → ∃ e, fetched = Throw e).
{ intros Hget. rewrite Hres. unfold tableEntry, Obj.index. rewrite Hget.
  destruct (Proto.inherited env); by eexists. }
assert (Hout : outcome
  = match fetched with
    | Ok got =>
        Ok (<["CREDENTIAL_KEY" := credentialKey]>
              (<["LOGIN_PASSWORD" := password got]>
                 (<["LOGIN_USERNAME" := username got]> penv)))
    | Throw e => Throw e
    | Untyped v =>
        Ok (<["CREDENTIAL_KEY" := credentialKey]>
              (<["LOGIN_PASSWORD" := Callers.slotText (Callers.passwordOf v)]>
                 (<["LOGIN_USERNAME" := Callers.slotText (Callers.usernameOf v)]> penv)))
    end).
{ subst outcome fetched. unfold Callers.fetchAndStoreCredentials, result.
  fold env credentialKey.
  by destruct (getCredentials testConfig penv credentialKey (Some env) st) as [[got|e|v] st']. }
clearbody outcome fetched. subst outcome. clear Hres Hentry.
split; [|split; [|split]].
- split.
  + intros [stored Hs].
    destruct (Obj.get (environments testConfig) env) as [config|] eqn:Hget.
    * exists config. split; [done|].
      destruct (Hshape config eq_refl) as [[? _] | [(_ & ? & _) | (_ & _ & e & ->)]];
        [by left | by right | done].
    * destruct (Hno_entry eq_refl) as [e ->]. done.
  + intros (config & Hget & Hkey).
    destruct (Hshape config Hget)
      as [(_ & got & ->) | [(_ & _ & [[got ->] | (u & p & ->)]) | (Hk & Hp & _)]];
      [by eexists | by eexists | by eexists | by destruct Hkey].
- destruct fetched as [got|e|v]; [left | right | left]; by eexists.
- intros config Hget Hin.
  destruct (Hshape config Hget) as [[_ ?] | [(? & _) | (? & _)]]; done.
- intros stored Hs.
  destruct fetched as [got|e|v]; [|done|].
  + injection Hs as <-.
    destruct (Hstored (username got) (password got) _ eq_refl) as (H1 & H2 & H3 & H4).
    split; [done|]. split; [done|]. left. by exists got.
  + injection Hs as <-.
    destruct (Hstored (Callers.slotText (Callers.usernameOf v))
                (Callers.slotText (Callers.passwordOf v)) _ eq_refl)
      as (H1 & H2 & H3 & H4).
    split; [done|]. split; [done|]. right.
    destruct (Obj.get (environments testConfig) env) as [config|] eqn:Hget.
    * destruct (Hshape config eq_refl)
        as [(_ & got & ?) | [(_ & Hin & [[got ?] | (u & p & Hv)]) | (_ & _ & e & ?)]];
        try done.
      injection Hv as ->. by exists u, p.
    * by destruct (Hno_entry eq_refl).
Qed.

Lemma fetchAndStoreCredentials_stores_witness :
∃ got,
  result (getCredentials Shipped.testConfig ∅ "RBCClient" (Some "QA") initial) = Ok got.
Proof.
destruct (fetchAndStoreCredentials_stores Shipped.testConfig ∅ initial
            (reachable_initial _)) as (_ & _ & Hown & _).
apply (Hown Shipped.QA); [reflexivity | by apply (bool_decide_unpack _); vm_compute].
Defined.

(** The setup run with an inherited name as credential key and no override:
    it succeeds and stores the text ["undefined"] twice. *)
Example fetchAndStoreCredentials_inherited_key :
result (Callers.fetchAndStoreCredentials Shipped.testConfig
          {["AUTH_CREDENTIAL_KEY" := "constructor"]} initial)
  = Ok (<["CREDENTIAL_KEY" := "constructor"]>
          (<["LOGIN_PASSWORD" := "undefined"]>
             (<["LOGIN_USERNAME" := "undefined"]>
                {["AUTH_CREDENTIAL_KEY" := "constructor"]}))).
Proof. reflexivity. Qed.

(** X22. On the shipped table only QA carries the default credential key:
    with [AUTH_CREDENTIAL_KEY] unset or empty, the global setup's
    [fetchAndStoreCredentials] succeeds, in a reachable state, exactly when
    [TEST_ENV] is unset, empty or ["QA"]; for every other value, the other
    three shipped environments included, it throws. *)
Theorem fetchAndStoreCredentials_shipped_default (penv : gmap string string) (st : State) :
reachable Shipped.testConfig st →
penv !! "AUTH_CREDENTIAL_KEY" = None ∨ penv !! "AUTH_CREDENTIAL_KEY" = Some "" →
((∃ stored, result (Callers.fetchAndStoreCredentials Shipped.testConfig penv st) = Ok stored)
 ↔ penv !! "TEST_ENV" = None ∨ penv !! "TEST_ENV" = Some "" ∨ penv !! "TEST_ENV" = Some "QA")
∧ ((∃ e, result (Callers.fetchAndStoreCredentials Shipped.testConfig penv st) = Throw e)
   ↔ ¬ (penv !! "TEST_ENV" = None ∨ penv !! "TEST_ENV" = Some ""
        ∨ penv !! "TEST_ENV" = Some "QA")).
Proof.
intros Hreach Hkey.
assert (Houtcome :
  (∃ stored, result (Callers.fetchAndStoreCredentials Shipped.testConfig penv st) = Ok stored)
  ∨ (∃ e, result (Callers.fetchAndStoreCredentials Shipped.testConfig penv st) = Throw e)).
{ unfold Callers.fetchAndStoreCredentials, result.
  destruct (getCredentials _ _ _ _ _) as [[got|e|v] st']; simpl;
    [left | right | left]; by eexists. }
enough (Hiff :
  (∃ stored, result (Callers.fetchAndStoreCredentials Shipped.testConfig penv st) = Ok stored)
  ↔ penv !! "TEST_ENV" = None ∨ penv !! "TEST_ENV" = Some ""
    ∨ penv !! "TEST_ENV" = Some "QA").
{ split; [done|]. rewrite <- Hiff. split.
  - intros [e He] [stored Hs]. congruence.
  - intros Hnot. destruct Houtcome as [Hs|He]; [by destruct Hnot | done]. }
clear Houtcome. apply reachable_cache_ok in Hreach as Hok.
assert (HK : JS.or_else (penv !! "AUTH_CREDENTIAL_KEY") "RBCClient" = "RBCClient")
  by (by destruct Hkey as [-> | ->]).
set (env := JS.or_else (penv !! "TEST_ENV") "QA").
assert (Henv : resolvedName penv (Some env) st = env)
  by (apply resolvedName_given; by apply or_else_nonempty).
pose proof (getCredentials_result Shipped.testConfig penv "RBCClient" (Some env) st Hok)
  as Hres.
rewrite Henv in Hres.
assert (Hrun : (∃ stored,
                  result (Callers.fetchAndStoreCredentials Shipped.testConfig penv st)
                  = Ok stored) ↔ env = "QA").
{ unfold Callers.fetchAndStoreCredentials. rewrite HK. fold env.
  assert (Hcases :
    (env = "QA" ∧ ∃ got, credentialsAt penv "RBCClient"
                           (tableEntry Shipped.testConfig env) = Ok got)
    ∨ (env ≠ "QA" ∧ ∃ e, credentialsAt penv "RBCClient"
                           (tableEntry Shipped.testConfig env) = Throw e)).
  { unfold tableEntry, Obj.index.
    destruct (Obj.get (environments Shipped.testConfig) env) as [config|] eqn:Hget.
    - destruct (shipped_entry env config Hget)
        as [[-> ->] | [[-> ->] | [[-> ->] | [-> ->]]]];
        first [left; split; [done|]; by eexists | right; split; [done|]; by eexists].
    - right. split; [by intros ->|]. destruct (Proto.inherited env); by eexists. }
  rewrite <- Hres in Hcases.
  destruct (getCredentials Shipped.testConfig penv "RBCClient" (Some env) st)
    as [[got|e|v] st']; unfold result in *; simpl in *.
  - split; [intros _ | by eexists].
    by destruct Hcases as [[? _] | [_ [? ?]]].
  - split; [by intros [? ?]|]. intros Hqa.
    by destruct Hcases as [[_ [? ?]] | [? _]].
  - by destruct Hcases as [[_ [? ?]] | [_ [? ?]]]. }
rewrite Hrun. subst env.
destruct (penv !! "TEST_ENV") as [[|c r]|]; simpl.
- split; auto.
- split; [intros ->; auto|]. intros [? | [? | H]]; [done | done | congruence].
- split; auto.
Qed.

Lemma fetchAndStoreCredentials_shipped_default_witness :
(∃ stored,
   result (Callers.fetchAndStoreCredentials Shipped.testConfig {["TEST_ENV" := "prod"]}
             initial) = Ok stored)
↔ ({["TEST_ENV" := "prod"]} : gmap string string) !! "TEST_ENV" = None
  ∨ ({["TEST_ENV" := "prod"]} : gmap string string) !! "TEST_ENV" = Some ""
  ∨ ({["TEST_ENV" := "prod"]} : gmap string string) !! "TEST_ENV" = Some "QA".
Proof.
apply (fetchAndStoreCredentials_shipped_default {["TEST_ENV" := "prod"]} initial);
  [apply reachable_initial | left; by vm_compute].
Defined.

(** With [TEST_ENV] set to ["prod"], whose credentials have no ["RBCClient"],
    the setup throws. *)
Example fetchAndStoreCredentials_prod :
result (Callers.fetchAndStoreCredentials Shipped.testConfig {["TEST_ENV" := "prod"]} initial)
  = Throw ("Credentials " +:+ JS.quoted "RBCClient" +:+ " not found for environment "
           +:+ JS.quoted "Production"
           +:+ ". Available: admin, testUser1, testUser2, readOnlyUser").
Proof. by vm_compute. Qed.

(** X23. The [credentials] fixture passes [TEST_ENV] (default ["QA"]) as the
    environment name; in a reachable state that is the environment the
    resolver picks by itself, so the fixture behaves, in result and in final
    state, like [getCredentials(credentialKey)] without a name. *)
Theorem credentialsFixture_is_default_lookup (testConfig : TestConfig)
  (penv : gmap string string) (credentialKey : string) (st : State) :
reachable testConfig st →
Callers.credentialsFixture testConfig penv credentialKey st
  = getCredentials testConfig penv credentialKey None st.
Proof.
intros Hreach. destruct (reachable_invariant testConfig st Hreach) as [_ Hnone].
unfold Callers.credentialsFixture, getCredentials, bind_any.
rewrite !getEnvironmentConfig_resolved.
assert (resolvedName penv (Some (JS.or_else (penv !! "TEST_ENV") "QA")) st
        = resolvedName penv None st) as ->.
{ rewrite resolvedName_given by (by apply or_else_nonempty).
  unfold resolvedName, activeName. by rewrite Hnone. }
done.
Qed.

Lemma credentialsFixture_is_default_lookup_witness :
Callers.credentialsFixture Shipped.testConfig {["TEST_ENV" := "local"]} "admin" initial
  = getCredentials Shipped.testConfig {["TEST_ENV" := "local"]} "admin" None initial.
Proof.
apply (credentialsFixture_is_default_lookup Shipped.testConfig {["TEST_ENV" := "local"]}
         "admin" initial).
apply reachable_initial.
Defined.

(** X24. The default credential key of
    [performSuccessfulLoginWithConfigCreds], ["RBCClientUser"], is not a key
    of any shipped environment: called without a key, the method's first
    statement throws in every reachable state and under every process
    environment, before any page is opened. *)
Theorem configCredentials_default_key_fails (penv : gmap string string) (st : State) :
reachable Shipped.testConfig st →
∃ e, result (Callers.configCredentials Shipped.testConfig penv None st) = Throw e.
Proof.
intros Hreach. apply reachable_cache_ok in Hreach as Hok.
unfold Callers.configCredentials. simpl.
rewrite (getCredentials_result Shipped.testConfig penv "RBCClientUser" None st Hok).
unfold tableEntry, Obj.index.
destruct (Obj.get (environments Shipped.testConfig) (resolvedName penv None st))
  as [config|] eqn:Hget; simpl.
- destruct (shipped_entry _ config Hget)
    as [[_ ->] | [[_ ->] | [[_ ->] | [_ ->]]]]; by eexists.
- destruct (Proto.inherited (resolvedName penv None st)); by eexists.
Qed.

Lemma configCredentials_default_key_fails_witness :
∃ e, result (Callers.configCredentials Shipped.testConfig ∅ None initial) = Throw e.
Proof.
apply (configCredentials_default_key_fails ∅ initial). apply reachable_initial.
Defined.

(** X25. Every shipped environment has a base URL: on the shipped table
    [getBaseUrl], and with it the [baseURL] of the Playwright configuration,
    returns a URL exactly when [BASE_URL] is non-empty or the resolved name
    is one of the four shipped keys.  When it throws, the error is the
    unknown-environment error, except for a resolved name that is the name
    of a member inherited from [Object.prototype]: that member is taken for
    an environment, and the error is the missing-base-URL error carrying
    the member's own name, which is [Object] for ["constructor"], the text
    [undefined] for ["__proto__"] and the resolved name otherwise. *)
Theorem shipped_getBaseUrl_succeeds (penv : gmap string string) (envName : option string)
  (st : State) :
reachable Shipped.testConfig st →
let resolved := resolvedName penv envName st in
((∃ url, result (getBaseUrl Shipped.testConfig penv envName st) = Ok url)
 ↔ (∃ v, penv !! "BASE_URL" = Some v ∧ v ≠ "")
   ∨ resolved ∈ ["dev"; "QA"; "prod"; "local"])
∧ (∀ e, result (getBaseUrl Shipped.testConfig penv envName st) = Throw e →
        ((resolved ∉ Proto.names)
         ∧ e = "Environment " +:+ JS.quoted resolved
               +:+ " not found in test.config.ts. Available: dev, QA, prod, local")
        ∨ (resolved ∈ Proto.names
           ∧ ∃ shown, e = "No baseUrl or urlConfig found for environment: " +:+ shown
                      ∧ (resolved = "constructor" → shown = "Object")
                      ∧ (resolved = "__proto__" → shown = "undefined")
                      ∧ (resolved ≠ "constructor" → resolved ≠ "__proto__" →
                         shown = resolved)))
∧ (∀ v, result (getBaseUrl Shipped.testConfig penv envName st) ≠ Untyped v)
∧ Callers.baseURL Shipped.testConfig penv st = getBaseUrl Shipped.testConfig penv None st.
Proof.
intros Hreach resolved. apply reachable_cache_ok in Hreach as Hok.
assert (Hentry :
  (resolved ∈ ["dev"; "QA"; "prod"; "local"]
   ∧ ∃ url, baseUrlAt penv (tableEntry Shipped.testConfig resolved) = Ok url)
  ∨ ((resolved ∉ ["dev"; "QA"; "prod"; "local"]) ∧ resolved ∈ Proto.names
     ∧ baseUrlAt penv (tableEntry Shipped.testConfig resolved)
       = Throw ("No baseUrl or urlConfig found for environment: "
                +:+ Proto.nameText resolved))
  ∨ ((resolved ∉ ["dev"; "QA"; "prod"; "local"]) ∧ (resolved ∉ Proto.names)
     ∧ baseUrlAt penv (tableEntry Shipped.testConfig resolved)
       = Throw (msg_unknown_environment Shipped.testConfig resolved))).
{ unfold tableEntry, Obj.index.
  destruct (Obj.get (environments Shipped.testConfig) resolved) as [config|] eqn:Hget.
  - left. split; [by apply (ObjFacts.get_Some_key _ _ _ Hget)|].
    destruct (shipped_entry _ config Hget)
      as [[_ ->] | [[_ ->] | [[_ ->] | [_ ->]]]]; by eexists.
  - right. apply ObjFacts.get_None_key in Hget. unfold Proto.inherited.
    destruct (bool_decide (resolved ∈ Proto.names)) eqn:Hin.
    + apply bool_decide_eq_true in Hin. by left.
    + apply bool_decide_eq_false in Hin. by right. }
split; [|split; [|split; [apply getBaseUrl_typed | done]]].
- destruct (JS.effective (penv !! "BASE_URL")) as [v|] eqn:E.
  + rewrite (getBaseUrl_override Shipped.testConfig penv envName st v E).
    apply JSFacts.effective_Some in E. split; [intros _; left; by exists v | by eexists].
  + destruct (getBaseUrl_run Shipped.testConfig penv envName st Hok E) as (st' & -> & _).
    unfold result; cbn [fst]. fold resolved.
    split.
    * intros [url Hurl]. right.
      destruct Hentry as [[? _] | [(_ & _ & Hthrow) | (_ & _ & Hthrow)]];
        [done | congruence | congruence].
    * intros [(v & Hv & Hne) | Hin].
      -- assert (JS.effective (penv !! "BASE_URL") = Some v)
           by (by apply JSFacts.effective_Some). congruence.
      -- by destruct Hentry as [[_ ?] | [(? & _) | (? & _)]].
- intros e. destruct (JS.effective (penv !! "BASE_URL")) as [v|] eqn:E.
  + by rewrite (getBaseUrl_override Shipped.testConfig penv envName st v E).
  + destruct (getBaseUrl_run Shipped.testConfig penv envName st Hok E) as (st' & -> & _).
    unfold result; cbn [fst]. fold resolved.
    destruct Hentry as [(_ & url & ->) | [(_ & Hin & ->) | (_ & Hin & ->)]];
      [done | intros [= <-]; right | intros [= <-]; by left].
    split; [done|]. exists (Proto.nameText resolved). split; [done|].
    unfold Proto.nameText. split; [by intros ->|]. split; [by intros ->|].
    intros H1 H2. apply String.eqb_neq in H1, H2. by rewrite H1, H2.
Qed.

Lemma shipped_getBaseUrl_succeeds_witness :
(∃ url, result (getBaseUrl Shipped.testConfig {["TEST_ENV" := "prod"]} None initial) = Ok url)
↔ (∃ v, ({["TEST_ENV" := "prod"]} : gmap string string) !! "BASE_URL" = Some v ∧ v ≠ "")
  ∨ resolvedName {["TEST_ENV" := "prod"]} None initial ∈ ["dev"; "QA"; "prod"; "local"].
Proof.
apply (shipped_getBaseUrl_succeeds {["TEST_ENV" := "prod"]} None initial).
apply reachable_initial.
Defined.

(** Names of inherited members on the shipped table: as environment name
    and as credential key. *)
Example inherited_names_on_shipped_table :
hasEnvironment Shipped.testConfig "toString" = true
∧ setEnvironment Shipped.testConfig "constructor" initial = (Ok tt, initial)
∧ result (getDomainPath Shipped.testConfig ∅ "login" (Some "toString") initial)
  = Throw "Cannot read properties of undefined (reading 'login')"
∧ result (getAllDomainPaths Shipped.testConfig ∅ (Some "toString") initial)
  = Untyped Undefined
∧ result (hasCredentials Shipped.testConfig ∅ "constructor" (Some "QA") initial) = Ok true
∧ result (getAvailableCredentialKeys Shipped.testConfig ∅ (Some "QA") initial)
  = Ok ["RBCClient"; "TDFClient"; "testUser2"; "readOnlyUser"]
∧ result (getCredentials Shipped.testConfig ∅ "constructor" (Some "QA") initial)
  = Untyped (PartialCredentials None None)
∧ result (getCredentials Shipped.testConfig
            {["CONSTRUCTOR_USERNAME" := "a"; "CONSTRUCTOR_PASSWORD" := "b"]}
            "constructor" (Some "QA") initial)
  = Ok {| username := "a"; password := "b" |}.
Proof. repeat split; by vm_compute. Qed.

(** A name of an inherited member, taken for an environment. *)
Example getBaseUrl_inherited_name :
result (getBaseUrl Shipped.testConfig ∅ (Some "toString") initial)
  = Throw "No baseUrl or urlConfig found for environment: toString"
∧ result (getBaseUrl Shipped.testConfig ∅ (Some "constructor") initial)
  = Throw "No baseUrl or urlConfig found for environment: Object"
∧ cache (final (getBaseUrl Shipped.testConfig ∅ (Some "toString") initial))
    !! "env_toString" = Some (Obj.Inherited "toString").
Proof. repeat split; by vm_compute. Qed.

(** * The data provider *)

Section DataProviderFacts.

Import DataProvider.

Variable Value : Type.
Variable blank : Value → bool.

Local Abbreviation Rows := (list (TestData Value)).

Lemma getData_cached (extname : string → string) (readCsv : string → Result Rows)
  (readExcel : string → option string → Result Rows)
  (filePath : string) (sheetName : option string) (st : State Value) (data : Rows) :
cacheEnabled Value st = true →
cache Value st !! cacheKey filePath sheetName = Some data →
getData Value extname readCsv readExcel filePath sheetName st = (Ok data, st).
Proof. intros Hen Hhit. unfold getData. by rewrite Hen, Hhit. Qed.

(** What is cached stays cached while requests are served. *)
Lemma serve_keeps (extname : string → string) (request : Request Value)
  (st : State Value) :
cacheEnabled Value st = true →
cacheEnabled Value (serve Value extname request st).2 = true
∧ ∀ key data, cache Value st !! key = Some data →
              cache Value (serve Value extname request st).2 !! key = Some data.
Proof.
intros Hen. unfold serve, getData. rewrite Hen.
destruct (cache Value st !! cacheKey (pathAsked Value request) (sheetAsked Value request))
  as [cached|] eqn:Hhit; [done|].
destruct (readByExtension Value extname _ _ _ _) as [rows|e]; [|done].
split; [done|]. intros key data Hkey. simpl.
rewrite lookup_insert_ne; [done|]. intros <-. congruence.
Qed.

Lemma step_keeps (extname : string → string) (s : Step Value) (st : State Value) :
cacheEnabled Value st = true →
cacheEnabled Value (step Value extname s st) = true
∧ ∀ key data, cache Value st !! key = Some data →
              cache Value (step Value extname s st) !! key = Some data.
Proof.
intros Hen. destruct s as [request|]; [by apply serve_keeps | done].
Qed.

Lemma replay_keeps (extname : string → string) (later : list (Step Value))
  (st : State Value) :
cacheEnabled Value st = true →
cacheEnabled Value (replay Value extname later st) = true
∧ ∀ key data, cache Value st !! key = Some data →
              cache Value (replay Value extname later st) !! key = Some data.
Proof.
revert st. induction later as [|s rest IH]; intros st Hen; [done|].
destruct (step_keeps extname s st Hen) as [Hen1 Hkeep1].
destruct (IH _ Hen1) as [Hen2 Hkeep2].
cbn [replay]. split; [done|]. intros key data Hkey. by apply Hkeep2, Hkeep1.
Qed.

(** X26. While caching is on, data read once is served from the cache for
    good: after a successful [getData], and after any sequence of further
    [getData] requests, whatever they ask for and whatever they return, and
    of calls of [setCaching(true)], every [getData] whose cache key is the
    same returns the same rows and leaves the state alone, whatever the
    files now contain and whatever the extension of the path asked for; the
    key of a path with a sheet is the path, a colon and the sheet, so a
    sheet-less request for that literal string is served too.  After
    [clearCache], [getData] reads again. *)
Theorem getData_serves_from_cache
  (extname extname' : string → string) (readCsv readCsv' : string → Result Rows)
  (readExcel readExcel' : string → option string → Result Rows)
  (filePath filePath' : string) (sheetName sheetName' : option string)
  (later : list (Step Value)) (st st1 : State Value) (data : Rows) :
cacheEnabled Value st = true →
getData Value extname readCsv readExcel filePath sheetName st = (Ok data, st1) →
cacheKey filePath' sheetName' = cacheKey filePath sheetName →
let st2 := replay Value extname' later st1 in
getData Value extname' readCsv' readExcel' filePath' sheetName' st2 = (Ok data, st2)
∧ (∀ sheet, sheetName = Some sheet → sheet ≠ "" →
     getData Value extname' readCsv' readExcel' (filePath +:+ ":" +:+ sheet) None st2
       = (Ok data, st2))
∧ (getData Value extname' readCsv' readExcel' filePath sheetName
     (clearCache Value st2)).1
  = readByExtension Value extname' readCsv' readExcel' filePath sheetName.
Proof.
intros Hen Hrun Hkey st2.
assert (Hst1 : cacheEnabled Value st1 = true
               ∧ cache Value st1 !! cacheKey filePath sheetName = Some data).
{ unfold getData in Hrun. rewrite Hen in Hrun.
  destruct (cache Value st !! cacheKey filePath sheetName) as [cached|] eqn:Hhit.
  - injection Hrun as <- <-. by split.
  - destruct (readByExtension Value extname readCsv readExcel filePath sheetName)
      as [d|e]; [|done].
    injection Hrun as <- <-. split; [done|]. simpl. apply lookup_insert_eq. }
destruct Hst1 as [Hen1 Hhit1].
destruct (replay_keeps extname' later st1 Hen1) as [Hen2 Hkeep].
specialize (Hkeep _ _ Hhit1). fold st2 in Hen2, Hkeep.
split; [|split].
- apply getData_cached; [done | by rewrite Hkey].
- intros sheet -> Hne. apply getData_cached; [done|].
  assert (cacheKey filePath (Some sheet) = filePath +:+ ":" +:+ sheet) as Hk
    by (unfold cacheKey; by destruct sheet).
  by rewrite <- Hk.
- unfold getData, clearCache. simpl. rewrite Hen2, lookup_empty.
  by destruct (readByExtension Value extname' readCsv' readExcel' filePath sheetName).
Qed.

(** The other readers reach the state only through [getData]. *)
Lemma readers_state (extname : string → string) (readCsv : string → Result Rows)
  (readExcel : string → option string → Result Rows) (showNumber : Z → string)
  (filterFn : TestData Value → bool)
  (filePath : string) (rowIndex : Z) (sheetName : option string) (st : State Value) :
let st' := (getData Value extname readCsv readExcel filePath sheetName st).2 in
(getTestData Value extname readCsv readExcel filePath sheetName st).2 = st'
∧ (getRow Value extname readCsv readExcel showNumber filePath rowIndex sheetName st).2 = st'
∧ (getFilteredData Value extname readCsv readExcel filePath filterFn sheetName st).2 = st'
∧ (getRowCount Value extname readCsv readExcel filePath sheetName st).2 = st'.
Proof.
unfold getTestData, getRow, getFilteredData, getRowCount.
destruct (getData Value extname readCsv readExcel filePath sheetName st) as [[rows|e] st'];
  simpl; [|done].
by destruct ((rowIndex <? 0)%Z || (Z.of_nat (length rows) <=? rowIndex)%Z).
Qed.

(** X27. A failed read is never cached and an unsupported extension is
    refused before any reader runs: when [getData] throws, the state is
    exactly what it was; and for a path that is not served from the cache
    and whose lower-cased extension is none of [.csv], [.xlsx], [.xls] it
    throws the unsupported-type error naming that extension, whatever the
    readers would return. *)
Theorem getData_failures (extname : string → string) (readCsv : string → Result Rows)
  (readExcel : string → option string → Result Rows)
  (filePath : string) (sheetName : option string) (st : State Value) :
(∀ e st', getData Value extname readCsv readExcel filePath sheetName st = (Throw e, st') →
          st' = st)
∧ (let ext := toLowerCase (extname filePath) in
   ext ≠ ".csv" → ext ≠ ".xlsx" → ext ≠ ".xls" →
   cacheEnabled Value st = false ∨ cache Value st !! cacheKey filePath sheetName = None →
   getData Value extname readCsv readExcel filePath sheetName st
     = (Throw ("Unsupported file type: " +:+ ext +:+ ". Supported types: .csv, .xlsx, .xls"),
        st)).
Proof.
split.
- intros e st'. unfold getData.
  destruct (if cacheEnabled Value st then _ else _); [done|].
  destruct (readByExtension Value extname readCsv readExcel filePath sheetName);
    [done | by intros [= _ <-]].
- intros ext H1 H2 H3 Hmiss. unfold getData.
  assert ((if cacheEnabled Value st
           then cache Value st !! cacheKey filePath sheetName else None) = None) as ->.
  { destruct Hmiss as [-> | Hnone]; [done|]. by destruct (cacheEnabled Value st). }
  unfold readByExtension. fold ext.
  apply String.eqb_neq in H1, H2, H3. by rewrite H1, H2, H3.
Qed.

(** X28. [getRow] checks its index against the rows [getData] returns: for
    an index from [0] up to the row count, excluded, it returns the row at
    that position; for a negative index or one at or beyond the row count,
    in particular for every index when there are no rows, it throws the
    out-of-bounds error carrying the index and the row count. *)
Theorem getRow_bounds (extname : string → string) (readCsv : string → Result Rows)
  (readExcel : string → option string → Result Rows) (showNumber : Z → string)
  (filePath : string) (rowIndex : Z) (sheetName : option string)
  (st st1 : State Value) (data : Rows) :
getData Value extname readCsv readExcel filePath sheetName st = (Ok data, st1) →
((0 ≤ rowIndex < Z.of_nat (length data))%Z →
   ∃ row, data !! Z.to_nat rowIndex = Some row
          ∧ getRow Value extname readCsv readExcel showNumber filePath rowIndex sheetName st
            = (Ok (Some row), st1))
∧ ((rowIndex < 0 ∨ Z.of_nat (length data) ≤ rowIndex)%Z →
   getRow Value extname readCsv readExcel showNumber filePath rowIndex sheetName st
     = (Throw ("Row index " +:+ showNumber rowIndex +:+ " out of bounds. Total rows: "
               +:+ showNumber (Z.of_nat (length data))), st1)).
Proof.
intros Hrun. unfold getRow. rewrite Hrun. split.
- intros [Hlo Hhi].
  destruct (data !! Z.to_nat rowIndex) as [row|] eqn:Hrow.
  + exists row. split; [done|].
    assert ((rowIndex <? 0)%Z = false) as -> by lia.
    assert ((Z.of_nat (length data) <=? rowIndex)%Z = false) as -> by lia.
    done.
  + apply lookup_ge_None in Hrow. lia.
- intros Hout.
  assert ((rowIndex <? 0)%Z || (Z.of_nat (length data) <=? rowIndex)%Z = true) as ->.
  { apply orb_true_iff. destruct Hout; [left | right]; lia. }
  done.
Qed.

End DataProviderFacts.

Section DataProviderMore.

Import DataProvider.

Variable Value : Type.
Variable blank : Value → bool.
Variable extname : string → string.
Variable readCsv : string → Result (list (TestData Value)).
Variable readExcel : string → option string → Result (list (TestData Value)).

Local Abbreviation merge := (mergeFrom Value extname readCsv readExcel).

(** The rows gathered so far are only ever extended. *)
Lemma mergeFrom_accumulator (i : nat) (filePaths : list string)
  (sheetNames : option (list string)) (allData : list (TestData Value))
  (st : State Value) :
merge i filePaths sheetNames allData st
  = match merge i filePaths sheetNames [] st with
    | (Ok rows, st') => (Ok (allData ++ rows), st')
    | (Throw e, st') => (Throw e, st')
    end.
Proof.
revert i allData st. induction filePaths as [|filePath rest IH]; intros i allData st.
- simpl. by rewrite app_nil_r.
- cbn [mergeFrom].
  destruct (getData Value extname readCsv readExcel filePath _ st) as [[data|e] st1];
    [|done].
  rewrite (IH (S i) (allData ++ data)), (IH (S i) ([] ++ data)).
  destruct (merge (S i) rest sheetNames [] st1) as [[rows|e] st2]; [|done].
  by rewrite app_assoc.
Qed.

Lemma mergeFrom_no_sheets (i j : nat) (filePaths : list string)
  (allData : list (TestData Value)) (st : State Value) :
merge i filePaths None allData st = merge j filePaths None allData st.
Proof.
revert i j allData st. induction filePaths as [|filePath rest IH]; intros i j allData st.
- done.
- cbn [mergeFrom].
  destruct (getData Value extname readCsv readExcel filePath None st) as [[data|e] st1];
    [|done].
  apply IH.
Qed.

(** X29. [mergeData] reads the files in the order given and appends their
    rows: merging no file returns no row and leaves the state alone; merging
    one file is [getData] of that file; and merging a list followed by
    another (without sheet names) is merging the first from the starting
    state, then the second from the state the first has left, the rows of
    the first before those of the second; the error of the first file that
    fails is the error of the merge, and later files are not read. *)
Theorem mergeData_in_order (filePath : string) (first second : list string)
  (sheetNames : option (list string)) (st : State Value) :
mergeData Value extname readCsv readExcel [] sheetNames st = (Ok [], st)
∧ mergeData Value extname readCsv readExcel [filePath] None st
  = getData Value extname readCsv readExcel filePath None st
∧ mergeData Value extname readCsv readExcel (first ++ second) None st
  = match mergeData Value extname readCsv readExcel first None st with
    | (Throw e, st1) => (Throw e, st1)
    | (Ok rows1, st1) =>
        match mergeData Value extname readCsv readExcel second None st1 with
        | (Throw e, st2) => (Throw e, st2)
        | (Ok rows2, st2) => (Ok (rows1 ++ rows2), st2)
        end
    end.
Proof.
split; [done|]. split.
- unfold mergeData. cbn [mergeFrom].
  by destruct (getData Value extname readCsv readExcel filePath None st) as [[data|e] st1].
- unfold mergeData. generalize 0 at 1 2. revert st.
  induction first as [|p rest IH]; intros st i.
  + cbn [app mergeFrom]. rewrite (mergeFrom_no_sheets i 0).
    by destruct (merge 0 second None [] st) as [[rows|e] st2].
  + cbn [app mergeFrom].
    destruct (getData Value extname readCsv readExcel p None st) as [[data|e] st1];
      [|done].
    rewrite (mergeFrom_accumulator (S i) (rest ++ second)).
    rewrite (mergeFrom_accumulator (S i) rest).
    rewrite (IH st1 (S i)).
    destruct (merge (S i) rest None [] st1) as [[rows1|e] st2]; [|done].
    destruct (merge 0 second None [] st2) as [[rows2|e] st3]; [|done].
    by rewrite app_assoc.
Qed.

Lemma rowHasFields_true (row : TestData Value) (requiredFields : list string) :
rowHasFields Value blank row requiredFields = true
↔ ∀ field, field ∈ requiredFields →
           match Obj.get row field with
           | Some v => blank v = false
           | None => field ∈ Proto.names
           end.
Proof.
assert (Hone : ∀ f, fieldMissing Value blank row f = false
                    ↔ match Obj.get row f with
                      | Some v => blank v = false
                      | None => f ∈ Proto.names
                      end).
{ intros f. unfold fieldMissing, Obj.index, Proto.inherited.
  destruct (Obj.get row f) as [v|]; [done|].
  destruct (bool_decide (f ∈ Proto.names)) eqn:Hin.
  - apply bool_decide_eq_true in Hin. done.
  - apply bool_decide_eq_false in Hin. done. }
induction requiredFields as [|f rest IH]; simpl.
- split; [|done]. intros _ field Hin. by apply elem_of_nil in Hin.
- destruct (fieldMissing Value blank row f) eqn:Hf.
  + split; [done|]. intros Hall.
    assert (fieldMissing Value blank row f = false); [|congruence].
    apply Hone, Hall, elem_of_cons. by left.
  + rewrite IH. apply Hone in Hf. split.
    * intros Hall field Hin. apply elem_of_cons in Hin as [->|Hin]; [done|].
      by apply Hall.
    * intros Hall field Hin. apply Hall, elem_of_cons. by right.
Qed.

(** X30. [validateRequiredFields] returns [true] exactly when every row
    holds, under every required field, a value that is neither undefined,
    nor null, nor the empty string; a field the row does not have counts as
    held when it is the name of a member every row inherits from
    [Object.prototype], such as ["toString"].  So the result is [true] when
    there are no rows or no required fields, and one blank field in one row
    makes it [false]. *)
Theorem validateRequiredFields_true_iff (data : list (TestData Value))
  (requiredFields : list string) :
validateRequiredFields Value blank data requiredFields = true
↔ ∀ row field, row ∈ data → field ∈ requiredFields →
               match Obj.get row field with
               | Some v => blank v = false
               | None => field ∈ Proto.names
               end.
Proof.
induction data as [|row rest IH]; simpl.
- split; [|done]. intros _ row field Hin. by apply elem_of_nil in Hin.
- destruct (rowHasFields Value blank row requiredFields) eqn:Hrow.
  + rewrite IH. pose proof (proj1 (rowHasFields_true row requiredFields) Hrow) as Hfields.
    split.
    * intros Hall r field Hr Hf. apply elem_of_cons in Hr as [->|Hr]; [by apply Hfields|].
      by apply Hall.
    * intros Hall r field Hr Hf. apply Hall; [|done]. apply elem_of_cons. by right.
  + split; [done|]. intros Hall.
    assert (rowHasFields Value blank row requiredFields = true); [|congruence].
    apply rowHasFields_true. intros field Hf. apply Hall; [|done].
    apply elem_of_cons. by left.
Qed.

(** A row with one field, checked for that field, for a blank one and for
    an inherited name. *)
Example validateRequiredFields_inherited_name :
validateRequiredFields string (fun v => String.eqb v "") [[("username", "u1")]] ["username"]
  = true
∧ validateRequiredFields string (fun v => String.eqb v "") [[("username", "")]] ["username"]
  = false
∧ validateRequiredFields string (fun v => String.eqb v "") [[("username", "u1")]] ["password"]
  = false
∧ validateRequiredFields string (fun v => String.eqb v "") [[("username", "u1")]] ["toString"]
  = true.
Proof. repeat split; by vm_compute. Qed.

End DataProviderMore.

(** Read once from a CSV file; then another file is read and the first one
    is removed: the first file's rows are still served. *)
Lemma getData_serves_from_cache_witness :
DataProvider.getData string (fun _ => ".pdf") (fun _ => DataProvider.Throw "file removed")
  (fun _ _ => DataProvider.Throw "file removed") "login.csv" None
  (DataProvider.mkState string
     {["login.csv" := [[("username", "u1")]]; "other.csv" := [[("username", "u2")]]]} true)
= (DataProvider.Ok [[("username", "u1")]],
   DataProvider.mkState string
     {["login.csv" := [[("username", "u1")]]; "other.csv" := [[("username", "u2")]]]} true).
Proof.
assert (Hon : DataProvider.cacheEnabled string (DataProvider.initial string) = true)
  by reflexivity.
assert (Hread :
  DataProvider.getData string (fun _ => ".csv")
    (fun _ => DataProvider.Ok [[("username", "u1")]])
    (fun _ _ => DataProvider.Throw "no sheet") "login.csv" None (DataProvider.initial string)
  = (DataProvider.Ok [[("username", "u1")]],
     DataProvider.mkState string {["login.csv" := [[("username", "u1")]]]} true))
  by (by vm_compute).
pose proof (proj1 (getData_serves_from_cache string
                (fun _ => ".csv") (fun _ => ".csv")
                (fun _ => DataProvider.Ok [[("username", "u1")]])
                (fun _ => DataProvider.Throw "file removed")
                (fun _ _ => DataProvider.Throw "no sheet")
                (fun _ _ => DataProvider.Throw "file removed")
                "login.csv" "login.csv" None None
                [DataProvider.Ask string
                   (DataProvider.mkRequest string
                      (fun _ => DataProvider.Ok [[("username", "u2")]])
                      (fun _ _ => DataProvider.Throw "no sheet") "other.csv" None);
                 DataProvider.KeepCaching string]
                (DataProvider.initial string)
                (DataProvider.mkState string {["login.csv" := [[("username", "u1")]]]} true)
                [[("username", "u1")]] Hon Hread eq_refl)) as Hserved.
assert (Hstate :
  DataProvider.replay string (fun _ => ".csv")
    [DataProvider.Ask string
       (DataProvider.mkRequest string
          (fun _ => DataProvider.Ok [[("username", "u2")]])
          (fun _ _ => DataProvider.Throw "no sheet") "other.csv" None);
     DataProvider.KeepCaching string]
    (DataProvider.mkState string {["login.csv" := [[("username", "u1")]]]} true)
  = DataProvider.mkState string
      {["login.csv" := [[("username", "u1")]]; "other.csv" := [[("username", "u2")]]]} true)
  by (by vm_compute).
rewrite Hstate in Hserved. by vm_compute.
Defined.

Lemma getRow_bounds_witness :
DataProvider.getRow string (fun _ => ".csv")
  (fun _ => DataProvider.Ok [[("username", "u1")]])
  (fun _ _ => DataProvider.Throw "no sheet") (fun _ => "n") "login.csv" 1 None
  (DataProvider.mkState string ∅ false)
= (DataProvider.Throw ("Row index " +:+ "n" +:+ " out of bounds. Total rows: " +:+ "n"),
   DataProvider.mkState string ∅ false).
Proof.
apply (getRow_bounds string (fun _ => ".csv")
         (fun _ => DataProvider.Ok [[("username", "u1")]])
         (fun _ _ => DataProvider.Throw "no sheet") (fun _ => "n")
         "login.csv" 1 None (DataProvider.mkState string ∅ false)
         (DataProvider.mkState string ∅ false) [[("username", "u1")]]);
  [by vm_compute | right; simpl; lia].
Defined.

(** The extension is compared in lower case, and the sheet names of a merge
    go to the files by position. *)
Example getData_upper_case_extension :
(DataProvider.getData string (fun _ => ".CSV")
   (fun _ => DataProvider.Ok [[("reader", "csv")]])
   (fun _ _ => DataProvider.Ok [[("reader", "excel")]]) "DATA.CSV" None
   (DataProvider.initial string)).1
  = DataProvider.Ok [[("reader", "csv")]]
∧ (DataProvider.getData string (fun _ => ".Xlsx")
     (fun _ => DataProvider.Ok [[("reader", "csv")]])
     (fun _ _ => DataProvider.Ok [[("reader", "excel")]]) "DATA.Xlsx" None
     (DataProvider.initial string)).1
  = DataProvider.Ok [[("reader", "excel")]].
Proof. split; by vm_compute. Qed.

Example mergeData_sheet_names :
(DataProvider.mergeData string (fun _ => ".xlsx")
   (fun _ => DataProvider.Throw "csv")
   (fun path sheet => DataProvider.Ok [[("path", path); ("sheet", default "first" sheet)]])
   ["a.xlsx"; "b.xlsx"; "c.xlsx"] (Some ["S1"; "S2"]) (DataProvider.initial string)).1
  = DataProvider.Ok [ [("path", "a.xlsx"); ("sheet", "S1")];
                      [("path", "b.xlsx"); ("sheet", "S2")];
                      [("path", "c.xlsx"); ("sheet", "first")] ].
Proof. by vm_compute. Qed.
